(** * The issue tracker of blackroad-os-plane, embedded in Rocq

    A shallow embedding of [src/issue_tracker.py]: the SQLite store is a
    record of tables (lists of rows in rowid order), every method of
    [IssueTracker] is a function from a store to an outcome, and what the
    methods take from the environment (the clock, [uuid.uuid4]) is an
    explicit argument.

    Conventions.
    - A Python [str] is a [string]: one [ascii] per code point, so the
      embedding covers the code points below 256.
    - A Python [int] is a [Z].  An SQLite INTEGER has 64 bits: a parameter
      and a running [SUM] that do not fit raise, as they do in the store.
      The counters that grow by one with a call (sequence numbers, ids and
      counts of comments) stay below that bound and are not checked.
    - A [datetime] is its position on the time line in microseconds.  The
      store keeps [isoformat()] text, whose text order is the order of the
      instants and which [fromisoformat] reads back, so the column is
      modelled by the instant itself.
    - Keyword arguments and the filter dictionary are finite maps from
      names to values. *)

From Stdlib Require Import ZArith Ascii String Floats Uint63 Permutation Sorted
  DecimalString.
From stdpp Require Import base option list gmap fin_maps strings sorting.

Set Warnings "-clear-no-such-hyp".
Local Open Scope Z_scope.

(** ** Text *)

Definition dquote : ascii := "034"%char.
Definition backslash : ascii := "092"%char.

Definition str1 (c : ascii) : string := String c EmptyString.

(** [', '.join(parts)] *)
Fixpoint join (sep : string) (parts : list string) : string :=
  match parts with
  | [] => EmptyString
  | [p] => p
  | p :: rest => p +:+ sep +:+ join sep rest
  end.

(** ** [json.dumps] and [json.loads] on lists of strings

    [create_issue], [update_issue] and [bulk_update] store
    [json.dumps(list)] with the default options ([ensure_ascii=True],
    separators [", "]); [get_issues] reads it back with [json.loads]. *)

Module Json.

Definition hexdigit (n : N) : ascii :=
  ascii_of_N (if (n <? 10)%N then 48 + n else 87 + n).

(** One character of [py_encode_basestring_ascii]: the two-character escapes
    of [ESCAPE_DCT], the printable ASCII range as it is, and a lowercase
    [\u00xx] for everything else. *)
Definition escape_char (c : ascii) : string :=
  let n := N_of_ascii c in
  if (n =? 34)%N then String backslash (str1 dquote)
  else if (n =? 92)%N then String backslash (str1 backslash)
  else if (n =? 8)%N then String backslash "b"
  else if (n =? 12)%N then String backslash "f"
  else if (n =? 10)%N then String backslash "n"
  else if (n =? 13)%N then String backslash "r"
  else if (n =? 9)%N then String backslash "t"
  else if ((32 <=? n) && (n <=? 126))%N then str1 c
  else String backslash
         (String "u" (String "0" (String "0"
            (String (hexdigit (n / 16)) (str1 (hexdigit (n mod 16))))))).

Fixpoint escape (s : string) : string :=
  match s with
  | EmptyString => EmptyString
  | String c s' => escape_char c +:+ escape s'
  end.

Definition encode_basestring_ascii (s : string) : string :=
  String dquote (escape s +:+ str1 dquote).

Definition dumps (l : list string) : string :=
  "[" +:+ join ", " (encode_basestring_ascii <$> l) +:+ "]".

(** Decoding.  [None] stands for every text that is not a JSON array of
    strings over the code points below 256: on such a text Python raises
    [JSONDecodeError] or returns a value that is no list of [str]. *)

Definition hexval (c : ascii) : option N :=
  let n := N_of_ascii c in
  if ((48 <=? n) && (n <=? 57))%N then Some (n - 48)%N
  else if ((97 <=? n) && (n <=? 102))%N then Some (n - 87)%N
  else if ((65 <=? n) && (n <=? 70))%N then Some (n - 55)%N
  else None.

Definition decode_uXXXX (h1 h2 h3 h4 : ascii) : option N :=
  a ← hexval h1; b ← hexval h2; c ← hexval h3; d ← hexval h4;
  Some (((a * 16 + b) * 16 + c) * 16 + d)%N.

(** The [BACKSLASH] table of the decoder. *)
Definition unescape (e : ascii) : option ascii :=
  let n := N_of_ascii e in
  if (n =? 34)%N then Some dquote
  else if (n =? 92)%N then Some backslash
  else if (n =? 47)%N then Some "/"%char
  else if (n =? 98)%N then Some "008"%char
  else if (n =? 102)%N then Some "012"%char
  else if (n =? 110)%N then Some "010"%char
  else if (n =? 114)%N then Some "013"%char
  else if (n =? 116)%N then Some "009"%char
  else None.

Definition cons_char (c : ascii) (r : option (string * string)) :
  option (string * string) :=
  '(v, rest) ← r; Some (String c v, rest).

(** [py_scanstring] (strict) from just after the opening quote: the decoded
    string and the text after the closing quote. *)
Fixpoint scanstring (s : string) : option (string * string) :=
  match s with
  | EmptyString => None
  | String c s1 =>
      if (N_of_ascii c =? 34)%N then Some (EmptyString, s1)
      else if (N_of_ascii c =? 92)%N then
        match s1 with
        | EmptyString => None
        | String e s2 =>
            if (N_of_ascii e =? 117)%N then
              match s2 with
              | String h1 (String h2 (String h3 (String h4 s3))) =>
                  match decode_uXXXX h1 h2 h3 h4 with
                  | Some n =>
                      if (n <? 256)%N then cons_char (ascii_of_N n) (scanstring s3)
                      else None
                  | None => None
                  end
              | _ => None
              end
            else
              match unescape e with
              | Some ch => cons_char ch (scanstring s2)
              | None => None
              end
        end
      else if (N_of_ascii c <? 32)%N then None
      else cons_char c (scanstring s1)
  end.

Definition is_ws (c : ascii) : bool :=
  let n := N_of_ascii c in
  ((n =? 32) || (n =? 9) || (n =? 10) || (n =? 13))%N.

Fixpoint skip_ws (s : string) : string :=
  match s with
  | EmptyString => EmptyString
  | String c s' => if is_ws c then skip_ws s' else s
  end.

(** The loop of [JSONArray], entered at the first character of a value.
    Every round reads at least one character, so [fuel] is the length of
    the text. *)
Fixpoint JSONArray_items (fuel : nat) (s : string) :
  option (list string * string) :=
  match fuel with
  | O => None
  | S fuel' =>
      match s with
      | EmptyString => None
      | String c s1 =>
          if (N_of_ascii c =? 34)%N then
            match scanstring s1 with
            | None => None
            | Some (v, s2) =>
                match skip_ws s2 with
                | EmptyString => None
                | String d s3 =>
                    if (N_of_ascii d =? 93)%N then Some ([v], s3)
                    else if (N_of_ascii d =? 44)%N then
                      '(vs, rest) ← JSONArray_items fuel' (skip_ws s3);
                      Some (v :: vs, rest)
                    else None
                end
            end
          else None
      end
  end.

(** [JSONArray] from just after the opening bracket. *)
Definition JSONArray (s : string) : option (list string * string) :=
  match skip_ws s with
  | EmptyString => None
  | String c s1 as s' =>
      if (N_of_ascii c =? 93)%N then Some ([], s1)
      else JSONArray_items (String.length s') s'
  end.

Definition loads (s : string) : option (list string) :=
  match skip_ws s with
  | EmptyString => None
  | String c s1 =>
      if (N_of_ascii c =? 91)%N then
        '(vs, rest) ← JSONArray s1;
        match skip_ws rest with
        | EmptyString => Some vs
        | _ => None
        end
      else None
  end.

End Json.

(** ** SQLite's LIKE

    [patternCompare] with the defaults of LIKE: [%] matches any run of
    characters, [_] exactly one, every other character itself, upper and
    lower case ASCII letters being equal; there is no escape character.
    Pattern and text are read as C strings. *)

Module Like.

Definition lower (c : ascii) : ascii :=
  let n := N_of_ascii c in
  if ((65 <=? n) && (n <=? 90))%N then ascii_of_N (n + 32) else c.

Definition eq_nocase (c d : ascii) : bool :=
  bool_decide (lower c = lower d).

Fixpoint like (p s : string) : bool :=
  match p with
  | EmptyString => bool_decide (s = EmptyString)
  | String c p' =>
      if (N_of_ascii c =? 37)%N then
        (fix any (s : string) : bool :=
           like p' s ||
           match s with
           | EmptyString => false
           | String _ s' => any s'
           end) s
      else if (N_of_ascii c =? 95)%N then
        match s with
        | EmptyString => false
        | String _ s' => like p' s'
        end
      else
        match s with
        | EmptyString => false
        | String d s' => eq_nocase c d && like p' s'
        end
  end.

(** The parameter [f"%{x}%"] of [get_issues]. *)
Definition contains_pattern (x : string) : string := "%" +:+ x +:+ "%".

(** A text as the LIKE function reads it: a C string, which ends before
    the first NUL. *)
Fixpoint c_text (s : string) : string :=
  match s with
  | EmptyString => EmptyString
  | String c s' => if (N_of_ascii c =? 0)%N then EmptyString else String c (c_text s')
  end.

(** [text LIKE ?] with the parameter [f"%{x}%"]. *)
Definition matches (x text : string) : bool :=
  like (c_text (contains_pattern x)) (c_text text).

End Like.

(** ** Python values and the store *)

(** A [datetime]: microseconds on the time line. *)
Definition datetime : Type := Z.

(** The values a caller passes in [**kwargs]. *)
Inductive pyval : Type :=
| PNone
| PInt (z : Z)
| PStr (s : string)
| PList (l : list string)
| PDatetime (d : datetime).

Global Instance pyval_eq_dec : EqDecision pyval.
Proof. solve_decision. Defined.

(** The dataclass [Issue], as [get_issues] builds it. *)
Module Issue.
Record t : Type := mk {
  id : string;
  workspace_id : string;
  project_id : string;
  sequence_id : Z;
  title : string;
  description : string;
  type : string;
  status : string;
  priority : string;
  assignees : list string;
  labels : list string;
  cycle_id : option string;
  module_id : option string;
  created_by : option string;
  created_at : datetime;
  updated_at : datetime;
  due_date : option datetime;
  estimate_points : option Z;
  link_count : Z;
  attachment_count : Z;
  comment_count : Z
}.
End Issue.

(** A row of the table [issues], column by column in the order of
    [CREATE TABLE]; a nullable column that some statement leaves or sets
    NULL is an [option]. *)
Record issue_row : Type := IssueRow {
  col_id : string;
  col_workspace_id : string;
  col_project_id : string;
  col_sequence_id : Z;
  col_title : string;
  col_description : string;
  col_type : string;
  col_status : string;
  col_priority : string;
  col_assignees : string;
  col_labels : string;
  col_cycle_id : option string;
  col_module_id : option string;
  col_created_by : option string;
  col_created_at : datetime;
  col_updated_at : datetime;
  col_due_date : option datetime;
  col_estimate_points : option Z;
  col_link_count : Z;
  col_attachment_count : Z;
  col_comment_count : Z
}.

Record cycle_row : Type := CycleRow {
  cyc_id : string;
  cyc_project_id : string;
  cyc_name : string;
  cyc_status : string;
  cyc_start_date : datetime;
  cyc_end_date : datetime;
  cyc_issues_count : Z;
  cyc_completed_count : Z;
  cyc_progress : Z
}.

Record module_row : Type := ModuleRow {
  mod_id : string;
  mod_project_id : string;
  mod_name : string;
  mod_description : string;
  mod_status : string;
  mod_lead : option string;
  mod_members : option string;
  mod_issues_count : Z
}.

Record comment_row : Type := CommentRow {
  com_id : Z;
  com_issue_id : string;
  com_user : string;
  com_body : string;
  com_created_at : datetime
}.

(** The database file.  Tables are lists in rowid order, the order of
    insertion since nothing is ever deleted.  [comments_seq] is the entry of
    [sqlite_sequence] that AUTOINCREMENT keeps for [comments].  The table
    [issue_activity] is created by [_init_db] and never read or written. *)
Record store : Type := Store {
  issues : list issue_row;
  cycles : list cycle_row;
  modules : list module_row;
  comments : list comment_row;
  comments_seq : Z
}.

(** The store after [_init_db] on a new file. *)
Definition init_db : store :=
  {| issues := []; cycles := []; modules := []; comments := []; comments_seq := 0 |}.

Global Instance issue_row_eq_dec : EqDecision issue_row.
Proof. solve_decision. Defined.
Global Instance comment_row_eq_dec : EqDecision comment_row.
Proof. solve_decision. Defined.

(** ** Outcomes *)

Inductive exn : Type :=
| IntegrityError    (* a PRIMARY KEY is already taken *)
| OverflowError     (* an [int] too large for an INTEGER, [int] of an infinity *)
| OperationalError. (* integer overflow in [SUM] *)

(** What a call does: it returns, it raises (the connection is dropped
    before [commit], so the store is as it was), or it leaves the typed
    surface: a keyword value that has not the type the dataclass declares
    for its field, a stored list that is no JSON array of strings, a count
    that no float holds exactly.  The embedding does not follow Python and
    SQLite there. *)
Inductive result (A : Type) : Type :=
| Ok (a : A)
| Raise (e : exn)
| Unmodelled.
Global Arguments Ok {A} a.
Global Arguments Raise {A} e.
Global Arguments Unmodelled {A}.

(** [x or 0] on the result of an aggregate, NULL being [None]. *)
Definition or0 (o : option Z) : Z :=
  match o with
  | Some z => if decide (z = 0) then 0 else z
  | None => 0
  end.

(** The range of an SQLite INTEGER. *)
Definition int64 (z : Z) : bool := (- 2 ^ 63 <=? z) && (z <? 2 ^ 63).

(** [MAX(e)] over the selected rows: NULL when there is none. *)
Definition sql_max (l : list Z) : option Z :=
  match l with
  | [] => None
  | z :: l' => Some (foldr Z.max z l')
  end.

(** [SUM(e)] over the selected rows, in the order of the scan: NULL when
    there is none, and no result ([None]: the query fails) once the
    running sum leaves the range of an INTEGER. *)
Fixpoint sum_from (acc : Z) (l : list Z) : option Z :=
  match l with
  | [] => Some acc
  | z :: l' => if int64 (acc + z) then sum_from (acc + z) l' else None
  end.

Definition sql_sum (l : list Z) : option (option Z) :=
  match l with
  | [] => Some None
  | _ => Some <$> sum_from 0 l
  end.

(** [COUNT( * )] *)
Definition sql_count {A} (l : list A) : Z := Z.of_nat (length l).

(** ** create_issue *)

Definition in_project (project_id : string) (r : issue_row) : Prop :=
  col_project_id r = project_id.

Global Instance in_project_dec project_id r : Decision (in_project project_id r).
Proof. unfold in_project. apply _. Defined.

(** [SELECT MAX(sequence_id) FROM issues WHERE project_id = ?] *)
Definition max_sequence_id (project_id : string) (tbl : list issue_row) : option Z :=
  sql_max (col_sequence_id <$> filter (in_project project_id) tbl).

(** The row of the INSERT: it names twelve columns; [status] and the
    counters take their DEFAULT, the other columns NULL. *)
Definition inserted_row (issue_id workspace_id project_id : string) (sequence_id : Z)
    (title description issue_type priority : string)
    (assignees labels : list string) (now : datetime) : issue_row :=
  {| col_id := issue_id; col_workspace_id := workspace_id;
     col_project_id := project_id; col_sequence_id := sequence_id;
     col_title := title; col_description := description;
     col_type := issue_type; col_status := "backlog";
     col_priority := priority;
     col_assignees := Json.dumps assignees; col_labels := Json.dumps labels;
     col_cycle_id := None; col_module_id := None; col_created_by := None;
     col_created_at := now; col_updated_at := now; col_due_date := None;
     col_estimate_points := None; col_link_count := 0;
     col_attachment_count := 0; col_comment_count := 0 |}.

(** [uuid8] is [str(uuid.uuid4())[:8]] and [now] the reading of the clock.
    The INSERT fails when the id is taken: [id] is the PRIMARY KEY. *)
Definition create_issue (uuid8 : string) (now : datetime)
    (project_id title description issue_type priority : string)
    (assignees labels : option (list string)) (st : store) : result (string * store) :=
  let issue_id := uuid8 in
  let workspace_id := "default" in
  let assignees := default [] assignees in
  let labels := default [] labels in
  let max_seq := or0 (max_sequence_id project_id (issues st)) in
  let sequence_id := max_seq + 1 in
  if decide (issue_id ∈ col_id <$> issues st) then Raise IntegrityError
  else
    let row :=
      inserted_row issue_id workspace_id project_id sequence_id title
        description issue_type priority assignees labels now in
    Ok (issue_id,
        {| issues := issues st ++ [row]; cycles := cycles st;
           modules := modules st; comments := comments st;
           comments_seq := comments_seq st |}).

(** ** update_issue and bulk_update *)

Definition allowed_fields : gset string :=
  {[ "title"; "description"; "status"; "priority"; "assignees";
     "labels"; "cycle_id"; "module_id"; "due_date"; "estimate_points" ]}.

Definition bulk_allowed_fields : gset string :=
  {[ "title"; "description"; "status"; "priority"; "assignees";
     "labels"; "cycle_id"; "module_id" ]}.

(** [{k: v for k, v in kwargs.items() if k in allowed}] *)
Definition keep_allowed (allowed : gset string) (kwargs : gmap string pyval) :
  gmap string pyval :=
  filter (λ kv, kv.1 ∈ allowed) kwargs.

(** The type the dataclass [Issue] declares for an updatable field. *)
Definition field_ok (k : string) (v : pyval) : bool :=
  if decide (k ∈ ({[ "title"; "description"; "status"; "priority" ]} : gset string)) then
    match v with PStr _ => true | _ => false end
  else if decide (k ∈ ({[ "assignees"; "labels" ]} : gset string)) then
    match v with PList _ => true | _ => false end
  else if decide (k ∈ ({[ "cycle_id"; "module_id" ]} : gset string)) then
    match v with PStr _ | PNone => true | _ => false end
  else if decide (k = "due_date") then
    match v with PDatetime _ | PNone => true | _ => false end
  else if decide (k = "estimate_points") then
    match v with PInt _ | PNone => true | _ => false end
  else false.

Definition well_typed (updates : gmap string pyval) : bool :=
  bool_decide (map_Forall (λ k v, field_ok k v = true) updates).

(** The parameters can be bound: [sqlite3] raises [OverflowError] on an
    [int] outside the range of an INTEGER. *)
Definition fits (v : pyval) : bool :=
  match v with
  | PInt z => int64 z
  | _ => true
  end.

Definition bindable (updates : gmap string pyval) : bool :=
  bool_decide (map_Forall (λ _ v, fits v = true) updates).

(** [if field in updates: updates[field] = json.dumps(updates[field])] *)
Definition dump_field (field : string) (updates : gmap string pyval) :
  gmap string pyval :=
  match updates !! field with
  | Some (PList l) => <[field := PStr (Json.dumps l)]> updates
  | _ => updates
  end.

Definition dump_lists (updates : gmap string pyval) : gmap string pyval :=
  dump_field "labels" (dump_field "assignees" updates).

(** The value a column takes under [SET k = ?]: the bound value when the
    dictionary names the column, the old one otherwise. *)
Definition set_text (old : string) (v : option pyval) : string :=
  match v with Some (PStr s) => s | _ => old end.
Definition set_opt_text (old : option string) (v : option pyval) : option string :=
  match v with Some (PStr s) => Some s | Some PNone => None | _ => old end.
Definition set_time (old : datetime) (v : option pyval) : datetime :=
  match v with Some (PDatetime d) => d | _ => old end.
Definition set_opt_time (old : option datetime) (v : option pyval) : option datetime :=
  match v with Some (PDatetime d) => Some d | Some PNone => None | _ => old end.
Definition set_opt_int (old : option Z) (v : option pyval) : option Z :=
  match v with Some (PInt z) => Some z | Some PNone => None | _ => old end.

(** One row under [UPDATE issues SET k1 = ?, k2 = ?, ...], the clause the
    methods build from the keys of [updates]. *)
Definition set_columns (updates : gmap string pyval) (r : issue_row) : issue_row :=
  {| col_id := col_id r; col_workspace_id := col_workspace_id r;
     col_project_id := col_project_id r; col_sequence_id := col_sequence_id r;
     col_title := set_text (col_title r) (updates !! "title");
     col_description := set_text (col_description r) (updates !! "description");
     col_type := col_type r;
     col_status := set_text (col_status r) (updates !! "status");
     col_priority := set_text (col_priority r) (updates !! "priority");
     col_assignees := set_text (col_assignees r) (updates !! "assignees");
     col_labels := set_text (col_labels r) (updates !! "labels");
     col_cycle_id := set_opt_text (col_cycle_id r) (updates !! "cycle_id");
     col_module_id := set_opt_text (col_module_id r) (updates !! "module_id");
     col_created_by := col_created_by r;
     col_created_at := col_created_at r;
     col_updated_at := set_time (col_updated_at r) (updates !! "updated_at");
     col_due_date := set_opt_time (col_due_date r) (updates !! "due_date");
     col_estimate_points := set_opt_int (col_estimate_points r) (updates !! "estimate_points");
     col_link_count := col_link_count r;
     col_attachment_count := col_attachment_count r;
     col_comment_count := col_comment_count r |}.

(** [UPDATE issues SET ... WHERE w]: the table afterwards and [rowcount],
    the number of rows the WHERE clause selects. *)
Definition sql_update (updates : gmap string pyval) (w : issue_row → bool)
    (tbl : list issue_row) : list issue_row * Z :=
  ((λ r, if w r then set_columns updates r else r) <$> tbl,
   sql_count (filter (λ r, w r = true) tbl)).

Definition with_issues (st : store) (tbl : list issue_row) : store :=
  {| issues := tbl; cycles := cycles st; modules := modules st;
     comments := comments st; comments_seq := comments_seq st |}.

Definition update_issue (now : datetime) (issue_id : string)
    (kwargs : gmap string pyval) (st : store) : result (bool * store) :=
  let updates := keep_allowed allowed_fields kwargs in
  if decide (updates = ∅) then Ok (false, st)
  else if negb (well_typed updates) then Unmodelled
  else
    let updates := dump_lists updates in
    let updates := <["updated_at" := PDatetime now]> updates in
    if negb (bindable updates) then Raise OverflowError
    else
      let '(tbl, _) :=
        sql_update updates (λ r, bool_decide (col_id r = issue_id)) (issues st) in
      Ok (true, with_issues st tbl).

Definition bulk_update (now : datetime) (issue_ids : list string)
    (kwargs : gmap string pyval) (st : store) : result (Z * store) :=
  if decide (issue_ids = []) then Ok (0, st)
  else
    let updates := keep_allowed bulk_allowed_fields kwargs in
    if decide (updates = ∅) then Ok (0, st)
    else if negb (well_typed updates) then Unmodelled
    else
      let updates := dump_lists updates in
      let updates := <["updated_at" := PDatetime now]> updates in
      if negb (bindable updates) then Raise OverflowError
      else
        let '(tbl, affected) :=
          sql_update updates (λ r, bool_decide (col_id r ∈ issue_ids)) (issues st) in
        Ok (affected, with_issues st tbl).

(** ** Cycles and modules *)

(** [UPDATE issues SET cycle_id = ? WHERE id = ?] *)
Definition add_to_cycle (issue_id cycle_id : string) (st : store) : result (bool * store) :=
  let '(tbl, _) :=
    sql_update {[ "cycle_id" := PStr cycle_id ]}
      (λ r, bool_decide (col_id r = issue_id)) (issues st) in
  Ok (true, with_issues st tbl).

(** [UPDATE issues SET module_id = ? WHERE id = ?] *)
Definition add_to_module (issue_id module_id : string) (st : store) : result (bool * store) :=
  let '(tbl, _) :=
    sql_update {[ "module_id" := PStr module_id ]}
      (λ r, bool_decide (col_id r = issue_id)) (issues st) in
  Ok (true, with_issues st tbl).

Definition create_cycle (uuid8 : string) (project_id name : string)
    (start_date end_date : datetime) (st : store) : result (string * store) :=
  let cycle_id := uuid8 in
  if decide (cycle_id ∈ cyc_id <$> cycles st) then Raise IntegrityError
  else
    let row :=
      {| cyc_id := cycle_id; cyc_project_id := project_id; cyc_name := name;
         cyc_status := "planned"; cyc_start_date := start_date;
         cyc_end_date := end_date; cyc_issues_count := 0;
         cyc_completed_count := 0; cyc_progress := 0 |} in
    Ok (cycle_id,
        {| issues := issues st; cycles := cycles st ++ [row];
           modules := modules st; comments := comments st;
           comments_seq := comments_seq st |}).

Definition create_module (uuid8 : string) (project_id name description : string)
    (st : store) : result (string * store) :=
  let module_id := uuid8 in
  if decide (module_id ∈ mod_id <$> modules st) then Raise IntegrityError
  else
    let row :=
      {| mod_id := module_id; mod_project_id := project_id; mod_name := name;
         mod_description := description; mod_status := "planned";
         mod_lead := None; mod_members := None; mod_issues_count := 0 |} in
    Ok (module_id,
        {| issues := issues st; cycles := cycles st;
           modules := modules st ++ [row]; comments := comments st;
           comments_seq := comments_seq st |}).

(** ** get_issues *)

(** The WHERE clause that [get_issues] assembles: the project, and one
    conjunct for each of the five keys the dictionary holds. *)
Definition where_clause (project_id : string) (filters : gmap string string)
    (r : issue_row) : bool :=
  bool_decide (col_project_id r = project_id)
  && match filters !! "status" with
     | Some v => bool_decide (col_status r = v)
     | None => true
     end
  && match filters !! "priority" with
     | Some v => bool_decide (col_priority r = v)
     | None => true
     end
  && match filters !! "assignee" with
     | Some v => Like.matches v (col_assignees r)
     | None => true
     end
  && match filters !! "label" with
     | Some v => Like.matches v (col_labels r)
     | None => true
     end
  && match filters !! "cycle_id" with
     | Some v => bool_decide (col_cycle_id r = Some v)
     | None => true
     end.

(** [x or "[]"] on a column of text. *)
Definition or_empty_array (s : string) : string :=
  if decide (s = EmptyString) then "[]" else s.

(** [Issue(id=row[0], ...)] *)
Definition issue_of_row (r : issue_row) : option Issue.t :=
  a ← Json.loads (or_empty_array (col_assignees r));
  l ← Json.loads (or_empty_array (col_labels r));
  Some {| Issue.id := col_id r; Issue.workspace_id := col_workspace_id r;
          Issue.project_id := col_project_id r;
          Issue.sequence_id := col_sequence_id r; Issue.title := col_title r;
          Issue.description := col_description r; Issue.type := col_type r;
          Issue.status := col_status r; Issue.priority := col_priority r;
          Issue.assignees := a; Issue.labels := l;
          Issue.cycle_id := col_cycle_id r; Issue.module_id := col_module_id r;
          Issue.created_by := col_created_by r;
          Issue.created_at := col_created_at r;
          Issue.updated_at := col_updated_at r;
          Issue.due_date := col_due_date r;
          Issue.estimate_points := col_estimate_points r;
          Issue.link_count := col_link_count r;
          Issue.attachment_count := col_attachment_count r;
          Issue.comment_count := col_comment_count r |}.

Definition get_issues (project_id : string) (filters : option (gmap string string))
    (st : store) : result (list Issue.t) :=
  let filters := default ∅ filters in
  let rows := filter (λ r, where_clause project_id filters r = true) (issues st) in
  match mapM issue_of_row rows with
  | Some l => Ok l
  | None => Unmodelled
  end.

(** ** get_cycle_analytics *)

(** [int(x)] on a float: truncation toward zero, an exception on an
    infinity or a NaN. *)
Definition py_int (x : float) : option Z :=
  match Prim2SF x with
  | S754_zero _ => Some 0
  | S754_finite sign m e =>
      let v := if 0 <=? e then Z.pos m * 2 ^ e else Z.pos m / 2 ^ (- e) in
      Some (if sign then - v else v)
  | S754_infinity _ => None
  | S754_nan => None
  end.

(** [float(n)] for [0 <= n < 2^53], where the conversion is exact. *)
Definition float_of_Z (n : Z) : float := PrimFloat.of_uint63 (Uint63.of_Z n).

(** [completed / total * 100] on two such integers: the true division of
    Python yields the correctly rounded quotient, which is the IEEE
    division of the two floats. *)
Definition ratio_times_100 (completed total : Z) : float :=
  PrimFloat.mul (PrimFloat.div (float_of_Z completed) (float_of_Z total))
                (float_of_Z 100).

Record cycle_analytics : Type := CycleAnalytics {
  total_issues : Z;
  completed : Z;
  remaining : Z;
  progress_pct : Z;
  remaining_points : Z
}.

Definition in_cycle (cycle_id : string) (r : issue_row) : Prop :=
  col_cycle_id r = Some cycle_id.

Global Instance in_cycle_dec cycle_id r : Decision (in_cycle cycle_id r).
Proof. unfold in_cycle. apply _. Defined.

(** The two queries, then the dictionary.  A sum that overflows makes its
    query fail. *)
Definition get_cycle_analytics (cycle_id : string) (st : store) : result cycle_analytics :=
  let rows := filter (in_cycle cycle_id) (issues st) in
  let total := sql_count rows in
  match sql_sum ((λ r, if decide (col_status r = "done") then 1 else 0) <$> rows) with
  | None => Raise OperationalError
  | Some completed =>
      let completed := or0 completed in
      let open := filter (λ r, col_status r ≠ "done") rows in
      match sql_sum ((λ r, default 1 (col_estimate_points r)) <$> open) with
      | None => Raise OperationalError
      | Some remaining_points =>
          let remaining_points := or0 remaining_points in
          if 2 ^ 53 <=? total then Unmodelled
          else
            let pct :=
              if 0 <? total then py_int (ratio_times_100 completed total)
              else Some 0 in
            match pct with
            | None => Raise OverflowError
            | Some p =>
                Ok {| total_issues := total; completed := completed;
                      remaining := total - completed; progress_pct := p;
                      remaining_points := remaining_points |}
            end
      end
  end.

(** ** comment and get_comments *)

(** The rowid AUTOINCREMENT gives the next row of [comments]: one more than
    the largest the table has ever held. *)
Definition next_comment_id (st : store) : Z :=
  Z.max (comments_seq st) (foldr Z.max 0 (com_id <$> comments st)) + 1.

Definition bump_comment_count (r : issue_row) : issue_row :=
  {| col_id := col_id r; col_workspace_id := col_workspace_id r;
     col_project_id := col_project_id r; col_sequence_id := col_sequence_id r;
     col_title := col_title r; col_description := col_description r;
     col_type := col_type r; col_status := col_status r;
     col_priority := col_priority r; col_assignees := col_assignees r;
     col_labels := col_labels r; col_cycle_id := col_cycle_id r;
     col_module_id := col_module_id r; col_created_by := col_created_by r;
     col_created_at := col_created_at r; col_updated_at := col_updated_at r;
     col_due_date := col_due_date r;
     col_estimate_points := col_estimate_points r;
     col_link_count := col_link_count r;
     col_attachment_count := col_attachment_count r;
     col_comment_count := col_comment_count r + 1 |}.

(** The INSERT, then [UPDATE issues SET comment_count = comment_count + 1
    WHERE id = ?], then one [commit]; the value returned is [lastrowid],
    which the UPDATE leaves as the INSERT set it.  No foreign key is
    enforced: the connection never sets [PRAGMA foreign_keys]. *)
Definition comment (now : datetime) (issue_id user body : string) (st : store) :
    result (Z * store) :=
  let comment_id := next_comment_id st in
  let row :=
    {| com_id := comment_id; com_issue_id := issue_id; com_user := user;
       com_body := body; com_created_at := now |} in
  let tbl :=
    (λ r, if decide (col_id r = issue_id) then bump_comment_count r else r)
      <$> issues st in
  Ok (comment_id,
      {| issues := tbl; cycles := cycles st; modules := modules st;
         comments := comments st ++ [row]; comments_seq := comment_id |}).

(** [ORDER BY created_at]: ascending, rows of equal [created_at] in the
    order of the scan (the order SQLite's sorter gives them; SQL leaves it
    open). *)
Fixpoint insert_by {A} (key : A → Z) (x : A) (l : list A) : list A :=
  match l with
  | [] => [x]
  | y :: l' => if key x <=? key y then x :: l else y :: insert_by key x l'
  end.

Definition order_by {A} (key : A → Z) (l : list A) : list A :=
  foldr (insert_by key) [] l.

(** One dictionary of the list [get_comments] returns. *)
Record comment_dict : Type := CommentDict {
  d_id : Z;
  d_user : string;
  d_body : string;
  d_created_at : datetime
}.

Definition dict_of_comment (r : comment_row) : comment_dict :=
  {| d_id := com_id r; d_user := com_user r; d_body := com_body r;
     d_created_at := com_created_at r |}.

Definition get_comments (issue_id : string) (st : store) : list comment_dict :=
  dict_of_comment <$>
    order_by com_created_at (filter (λ r, com_issue_id r = issue_id) (comments st)).

(** ** Sequences of calls *)

(** The calls that write to the store. *)
Inductive call : Type :=
| CreateIssue (uuid8 : string) (now : datetime)
    (project_id title description issue_type priority : string)
    (assignees labels : option (list string))
| UpdateIssue (now : datetime) (issue_id : string) (kwargs : gmap string pyval)
| BulkUpdate (now : datetime) (issue_ids : list string) (kwargs : gmap string pyval)
| CreateCycle (uuid8 project_id name : string) (start_date end_date : datetime)
| AddToCycle (issue_id cycle_id : string)
| CreateModule (uuid8 project_id name description : string)
| AddToModule (issue_id module_id : string)
| Comment (now : datetime) (issue_id user body : string).

Definition store_of {A} (r : result (A * store)) : result store :=
  match r with
  | Ok (_, st) => Ok st
  | Raise e => Raise e
  | Unmodelled => Unmodelled
  end.

Definition exec (c : call) (st : store) : result store :=
  match c with
  | CreateIssue u now p t d ty pr a l => store_of (create_issue u now p t d ty pr a l st)
  | UpdateIssue now i kw => store_of (update_issue now i kw st)
  | BulkUpdate now ids kw => store_of (bulk_update now ids kw st)
  | CreateCycle u p n s e => store_of (create_cycle u p n s e st)
  | AddToCycle i c => store_of (add_to_cycle i c st)
  | CreateModule u p n d => store_of (create_module u p n d st)
  | AddToModule i m => store_of (add_to_module i m st)
  | Comment now i u b => store_of (comment now i u b st)
  end.

(** The store after the calls [cs], one after the other: a call that raises
    leaves the store as it found it, and there is no store to speak of once
    a call has left the typed surface. *)
Fixpoint run (cs : list call) (st : store) : option store :=
  match cs with
  | [] => Some st
  | c :: cs' =>
      match exec c st with
      | Ok st' => run cs' st'
      | Raise _ => run cs' st
      | Unmodelled => None
      end
  end.

(** ** Columns by name *)

(** What SQLite holds in a column. *)
Inductive sqlval : Type :=
| SNull
| SInt (z : Z)
| SText (s : string)
| STime (d : datetime).

(** The value that reaches the column for a keyword value: the bound
    value, after [json.dumps] for a list. *)
Definition stored (v : pyval) : sqlval :=
  match v with
  | PNone => SNull
  | PInt z => SInt z
  | PStr s => SText s
  | PList l => SText (Json.dumps l)
  | PDatetime d => STime d
  end.

Definition null_or {A} (f : A → sqlval) (o : option A) : sqlval :=
  match o with
  | Some a => f a
  | None => SNull
  end.

Definition columns (r : issue_row) : list (string * sqlval) :=
  [ ("id", SText (col_id r));
    ("workspace_id", SText (col_workspace_id r));
    ("project_id", SText (col_project_id r));
    ("sequence_id", SInt (col_sequence_id r));
    ("title", SText (col_title r));
    ("description", SText (col_description r));
    ("type", SText (col_type r));
    ("status", SText (col_status r));
    ("priority", SText (col_priority r));
    ("assignees", SText (col_assignees r));
    ("labels", SText (col_labels r));
    ("cycle_id", null_or SText (col_cycle_id r));
    ("module_id", null_or SText (col_module_id r));
    ("created_by", null_or SText (col_created_by r));
    ("created_at", STime (col_created_at r));
    ("updated_at", STime (col_updated_at r));
    ("due_date", null_or STime (col_due_date r));
    ("estimate_points", null_or SInt (col_estimate_points r));
    ("link_count", SInt (col_link_count r));
    ("attachment_count", SInt (col_attachment_count r));
    ("comment_count", SInt (col_comment_count r)) ].

Fixpoint assoc (name : string) (l : list (string * sqlval)) : option sqlval :=
  match l with
  | [] => None
  | (k, v) :: l' => if decide (k = name) then Some v else assoc name l'
  end.

(** The column [name] of a row; [None] when the table has no such column. *)
Definition column (name : string) (r : issue_row) : option sqlval :=
  assoc name (columns r).

(** ** Observations on a sequence of calls *)

(** The sequence number of the issue stored under [issue_id]. *)
Definition sequence_id_of (issue_id : string) (st : store) : option Z :=
  match list_find (λ r, col_id r = issue_id) (issues st) with
  | Some (_, r) => Some (col_sequence_id r)
  | None => None
  end.

(** The sequence numbers that the calls of [create_issue] against
    [project_id] obtain, call after call: each is read off the row stored
    under the id the call returned. *)
Fixpoint assigned (project_id : string) (cs : list call) (st : store) : list (option Z) :=
  match cs with
  | [] => []
  | c :: cs' =>
      match c with
      | CreateIssue u now p t d ty pr a l =>
          match create_issue u now p t d ty pr a l st with
          | Ok (issue_id, st') =>
              (if decide (p = project_id) then [sequence_id_of issue_id st'] else [])
              ++ assigned project_id cs' st'
          | Raise _ => assigned project_id cs' st
          | Unmodelled => []
          end
      | _ =>
          match exec c st with
          | Ok st' => assigned project_id cs' st'
          | Raise _ => assigned project_id cs' st
          | Unmodelled => []
          end
      end
  end.

(** The number of comment rows that reference an issue. *)
Definition comment_rows (issue_id : string) (st : store) : Z :=
  sql_count (filter (λ r, com_issue_id r = issue_id) (comments st)).

(** No call of [create_issue] in [cs] that succeeds draws an id that rows
    of [comments] already reference when it is made.  A call that raises
    (its id is taken) stores nothing and is not looked at. *)
Fixpoint unreferenced_ids (cs : list call) (st : store) : bool :=
  match cs with
  | [] => true
  | c :: cs' =>
      match exec c st with
      | Ok st' =>
          match c with
          | CreateIssue u _ _ _ _ _ _ _ _ => bool_decide (u ∉ com_issue_id <$> comments st)
          | _ => true
          end
          && unreferenced_ids cs' st'
      | Raise _ => unreferenced_ids cs' st
      | Unmodelled => true
      end
  end.

(** ** The words of the specification, for comparison *)

(** [x] occurs in [s] as a substring. *)
Fixpoint prefix_of (x s : string) : bool :=
  match x, s with
  | EmptyString, _ => true
  | String c x', String d s' => bool_decide (c = d) && prefix_of x' s'
  | String _ _, EmptyString => false
  end.

Fixpoint substring_of (x s : string) : bool :=
  prefix_of x s ||
  match s with
  | EmptyString => false
  | String _ s' => substring_of x s'
  end.

(** The filter of [get] as the specification words it: assignee and label
    by substring containment in the serialized list. *)
Definition where_clause_spec (project_id : string) (filters : gmap string string)
    (r : issue_row) : bool :=
  bool_decide (col_project_id r = project_id)
  && match filters !! "status" with
     | Some v => bool_decide (col_status r = v)
     | None => true
     end
  && match filters !! "priority" with
     | Some v => bool_decide (col_priority r = v)
     | None => true
     end
  && match filters !! "assignee" with
     | Some v => substring_of v (col_assignees r)
     | None => true
     end
  && match filters !! "label" with
     | Some v => substring_of v (col_labels r)
     | None => true
     end
  && match filters !! "cycle_id" with
     | Some v => bool_decide (col_cycle_id r = Some v)
     | None => true
     end.

(** The percentage as the specification words it: [completed / total * 100]
    rounded down. *)
Definition progress_pct_spec (completed total : Z) : Z :=
  if 0 <? total then completed * 100 / total else 0.

(** The issues [get] returns as the specification words it. *)
Definition get_issues_spec (project_id : string) (filters : option (gmap string string))
    (st : store) : result (list Issue.t) :=
  let filters := default ∅ filters in
  let rows := filter (λ r, where_clause_spec project_id filters r = true) (issues st) in
  match mapM issue_of_row rows with
  | Some l => Ok l
  | None => Unmodelled
  end.

(** [x] occurs in [s] up to the case of ASCII letters. *)
Fixpoint string_lower (s : string) : string :=
  match s with
  | EmptyString => EmptyString
  | String c s' => String (Like.lower c) (string_lower s')
  end.

Definition contains_nocase (x s : string) : Prop :=
  ∃ pre mid post, s = pre +:+ mid +:+ post ∧ string_lower mid = string_lower x.

(** No [%], no [_] and no NUL in the string. *)
Fixpoint plain (x : string) : bool :=
  match x with
  | EmptyString => true
  | String c x' =>
      negb (N_of_ascii c =? 37)%N && negb (N_of_ascii c =? 95)%N
      && negb (N_of_ascii c =? 0)%N && plain x'
  end.

(** No NUL in the string. *)
Fixpoint no_nul (x : string) : bool :=
  match x with
  | EmptyString => true
  | String c x' => negb (N_of_ascii c =? 0)%N && no_nul x'
  end.

(** A text matches a pattern, in words: a [%] of the pattern stands for
    any run of characters, a [_] for any one character, and every other
    character for itself, ASCII letters whatever their case. *)
Inductive wild_match : string → string → Prop :=
| wild_end : wild_match EmptyString EmptyString
| wild_run (p run s : string) :
    wild_match p s → wild_match (String "%" p) (run +:+ s)
| wild_one (p : string) (d : ascii) (s : string) :
    wild_match p s → wild_match (String "_" p) (String d s)
| wild_same (c d : ascii) (p s : string) :
    c ≠ "%"%char → c ≠ "_"%char → Like.lower c = Like.lower d →
    wild_match p s → wild_match (String c p) (String d s).

(** The primary key of [issues]. *)
Definition pk_unique (st : store) : Prop := NoDup (col_id <$> issues st).

(** ** Invariants of the store *)

(** The sequence numbers of a project, in the order of the table. *)
Definition sequence_ids (project_id : string) (st : store) : list Z :=
  col_sequence_id <$> filter (in_project project_id) (issues st).

(** Every project numbers its issues 1, 2, 3, ... *)
Definition dense (st : store) : Prop :=
  ∀ project_id,
    sequence_ids project_id st
    = Z.of_nat <$> seq 1 (length (sequence_ids project_id st)).

(** The two list columns hold what [json.dumps] wrote. *)
Definition lists_encoded (st : store) : Prop :=
  Forall (λ r, (∃ a, col_assignees r = Json.dumps a)
               ∧ (∃ l, col_labels r = Json.dumps l)) (issues st).

(** Every counter of comments agrees with the rows of [comments]. *)
Definition counts_agree (st : store) : Prop :=
  Forall (λ r, col_comment_count r = comment_rows (col_id r) st) (issues st).

(** ** The effect of an update on one row *)

(** [r'] is [r] after [SET] with the keyword arguments that are in
    [allowed], at the instant [now]: [updated_at] is [now], a column the
    call names and [allowed] holds takes the value passed, and every other
    column is as it was. *)
Definition updated_row (allowed : gset string) (now : datetime)
    (kwargs : gmap string pyval) (r r' : issue_row) : Prop :=
  ∀ c, column c r'
       = if decide (c = "updated_at") then Some (STime now)
         else if decide (c ∈ allowed) then
           match kwargs !! c with
           | Some v => Some (stored v)
           | None => column c r
           end
         else column c r.

(** The store after [UPDATE issues SET ... WHERE id = ?] of [update_issue]
    has run: the rows of the id are rewritten, every other row and every
    other table is as it was. *)
Definition update_applied (now : datetime) (issue_id : string)
    (kwargs : gmap string pyval) (st st' : store) : Prop :=
  cycles st' = cycles st ∧ modules st' = modules st
  ∧ comments st' = comments st ∧ comments_seq st' = comments_seq st
  ∧ Forall2 (λ r r', if decide (col_id r = issue_id)
                     then updated_row allowed_fields now kwargs r r'
                     else r' = r)
      (issues st) (issues st').

(** ** The rows a query selects *)

(** The WHERE clause of [get_issues] in words: the project, and for every
    key the dictionary holds the condition on its column. *)
Definition selected (project_id : string) (filters : gmap string string)
    (r : issue_row) : Prop :=
  col_project_id r = project_id
  ∧ (∀ v, filters !! "status" = Some v → col_status r = v)
  ∧ (∀ v, filters !! "priority" = Some v → col_priority r = v)
  ∧ (∀ v, filters !! "assignee" = Some v → Like.matches v (col_assignees r) = true)
  ∧ (∀ v, filters !! "label" = Some v → Like.matches v (col_labels r) = true)
  ∧ (∀ v, filters !! "cycle_id" = Some v → col_cycle_id r = Some v).

(** ** What a call does to the tables *)

(** The value [dump_lists] leaves under a key. *)
Definition dumped (k : string) (v : pyval) : pyval :=
  match v with
  | PList l => if decide (k = "assignees" ∨ k = "labels") then PStr (Json.dumps l) else v
  | _ => v
  end.

(** The columns of [issues]. *)
Definition column_names : list string :=
  ["id"; "workspace_id"; "project_id"; "sequence_id"; "title"; "description";
   "type"; "status"; "priority"; "assignees"; "labels"; "cycle_id";
   "module_id"; "created_by"; "created_at"; "updated_at"; "due_date";
   "estimate_points"; "link_count"; "attachment_count"; "comment_count"].

(** The three shapes of a call that returns, seen from [issues] and
    [comments]: one row inserted under a new id, rows rewritten in place by
    a SET clause, or one comment inserted and the counters of its issue
    raised. *)
Inductive effect (c : call) (st st' : store) : Prop :=
| effect_insert (u : string) (now : datetime) (p t d ty pr : string)
    (a l : option (list string)) :
    c = CreateIssue u now p t d ty pr a l →
    u ∉ col_id <$> issues st →
    issues st' = issues st ++
      [inserted_row u "default" p (or0 (max_sequence_id p (issues st)) + 1)
         t d ty pr (default [] a) (default [] l) now] →
    comments st' = comments st →
    effect c st st'
| effect_update (U : gmap string pyval) (w : issue_row → bool) :
    (∀ u now p t d ty pr a l, c ≠ CreateIssue u now p t d ty pr a l) →
    (∀ k, k ∈ ["assignees"; "labels"] →
          U !! k = None ∨ ∃ l, U !! k = Some (PStr (Json.dumps l))) →
    issues st' = (λ r, if w r then set_columns U r else r) <$> issues st →
    comments st' = comments st →
    effect c st st'
| effect_comment (now : datetime) (i u b : string) :
    c = Comment now i u b →
    issues st' =
      (λ r, if decide (col_id r = i) then bump_comment_count r else r) <$> issues st →
    comments st' = comments st ++
      [{| com_id := next_comment_id st; com_issue_id := i; com_user := u;
          com_body := b; com_created_at := now |}] →
    effect c st st'.

(** ** Concrete scenarios *)

(** A comment on an id that no issue has yet, and then an issue that
    [uuid4] happens to give that id. *)
Definition orphan_then_create : list call :=
  [ Comment 1 "deadbeef" "alice" "x";
    CreateIssue "deadbeef" 2 "p" "T" "" "task" "medium" None None ].

(** The id of the [n]-th issue of a scenario. *)
Fixpoint issue_key (n : nat) : string :=
  match n with
  | O => "k"
  | S n' => String "x" (issue_key n')
  end.

(** [total] issues of project [p] in the cycle [c], the first [done] of
    them with status [done]. *)
Definition sprint (total done : nat) : list call :=
  ((λ n, CreateIssue (issue_key n) (Z.of_nat n) "p" "T" "" "task" "medium" None None)
     <$> seq 0 total)
  ++ [CreateCycle "c" "p" "Sprint" 0 100]
  ++ ((λ n, AddToCycle (issue_key n) "c") <$> seq 0 total)
  ++ ((λ n, UpdateIssue 100 (issue_key n) {[ "status" := PStr "done" ]})
        <$> seq 0 done).

(** The store after the calls [cs] on a new database. *)
Definition store_after (cs : list call) : store := default init_db (run cs init_db).

(** Two issues of one project and one of another. *)
Definition two_projects : list call :=
  [ CreateIssue "a1" 10 "proj-1" "A" "" "task" "medium" None None;
    CreateIssue "a2" 11 "proj-1" "B" "" "task" "medium" None None;
    CreateIssue "a3" 12 "proj-2" "C" "" "task" "medium" None None ].

(** One issue assigned to alice and one to bob. *)
Definition alice_and_bob : list call :=
  [ CreateIssue "a1" 10 "proj-1" "A" "" "task" "medium" (Some ["alice"]) (Some ["backend"]);
    CreateIssue "a2" 11 "proj-1" "B" "" "task" "medium" (Some ["bob"]) (Some ["frontend"]) ].

(** Two comments on one issue. *)
Definition two_comments : list call :=
  [ CreateIssue "a1" 10 "proj-1" "Bug A" "" "task" "medium" None None;
    Comment 20 "a1" "alice" "First";
    Comment 21 "a1" "bob" "Second" ].

(** Two comments on one issue, the clock set back between them. *)
Definition clock_set_back : list call :=
  [ CreateIssue "a1" 10 "proj-1" "Bug A" "" "task" "medium" None None;
    Comment 21 "a1" "alice" "First";
    Comment 20 "a1" "bob" "Second" ].

(** Two comments on one issue, and then a creation that draws the id of
    that issue again: it raises and stores nothing. *)
Definition taken_id_drawn : list call :=
  two_comments ++ [ CreateIssue "a1" 30 "proj-1" "Bug B" "" "task" "medium" None None ].

(** Three issues of one project. *)
Definition three_issues : list call :=
  [ CreateIssue "a1" 10 "proj-1" "Issue 0" "" "task" "medium" None None;
    CreateIssue "a2" 11 "proj-1" "Issue 1" "" "task" "medium" None None;
    CreateIssue "a3" 12 "proj-1" "Issue 2" "" "task" "medium" None None ].

(** The ids of the issues a query returns. *)
Definition returned_ids (r : result (list Issue.t)) : result (list string) :=
  match r with
  | Ok l => Ok (Issue.id <$> l)
  | Raise e => Raise e
  | Unmodelled => Unmodelled
  end.

(** ** get_module_progress and get_project_analytics *)

Definition in_module (module_id : string) (r : issue_row) : Prop :=
  col_module_id r = Some module_id.

Global Instance in_module_dec module_id r : Decision (in_module module_id r).
Proof. unfold in_module. apply _. Defined.

(** The order of BINARY text: that of [memcmp] on the UTF-8 bytes, which
    is the order of the code points. *)
Definition text_le (a b : string) : Prop := String.leb a b = true.

Global Instance text_le_dec a b : Decision (text_le a b).
Proof. unfold text_le. apply _. Defined.

(** [SELECT e, COUNT( * ) ... GROUP BY e] over the selected rows: one row
    for each value that [e] takes, with the number of rows that have it,
    in ascending order of the value (the rows come out of the sorter that
    forms the groups). *)
Definition sql_group_count {A} (e : A → string) (rows : list A) : list (string * Z) :=
  (λ v, (v, sql_count (filter (λ r, e r = v) rows)))
    <$> merge_sort text_le (remove_dups (e <$> rows)).

(** The dictionary that [for k, n in c.fetchall(): d[k] = n] and
    [{k: n for k, n in c.fetchall()}] build. *)
Definition dict_of_rows (rows : list (string * Z)) : gmap string Z :=
  foldl (λ d row, <[row.1 := row.2]> d) ∅ rows.

Module ModuleProgress.
Record t : Type := mk {
  total : Z;
  by_status : gmap string Z;
  completion_pct : Z
}.
End ModuleProgress.

Definition get_module_progress (module_id : string) (st : store) :
    result ModuleProgress.t :=
  let rows := filter (in_module module_id) (issues st) in
  let total := sql_count rows in
  let by_status := dict_of_rows (sql_group_count col_status rows) in
  let completed := default 0 (by_status !! "done") in
  if 2 ^ 53 <=? total then Unmodelled
  else
    let pct :=
      if 0 <? total then py_int (ratio_times_100 completed total)
      else Some 0 in
    match pct with
    | None => Raise OverflowError
    | Some p =>
        Ok {| ModuleProgress.total := total;
              ModuleProgress.by_status := by_status;
              ModuleProgress.completion_pct := p |}
    end.

(** A Python number: [velocity] is an [int] or a [float]. *)
Inductive pynum : Type :=
| PyInt (z : Z)
| PyFloat (x : float).

(** The sum that AVG accumulates, where it is exact: every partial sum
    within [0, 2^53), which a float holds as it is. *)
Fixpoint exact_sum (acc : Z) (l : list Z) : option Z :=
  match l with
  | [] => Some acc
  | z :: l' =>
      if (0 <=? acc + z) && (acc + z <? 2 ^ 53) then exact_sum (acc + z) l'
      else None
  end.

(** [AVG(e)] over the selected rows: NULL when there is none, else the
    sum over the count, both as floats.  [None] where the embedding does
    not follow the sum. *)
Definition sql_avg (l : list Z) : option (option float) :=
  match l with
  | [] => Some None
  | _ =>
      if 2 ^ 53 <=? sql_count l then None
      else
        s ← exact_sum 0 l;
        Some (Some (PrimFloat.div (float_of_Z s) (float_of_Z (sql_count l))))
  end.

(** [x or 0] on the result of AVG: a float is false when it equals zero. *)
Definition float_or0 (o : option float) : pynum :=
  match o with
  | Some x => if PrimFloat.eqb x PrimFloat.zero then PyInt 0 else PyFloat x
  | None => PyInt 0
  end.

Module ProjectAnalytics.
Record t : Type := mk {
  velocity : pynum;
  priority_distribution : gmap string Z;
  status_distribution : gmap string Z
}.
End ProjectAnalytics.

Definition get_project_analytics (project_id : string) (st : store) :
    result ProjectAnalytics.t :=
  let of_project := filter (λ c, cyc_project_id c = project_id) (cycles st) in
  match sql_avg (cyc_completed_count <$> of_project) with
  | None => Unmodelled
  | Some avg =>
      let velocity := float_or0 avg in
      let rows := filter (in_project project_id) (issues st) in
      let priority_dist := dict_of_rows (sql_group_count col_priority rows) in
      let status_dist := dict_of_rows (sql_group_count col_status rows) in
      Ok {| ProjectAnalytics.velocity := velocity;
            ProjectAnalytics.priority_distribution := priority_dist;
            ProjectAnalytics.status_distribution := status_dist |}
  end.

(** ** Rows as the INSERT statements leave them *)

(** A cycle in the columns that [create_cycle] does not name, and a module
    in those that [create_module] does not name: the DEFAULT of the column,
    NULL where it declares none. *)
Definition new_cycle (c : cycle_row) : Prop :=
  cyc_status c = "planned" ∧ cyc_issues_count c = 0
  ∧ cyc_completed_count c = 0 ∧ cyc_progress c = 0.

Definition new_module (m : module_row) : Prop :=
  mod_status m = "planned" ∧ mod_lead m = None ∧ mod_members m = None
  ∧ mod_issues_count m = 0.

(** The row a call of [create_cycle] inserts, and the row a call of
    [create_module] inserts; no other call has one. *)
Definition cycle_of_call (c : call) : option cycle_row :=
  match c with
  | CreateCycle u p n s e =>
      Some {| cyc_id := u; cyc_project_id := p; cyc_name := n;
              cyc_status := "planned"; cyc_start_date := s; cyc_end_date := e;
              cyc_issues_count := 0; cyc_completed_count := 0; cyc_progress := 0 |}
  | _ => None
  end.

Definition module_of_call (c : call) : option module_row :=
  match c with
  | CreateModule u p n d =>
      Some {| mod_id := u; mod_project_id := p; mod_name := n;
              mod_description := d; mod_status := "planned"; mod_lead := None;
              mod_members := None; mod_issues_count := 0 |}
  | _ => None
  end.

(** ** What stays of an issue *)

(** [r'] is the row [r] at a later time: the columns that no UPDATE of
    the tracker names are as they were, and the counter of comments is no
    smaller. *)
Definition same_issue (r r' : issue_row) : Prop :=
  col_id r' = col_id r ∧ col_workspace_id r' = col_workspace_id r
  ∧ col_project_id r' = col_project_id r
  ∧ col_sequence_id r' = col_sequence_id r
  ∧ col_type r' = col_type r ∧ col_created_by r' = col_created_by r
  ∧ col_created_at r' = col_created_at r
  ∧ col_link_count r' = col_link_count r
  ∧ col_attachment_count r' = col_attachment_count r
  ∧ col_comment_count r ≤ col_comment_count r'.

(** The columns that [create_issue] fills with a constant or leaves to the
    schema and that nothing writes afterwards. *)
Definition never_set (r : issue_row) : Prop :=
  col_workspace_id r = "default" ∧ col_created_by r = None
  ∧ col_link_count r = 0 ∧ col_attachment_count r = 0.

(** ** Words for the filters of get_issues *)

(** The keys that [get_issues] looks up in the dictionary of filters. *)
Definition filter_keys : list string :=
  ["status"; "priority"; "assignee"; "label"; "cycle_id"].

(** A string that [json.dumps] writes between the quotes as it is:
    printable ASCII without the quote and the backslash. *)
Fixpoint unescaped (x : string) : bool :=
  match x with
  | EmptyString => true
  | String c x' =>
      let n := N_of_ascii c in
      (32 <=? n)%N && (n <=? 126)%N && negb (n =? 34)%N && negb (n =? 92)%N
      && unescaped x'
  end.

(** ** An issue after an update, as [get_issues] shows it *)



(** ** One update after the other *)

(** [update_issue(i, **kwargs)] for every [i] of the list in turn, all at
    the instant [now]; the first call that does not return ends the run. *)
Fixpoint update_each (now : datetime) (issue_ids : list string)
    (kwargs : gmap string pyval) (st : store) : result store :=
  match issue_ids with
  | [] => Ok st
  | i :: ids =>
      match update_issue now i kwargs st with
      | Ok (_, st') => update_each now ids kwargs st'
      | Raise e => Raise e
      | Unmodelled => Unmodelled
      end
  end.

(** ** Words for the dictionaries of counts *)

(** [sum(d.values())] *)
Definition sum_values (d : gmap string Z) : Z :=
  map_fold (λ _ n acc, n + acc) 0 d.

(** The number of rows in which [e] is [v]. *)
Definition count_where {A} (e : A → string) (v : string) (rows : list A) : Z :=
  sql_count (filter (λ r, e r = v) rows).

(** ** The percentage, checked on a range *)

(** What [int(c / t * 100)] has to do with the exact percentage: it is the
    exact value rounded down or one less, not below 0, and it is 100 only
    for [c = t]. *)
Definition percent_ok (c t : Z) : bool :=
  match py_int (ratio_times_100 c t) with
  | Some p =>
      (progress_pct_spec c t - 1 <=? p) && (p <=? progress_pct_spec c t)
      && (0 <=? p) && Bool.eqb (p =? 100) (c =? t)
  | None => false
  end.

(** [percent_ok] for every [0 <= c <= t] with [1 <= t <= n]. *)
Definition percent_ok_upto (n : nat) : bool :=
  forallb (λ t, forallb (λ c, percent_ok (Z.of_nat c) (Z.of_nat t)) (seq 0 (S t)))
    (seq 1 n).

(** ** The command line

    The body of [if __name__ == "__main__"] after [parse_args]: the
    parsed arguments are a value of [Cli.args], and what the three
    commands print is the list of the lines, one for each [print]. *)

(** [str(n)] of an [int]. *)
Definition py_str_int (n : Z) : string := NilZero.string_of_int (Z.to_int n).

(** [repr] of a [str] over the code points below 256: single quotes unless
    the string holds one and no double quote; backslash before the quote
    and the backslash; [\t], [\n], [\r]; [\xhh] for what is not
    printable. *)
Fixpoint has_char (c : ascii) (s : string) : bool :=
  match s with
  | EmptyString => false
  | String d s' => Ascii.eqb c d || has_char c s'
  end.

Definition repr_quote (s : string) : ascii :=
  if has_char "'" s && negb (has_char dquote s) then dquote else "'"%char.

Definition printable (n : N) : bool :=
  ((32 <=? n) && (n <? 127) || (161 <=? n) && negb (n =? 173))%N.

Definition repr_char (quote c : ascii) : string :=
  let n := N_of_ascii c in
  if Ascii.eqb c quote || (n =? 92)%N then String backslash (str1 c)
  else if (n =? 9)%N then String backslash "t"
  else if (n =? 10)%N then String backslash "n"
  else if (n =? 13)%N then String backslash "r"
  else if printable n then str1 c
  else String backslash
         (String "x" (String (Json.hexdigit (n / 16)) (str1 (Json.hexdigit (n mod 16))))).

Fixpoint repr_chars (quote : ascii) (s : string) : string :=
  match s with
  | EmptyString => EmptyString
  | String c s' => repr_char quote c +:+ repr_chars quote s'
  end.

Definition py_repr (s : string) : string :=
  let quote := repr_quote s in
  String quote (repr_chars quote s +:+ str1 quote).

(** [str] of a dictionary of counts.  A dictionary lists its keys in the
    order of their insertion; the ones printed here are built from the
    rows of a GROUP BY, which come in ascending order of the key. *)
Definition py_str_dict (d : gmap string Z) : string :=
  "{" +:+ join ", " ((λ kv, py_repr kv.1 +:+ ": " +:+ py_str_int kv.2)
                       <$> merge_sort (λ a b, text_le a.1 b.1) (map_to_list d))
  +:+ "}".

(** [str] of the velocity: the digits of an [int]; the text of a float is
    not followed. *)
Definition py_str_num (x : pynum) : option string :=
  match x with
  | PyInt z => Some (py_str_int z)
  | PyFloat _ => None
  end.

Module Cli.

(** The namespace that [parse_args] returns, by the command given. *)
Inductive args : Type :=
| Issues (project : string) (status : option string)
| Create (project_id type title priority : string)
| Analytics (project_id : string)
| NoCommand.

(** The line [print(f"[{issue.sequence_id}] {issue.title} ({issue.status})")]. *)
Definition issue_line (issue : Issue.t) : string :=
  "[" +:+ py_str_int (Issue.sequence_id issue) +:+ "] " +:+ Issue.title issue
  +:+ " (" +:+ Issue.status issue +:+ ")".

(** The lines printed and the store afterwards.  An exception of the
    tracker is not caught. *)
Definition main (uuid8 : string) (now : datetime) (a : args) (st : store) :
    result (list string * store) :=
  match a with
  | Issues project status =>
      let filters : gmap string string :=
        match status with
        | Some s => if decide (s = EmptyString) then ∅ else {[ "status" := s ]}
        | None => ∅
        end in
      match get_issues project (Some filters) st with
      | Ok issues => Ok (issue_line <$> issues, st)
      | Raise e => Raise e
      | Unmodelled => Unmodelled
      end
  | Create project_id type title priority =>
      match create_issue uuid8 now project_id title EmptyString type priority
              None None st with
      | Ok (issue_id, st') => Ok (["Issue created: " +:+ issue_id], st')
      | Raise e => Raise e
      | Unmodelled => Unmodelled
      end
  | Analytics project_id =>
      match get_project_analytics project_id st with
      | Ok analytics =>
          match py_str_num (ProjectAnalytics.velocity analytics) with
          | Some v =>
              Ok (["Velocity: " +:+ v;
                   "Status: "
                   +:+ py_str_dict (ProjectAnalytics.status_distribution analytics)],
                  st)
          | None => Unmodelled
          end
      | Raise e => Raise e
      | Unmodelled => Unmodelled
      end
  | NoCommand => Ok ([], st)
  end.

End Cli.

(** ** More scenarios *)

(** Two issues in a module, the first of them done. *)
Definition module_work : list call :=
  [ CreateIssue "a1" 10 "proj-1" "A" "" "task" "medium" None None;
    CreateIssue "a2" 11 "proj-1" "B" "" "task" "high" None None;
    CreateModule "m" "proj-1" "Parser" "";
    AddToModule "a1" "m";
    AddToModule "a2" "m";
    UpdateIssue 20 "a1" {[ "status" := PStr "done" ]} ].

(** A fourth issue after [three_issues], and an update of the first. *)
Definition fourth_issue : call :=
  CreateIssue "a4" 13 "proj-1" "Issue 3" "details" "bug" "high" (Some ["alice"]) None.

Definition first_done : call :=
  UpdateIssue 20 "a1" {[ "status" := PStr "done"; "assignees" := PList ["bob"] ]}.

(** * Theorems *)

(** ** Text *)

Lemma sapp_nil_l (s : string) : EmptyString +:+ s = s.
Proof. reflexivity. Qed.

Lemma sapp_cons (c : ascii) (s t : string) : String c s +:+ t = String c (s +:+ t).
Proof. reflexivity. Qed.

Lemma sapp_assoc (s t u : string) : (s +:+ t) +:+ u = s +:+ (t +:+ u).
Proof. induction s as [|c s IH]; [done|]. by rewrite !sapp_cons, IH. Qed.

Lemma sapp_nil_r (s : string) : s +:+ EmptyString = s.
Proof. induction s as [|c s IH]; [done|]. by rewrite sapp_cons, IH. Qed.

Module JsonFacts.
Import Json.

Lemma scanstring_escape_char (c : ascii) (rest : string) :
  scanstring (escape_char c +:+ rest) = cons_char c (scanstring rest).
Proof. destruct c as [[] [] [] [] [] [] [] []]; reflexivity. Qed.

Lemma scanstring_escape (s rest : string) :
  scanstring (escape s +:+ String dquote rest) = Some (s, rest).
Proof.
  induction s as [|c s IH]; [done|].
  cbn [escape]. rewrite sapp_assoc, scanstring_escape_char, IH. done.
Qed.

Lemma encode_unfold (s rest : string) :
  encode_basestring_ascii s +:+ rest = String dquote (escape s +:+ String dquote rest).
Proof. unfold encode_basestring_ascii, str1. by rewrite sapp_cons, sapp_assoc. Qed.

Lemma skip_ws_encode (s rest : string) :
  skip_ws (encode_basestring_ascii s +:+ rest) = encode_basestring_ascii s +:+ rest.
Proof. by rewrite encode_unfold. Qed.

Lemma join_cons2 (x y : string) (l : list string) :
  join ", " (x :: y :: l) = x +:+ ", " +:+ join ", " (y :: l).
Proof. reflexivity. Qed.

Lemma items_join (l : list string) (x : string) (rest : string) (fuel : nat) :
  (length l < fuel)%nat →
  JSONArray_items fuel (join ", " (encode_basestring_ascii <$> (x :: l)) +:+ String "]" rest)
  = Some (x :: l, rest).
Proof.
  revert x fuel. induction l as [|y l IH]; intros x fuel Hf;
    (destruct fuel as [|fuel]; [simpl in Hf; lia|]).
  - cbn [fmap list_fmap join]. rewrite encode_unfold.
    cbn [JSONArray_items]. rewrite scanstring_escape. reflexivity.
  - rewrite !fmap_cons, join_cons2, <- !fmap_cons, !sapp_assoc, encode_unfold.
    cbn [JSONArray_items].
    replace (N_of_ascii dquote =? 34)%N with true by reflexivity.
    rewrite scanstring_escape.
    change (", " +:+ ?t) with (String "," (String " " t)).
    cbn [skip_ws]. 
    replace (is_ws ",") with false by reflexivity.
    replace (is_ws " ") with true by reflexivity.
    cbn iota.
    replace (N_of_ascii "," =? 93)%N with false by reflexivity.
    replace (N_of_ascii "," =? 44)%N with true by reflexivity.
    cbn iota.
    assert (Hs : ∀ t, skip_ws (join ", " (encode_basestring_ascii <$> y :: l) +:+ t)
                      = join ", " (encode_basestring_ascii <$> y :: l) +:+ t).
    { intros t. destruct l as [|z l'].
      - cbn [fmap list_fmap join]. apply skip_ws_encode.
      - rewrite !fmap_cons, join_cons2, !sapp_assoc. apply skip_ws_encode. }
    change (skip_ws (String " " ?t)) with (skip_ws t).
    rewrite Hs, IH by (simpl in *; lia). reflexivity.
Qed.

Lemma slength_app (s t : string) :
  String.length (s +:+ t) = (String.length s + String.length t)%nat.
Proof. induction s as [|c s IH]; [done|]. rewrite sapp_cons. simpl. by rewrite IH. Qed.

Lemma length_encode (s : string) :
  (2 ≤ String.length (encode_basestring_ascii s))%nat.
Proof.
  unfold encode_basestring_ascii. cbn [String.length].
  rewrite slength_app. simpl. lia.
Qed.

Lemma length_join (l : list string) :
  (length l ≤ String.length (join ", " (encode_basestring_ascii <$> l)))%nat.
Proof.
  induction l as [|x l IH]; [done|].
  destruct l as [|y l].
  - cbn [fmap list_fmap join length]. pose proof (length_encode x). lia.
  - rewrite !fmap_cons, join_cons2, <- !fmap_cons, !slength_app.
    pose proof (length_encode x). simpl in *. lia.
Qed.

Lemma loads_dumps (l : list string) : loads (dumps l) = Some l.
Proof.
  unfold dumps. change ("[" +:+ ?t) with (String "[" t).
  unfold loads. cbn [skip_ws]. replace (is_ws "[") with false by reflexivity.
  cbn iota. replace (N_of_ascii "[" =? 91)%N with true by reflexivity. cbn iota.
  destruct l as [|x l]; [reflexivity|].
  unfold JSONArray.
  assert (Hs : ∀ t, skip_ws (join ", " (encode_basestring_ascii <$> x :: l) +:+ t)
                    = join ", " (encode_basestring_ascii <$> x :: l) +:+ t).
  { intros t. destruct l as [|z l'].
    - cbn [fmap list_fmap join]. apply skip_ws_encode.
    - rewrite !fmap_cons, join_cons2, !sapp_assoc. apply skip_ws_encode. }
  rewrite Hs.
  destruct (join ", " (encode_basestring_ascii <$> x :: l) +:+ "]") as [|c s1] eqn:E.
  { pose proof (length_join (x :: l)) as Hl. apply (f_equal String.length) in E.
    rewrite slength_app in E. simpl in *. lia. }
  assert (Hc : (N_of_ascii c =? 93)%N = false).
  { destruct l as [|z l']; [cbn [fmap list_fmap join] in E|rewrite !fmap_cons, join_cons2, !sapp_assoc in E];
    rewrite encode_unfold in E; by inversion E. }
  rewrite Hc, <- E.
  change "]" with (String "]" EmptyString).
  rewrite items_join; [reflexivity|].
  pose proof (length_join (x :: l)) as Hl. rewrite slength_app. simpl in *. lia.
Qed.

End JsonFacts.

(** ** Tables under the three kinds of statement *)

Lemma with_issues_same (st : store) : with_issues st (issues st) = st.
Proof. by destruct st. Qed.

Lemma foldr_max_seq (n a : nat) (b : Z) :
  foldr Z.max b (Z.of_nat <$> seq a n)
  = if decide (n = 0%nat) then b else Z.max b (Z.of_nat (a + n - 1)).
Proof.
  revert a. induction n as [|n IH]; intros a; [done|].
  cbn [seq fmap list_fmap foldr]. rewrite IH.
  destruct (decide (n = 0%nat)); case_decide; lia.
Qed.

Lemma or0_max_seq (n : nat) :
  or0 (sql_max (Z.of_nat <$> seq 1 n)) = Z.of_nat n.
Proof.
  destruct n as [|n]; [done|].
  cbn [seq fmap list_fmap sql_max or0]. rewrite foldr_max_seq.
  repeat case_decide; lia.
Qed.

Lemma sequence_ids_fmap (f : issue_row → issue_row) (p : string) (tbl : list issue_row) :
  (∀ r, col_project_id (f r) = col_project_id r) →
  (∀ r, col_sequence_id (f r) = col_sequence_id r) →
  col_sequence_id <$> filter (in_project p) (f <$> tbl)
  = col_sequence_id <$> filter (in_project p) tbl.
Proof.
  intros Hp Hs. induction tbl as [|r tbl IH]; [done|].
  rewrite fmap_cons. destruct (decide (in_project p r)) as [Hr|Hr].
  - rewrite !filter_cons_True, !fmap_cons, Hs, IH; [done..|].
    unfold in_project in *. by rewrite Hp.
  - rewrite !filter_cons_False; [done..|].
    unfold in_project in *. by rewrite Hp.
Qed.

Lemma set_columns_keeps (U : gmap string pyval) (w : issue_row → bool) (r : issue_row) :
  let r' := if w r then set_columns U r else r in
  col_id r' = col_id r ∧ col_project_id r' = col_project_id r
  ∧ col_sequence_id r' = col_sequence_id r
  ∧ col_comment_count r' = col_comment_count r.
Proof. simpl. by destruct (w r). Qed.

Lemma effect_same (c : call) (st : store) :
  (∀ u now p t d ty pr a l, c ≠ CreateIssue u now p t d ty pr a l) →
  effect c st st.
Proof.
  intros Hc.
  apply (effect_update _ _ _ ∅ (λ _, false)); [done| |by rewrite list_fmap_id|done].
  intros k _. left. apply lookup_empty.
Qed.

Lemma dump_field_lookup (f k : string) (U : gmap string pyval) :
  dump_field f U !! k
  = if decide (f = k)
    then match U !! k with Some (PList l) => Some (PStr (Json.dumps l)) | o => o end
    else U !! k.
Proof.
  unfold dump_field. case_decide as E.
  - subst k. destruct (U !! f) as [[]|] eqn:H; rewrite ?H; try done.
    by rewrite lookup_insert_eq.
  - destruct (U !! f) as [[]|] eqn:H; try done. by rewrite lookup_insert_ne.
Qed.

Lemma dump_lists_lookup (k : string) (U : gmap string pyval) :
  dump_lists U !! k = dumped k <$> U !! k.
Proof.
  unfold dump_lists. rewrite !dump_field_lookup.
  destruct (decide ("labels" = k)) as [<-|]; [|destruct (decide ("assignees" = k)) as [<-|]].
  - destruct (decide ("assignees" = "labels")); [done|].
    by destruct (U !! "labels") as [[]|].
  - by destruct (U !! "assignees") as [[]|].
  - destruct (U !! k) as [[]|]; try done. unfold dumped. simpl.
    case_decide; [naive_solver|done].
Qed.

Lemma well_typed_lookup (U : gmap string pyval) (k : string) (v : pyval) :
  well_typed U = true → U !! k = Some v → field_ok k v = true.
Proof.
  unfold well_typed. intros H%bool_decide_eq_true Hk. by apply (H k v).
Qed.

Lemma field_ok_list (k : string) (v : pyval) :
  k ∈ ["assignees"; "labels"] → field_ok k v = true → ∃ l, v = PList l.
Proof.
  intros Hk. assert (k = "assignees" ∨ k = "labels") as [-> | ->] by set_solver;
    unfold field_ok; (repeat case_decide; try set_solver); destruct v; try done; eauto.
Qed.

Lemma updates_dumped (now : datetime) (K : gmap string pyval) (k : string) :
  well_typed K = true → k ∈ ["assignees"; "labels"] →
  let U := <["updated_at" := PDatetime now]> (dump_lists K) in
  U !! k = None ∨ ∃ l, U !! k = Some (PStr (Json.dumps l)).
Proof.
  intros HK Hk U. subst U.
  rewrite lookup_insert_ne by set_solver. rewrite dump_lists_lookup.
  destruct (K !! k) as [v|] eqn:Hv; [right|by left].
  destruct (field_ok_list k v Hk (well_typed_lookup _ _ _ HK Hv)) as [l ->].
  exists l. unfold dumped. simpl. case_decide; [done|set_solver].
Qed.

Lemma singleton_dumped (f : string) (v : pyval) (k : string) :
  f ∉ ["assignees"; "labels"] → k ∈ ["assignees"; "labels"] →
  ({[ f := v ]} : gmap string pyval) !! k = None
  ∨ ∃ l, ({[ f := v ]} : gmap string pyval) !! k = Some (PStr (Json.dumps l)).
Proof. intros Hf Hk. left. apply lookup_singleton_ne. set_solver. Qed.

Lemma exec_effect (c : call) (st st' : store) :
  exec c st = Ok st' → effect c st st'.
Proof.
  destruct c; cbn [exec].
  - unfold create_issue. case_decide; [done|]. cbn [store_of].
    intros [= <-]. by eapply effect_insert.
  - unfold update_issue. case_decide.
    { intros [= <-]. by apply effect_same. }
    destruct (well_typed _) eqn:Ht; [|done]. cbn [negb].
    destruct (bindable _); [|done]. cbn [negb sql_update store_of].
    intros [= <-]. eapply effect_update; [done| |reflexivity|done].
    intros k Hk. by apply updates_dumped.
  - unfold bulk_update. case_decide.
    { intros [= <-]. by apply effect_same. }
    case_decide.
    { intros [= <-]. by apply effect_same. }
    destruct (well_typed _) eqn:Ht; [|done]. cbn [negb].
    destruct (bindable _); [|done]. cbn [negb sql_update store_of].
    intros [= <-]. eapply effect_update; [done| |reflexivity|done].
    intros k Hk. by apply updates_dumped.
  - unfold create_cycle. case_decide; [done|]. cbn [store_of].
    intros [= <-]. apply (effect_update _ _ _ ∅ (λ _, false)); cbn; [done| |by rewrite list_fmap_id|done].
    intros k _. left. apply lookup_empty.
  - unfold add_to_cycle. cbn [sql_update store_of]. intros [= <-].
    eapply effect_update; [done| |reflexivity|done].
    intros k Hk. apply singleton_dumped; [set_solver|done].
  - unfold create_module. case_decide; [done|]. cbn [store_of].
    intros [= <-]. apply (effect_update _ _ _ ∅ (λ _, false)); cbn; [done| |by rewrite list_fmap_id|done].
    intros k _. left. apply lookup_empty.
  - unfold add_to_module. cbn [sql_update store_of]. intros [= <-].
    eapply effect_update; [done| |reflexivity|done].
    intros k Hk. apply singleton_dumped; [set_solver|done].
  - unfold comment. cbn [store_of]. intros [= <-].
    by eapply effect_comment.
Qed.

(** ** Sequence numbers *)

Lemma bump_keeps (r : issue_row) :
  col_id (bump_comment_count r) = col_id r
  ∧ col_project_id (bump_comment_count r) = col_project_id r
  ∧ col_sequence_id (bump_comment_count r) = col_sequence_id r.
Proof. done. Qed.

Lemma effect_sequence_ids (c : call) (st st' : store) (p : string) :
  effect c st st' →
  (sequence_ids p st' = sequence_ids p st
   ∧ ∀ u now t d ty pr a l, c ≠ CreateIssue u now p t d ty pr a l)
  ∨ ∃ u now t d ty pr a l row,
      c = CreateIssue u now p t d ty pr a l
      ∧ (u ∉ col_id <$> issues st)
      ∧ issues st' = issues st ++ [row] ∧ col_id row = u
      ∧ col_sequence_id row = or0 (sql_max (sequence_ids p st)) + 1
      ∧ sequence_ids p st' = sequence_ids p st ++ [col_sequence_id row].
Proof.
  unfold sequence_ids.
  intros [u now q t d ty pr a l -> Hu Hi Hc|U w Hn HU Hi Hc|now i u b -> Hi Hc].
  - rewrite Hi, filter_app, fmap_app.
    destruct (decide (q = p)) as [->|Hq].
    + right. do 9 eexists. split; [done|]. split; [done|]. split; [done|].
      split; [done|]. split; [done|].
      rewrite filter_cons_True by done. by rewrite filter_nil.
    + left. rewrite filter_cons_False by done. rewrite filter_nil, app_nil_r.
      split; [done|]. congruence.
  - left. split; [|done]. rewrite Hi. apply sequence_ids_fmap; intros r; by destruct (w r).
  - left. split; [|done]. rewrite Hi. apply sequence_ids_fmap; intros r; by case_decide.
Qed.

Lemma dense_init : dense init_db.
Proof. by intros p. Qed.

Lemma dense_effect (c : call) (st st' : store) : dense st → effect c st st' → dense st'.
Proof.
  intros Hd He p.
  destruct (effect_sequence_ids c st st' p He)
    as [[-> _]|(u & now & t & d & ty & pr & a & l & row & _ & _ & _ & _ & Hs & ->)].
  - apply Hd.
  - rewrite Hs, length_app. cbn [length]. rewrite Nat.add_1_r, seq_S, fmap_app.
    rewrite <- Hd. f_equal. cbn. f_equal.
    rewrite (Hd p) at 1. rewrite or0_max_seq. lia.
Qed.

Lemma dense_exec (c : call) (st st' : store) : dense st → exec c st = Ok st' → dense st'.
Proof. eauto using dense_effect, exec_effect. Qed.

Lemma dense_run (cs : list call) (st st' : store) :
  dense st → run cs st = Some st' → dense st'.
Proof.
  revert st. induction cs as [|c cs IH]; intros st Hd; cbn [run].
  - by intros [= <-].
  - destruct (exec c st) as [st1|e|] eqn:E; [|by apply IH|done].
    apply IH. by eapply dense_exec.
Qed.

Lemma sequence_id_of_inserted (u : string) (st st' : store) (row : issue_row) :
  u ∉ col_id <$> issues st → issues st' = issues st ++ [row] → col_id row = u →
  sequence_id_of u st' = Some (col_sequence_id row).
Proof.
  intros Hu Hi Hr. unfold sequence_id_of. rewrite Hi.
  rewrite list_find_app_r.
  - cbn. by rewrite decide_True.
  - apply list_find_None, Forall_forall. intros r Hin Heq.
    apply Hu. rewrite <- Heq. by apply list_elem_of_fmap_2.
Qed.

(** [assigned] in terms of [exec]. *)
Lemma assigned_cons (p : string) (c : call) (cs : list call) (st : store) :
  assigned p (c :: cs) st
  = match exec c st with
    | Ok st' =>
        match c with
        | CreateIssue u _ q _ _ _ _ _ _ =>
            if decide (q = p) then [sequence_id_of u st'] else []
        | _ => []
        end ++ assigned p cs st'
    | Raise _ => assigned p cs st
    | Unmodelled => []
    end.
Proof.
  destruct c; cbn [assigned exec]; try by destruct (store_of _).
  unfold create_issue. case_decide; [done|]. done.
Qed.

Lemma assigned_from (cs : list call) (st : store) (p : string) :
  dense st →
  assigned p cs st
  = (λ k, Some (Z.of_nat k)) <$>
      seq (1 + length (sequence_ids p st)) (length (assigned p cs st)).
Proof.
  revert st. induction cs as [|c cs IH]; intros st Hd; [done|].
  rewrite assigned_cons.
  destruct (exec c st) as [st1|e|] eqn:E; [|by apply IH|done].
  pose proof (dense_exec _ _ _ Hd E) as Hd1.
  specialize (IH st1 Hd1).
  destruct (effect_sequence_ids c st st1 p (exec_effect _ _ _ E))
    as [[Hs Hc]|(u & now & t & d & ty & pr & a & l & row & -> & Hu & Hi & Hr & Hq & Hs)].
  - rewrite Hs in IH.
    assert (match c with
            | CreateIssue u _ q _ _ _ _ _ _ =>
                if decide (q = p) then [sequence_id_of u st1] else []
            | _ => []
            end = []) as ->; [|done].
    destruct c; try done. case_decide; [|done]. subst. by edestruct Hc.
  - rewrite decide_True by done.
    rewrite (sequence_id_of_inserted u st st1 row Hu Hi Hr), Hq.
    rewrite Hs, length_app in IH. cbn [length] in IH.
    rewrite (Hd p) at 1. rewrite or0_max_seq.
    cbn [app length]. rewrite IH at 1. cbn [seq fmap list_fmap].
    f_equal; [f_equal; lia|]. do 2 f_equal. lia.
Qed.


Lemma max_sequence_id_dense (p : string) (st : store) :
  dense st →
  or0 (max_sequence_id p (issues st)) = Z.of_nat (length (sequence_ids p st)).
Proof.
  intros Hd. unfold max_sequence_id. fold (sequence_ids p st).
  rewrite (Hd p) at 1. apply or0_max_seq.
Qed.

(** C1.  The sequence numbers that the calls of [create_issue] against a
    project obtain are 1, 2, 3, ... in the order of the calls, whatever
    other calls (creations in other projects included) come in between:
    each project starts at 1.  Each number is one more than
    [MAX(sequence_id)] over the issues of the project, 0 standing for the
    maximum of none, and a creation under an id that is not taken
    succeeds. *)
Theorem create_issue_sequence_ids (project_id : string) (cs : list call) :
  assigned project_id cs init_db
  = (λ k, Some (Z.of_nat k)) <$> seq 1 (length (assigned project_id cs init_db))
  ∧ ∀ st, run cs init_db = Some st →
      ∀ uuid8 now title description issue_type priority assignees labels,
        uuid8 ∉ col_id <$> issues st →
        ∃ st',
          create_issue uuid8 now project_id title description issue_type priority
            assignees labels st = Ok (uuid8, st')
          ∧ sequence_id_of uuid8 st'
            = Some (or0 (max_sequence_id project_id (issues st)) + 1)
          ∧ or0 (max_sequence_id project_id (issues st))
            = Z.of_nat (length (sequence_ids project_id st)).
Proof.
  split; [apply (assigned_from cs init_db project_id dense_init)|].
  intros st Hrun u now t d ty pr a l Hu.
  unfold create_issue. rewrite decide_False by done.
  eexists. split; [reflexivity|]. split.
  - etrans; [eapply sequence_id_of_inserted; [exact Hu|reflexivity|reflexivity]|].
    reflexivity.
  - apply max_sequence_id_dense. exact (dense_run cs init_db st dense_init Hrun).
Qed.

(** ** Updates, column by column *)

Lemma keep_allowed_lookup (A : gset string) (kwargs : gmap string pyval) (k : string) :
  keep_allowed A kwargs !! k = if decide (k ∈ A) then kwargs !! k else None.
Proof.
  unfold keep_allowed. rewrite map_lookup_filter.
  destruct (kwargs !! k) as [v|]; cbn; [|by case_decide].
  by repeat case_decide.
Qed.

Lemma keep_allowed_dom (A : gset string) (kwargs : gmap string pyval) (k : string) :
  is_Some (keep_allowed A kwargs !! k) → k ∈ A.
Proof. rewrite keep_allowed_lookup. case_decide; [done|]. by intros [? ?]. Qed.

Lemma bulk_allowed_subset (k : string) : k ∈ bulk_allowed_fields → k ∈ allowed_fields.
Proof. unfold bulk_allowed_fields, allowed_fields. set_solver. Qed.

Lemma field_ok_text (k : string) (v : pyval) :
  k ∈ ["title"; "description"; "status"; "priority"] → field_ok k v = true →
  ∃ s, v = PStr s.
Proof.
  intros Hk. unfold field_ok. rewrite decide_True by set_solver.
  destruct v; try done; eauto.
Qed.

Lemma field_ok_opt_text (k : string) (v : pyval) :
  k ∈ ["cycle_id"; "module_id"] → field_ok k v = true →
  v = PNone ∨ ∃ s, v = PStr s.
Proof.
  intros Hk. unfold field_ok.
  rewrite decide_False by set_solver. rewrite decide_False by set_solver.
  rewrite decide_True by set_solver.
  destruct v; try done; eauto.
Qed.

Lemma field_ok_due_date (v : pyval) :
  field_ok "due_date" v = true → v = PNone ∨ ∃ d, v = PDatetime d.
Proof.
  unfold field_ok.
  rewrite decide_False by set_solver. rewrite decide_False by set_solver.
  rewrite decide_False by set_solver. rewrite decide_True by done.
  destruct v; try done; eauto.
Qed.

Lemma field_ok_estimate_points (v : pyval) :
  field_ok "estimate_points" v = true → v = PNone ∨ ∃ z, v = PInt z.
Proof.
  unfold field_ok.
  rewrite decide_False by set_solver. rewrite decide_False by set_solver.
  rewrite decide_False by set_solver. rewrite decide_False by done.
  rewrite decide_True by done.
  destruct v; try done; eauto.
Qed.

Ltac eval_column :=
  unfold column, columns; cbn [assoc];
  repeat first [rewrite decide_True by done | rewrite decide_False by done].

Lemma column_outside (c : string) (r : issue_row) :
  c ∉ column_names → column c r = None.
Proof.
  intros Hc. unfold column, columns. cbn [assoc].
  repeat (rewrite decide_False by (intros <-; apply Hc; unfold column_names; set_solver)).
  done.
Qed.

Section set_columns.
Context (K : gmap string pyval) (now : datetime) (r : issue_row).
Context (HK : well_typed K = true).
Context (Hdom : ∀ k, is_Some (K !! k) → k ∈ allowed_fields).

Let U : gmap string pyval := <["updated_at" := PDatetime now]> (dump_lists K).

Local Lemma U_lookup (k : string) :
  k ≠ "updated_at" → U !! k = dumped k <$> K !! k.
Proof. intros Hk. unfold U. by rewrite lookup_insert_ne, dump_lists_lookup. Qed.

Local Lemma K_outside (k : string) : k ∉ allowed_fields → K !! k = None.
Proof.
  intros Hk. destruct (K !! k) eqn:E; [|done]. destruct Hk. apply Hdom. by rewrite E.
Qed.

Lemma column_set_columns (c : string) :
  column c (set_columns U r)
  = if decide (c = "updated_at") then Some (STime now)
    else match K !! c with
         | Some v => Some (stored v)
         | None => column c r
         end.
Proof.
  destruct (decide (c ∈ column_names)) as [Hin|Hout].
  - unfold column_names in Hin.
    repeat (apply elem_of_cons in Hin as [->|Hin]); [..|by apply elem_of_nil in Hin];
      eval_column; cbn [set_columns col_id col_workspace_id col_project_id
        col_sequence_id col_title col_description col_type col_status col_priority
        col_assignees col_labels col_cycle_id col_module_id col_created_by col_created_at
        col_updated_at col_due_date col_estimate_points col_link_count
        col_attachment_count col_comment_count];
      try (rewrite K_outside by (unfold allowed_fields; set_solver); reflexivity);
      try (unfold U; by rewrite lookup_insert_eq);
      rewrite U_lookup by done.
    + destruct (K !! "title") as [v|] eqn:Ev; [|done].
      destruct (field_ok_text "title" v ltac:(set_solver) (well_typed_lookup _ _ _ HK Ev)) as [s ->]. done.
    + destruct (K !! "description") as [v|] eqn:Ev; [|done].
      destruct (field_ok_text "description" v ltac:(set_solver) (well_typed_lookup _ _ _ HK Ev)) as [s ->]. done.
    + destruct (K !! "status") as [v|] eqn:Ev; [|done].
      destruct (field_ok_text "status" v ltac:(set_solver) (well_typed_lookup _ _ _ HK Ev)) as [s ->]. done.
    + destruct (K !! "priority") as [v|] eqn:Ev; [|done].
      destruct (field_ok_text "priority" v ltac:(set_solver) (well_typed_lookup _ _ _ HK Ev)) as [s ->]. done.
    + destruct (K !! "assignees") as [v|] eqn:Ev; [|done].
      destruct (field_ok_list "assignees" v ltac:(set_solver) (well_typed_lookup _ _ _ HK Ev)) as [s ->]. done.
    + destruct (K !! "labels") as [v|] eqn:Ev; [|done].
      destruct (field_ok_list "labels" v ltac:(set_solver) (well_typed_lookup _ _ _ HK Ev)) as [s ->]. done.
    + destruct (K !! "cycle_id") as [v|] eqn:Ev; [|done].
      destruct (field_ok_opt_text "cycle_id" v ltac:(set_solver) (well_typed_lookup _ _ _ HK Ev)) as [->|[s ->]]; done.
    + destruct (K !! "module_id") as [v|] eqn:Ev; [|done].
      destruct (field_ok_opt_text "module_id" v ltac:(set_solver) (well_typed_lookup _ _ _ HK Ev)) as [->|[s ->]]; done.
    + destruct (K !! "due_date") as [v|] eqn:Ev; [|done].
      destruct (field_ok_due_date v (well_typed_lookup _ _ _ HK Ev)) as [->|[s ->]]; done.
    + destruct (K !! "estimate_points") as [v|] eqn:Ev; [|done].
      destruct (field_ok_estimate_points v (well_typed_lookup _ _ _ HK Ev)) as [->|[s ->]]; done.
  - rewrite !column_outside by done.
    rewrite decide_False by (intros ->; apply Hout; unfold column_names; set_solver).
    rewrite K_outside; [done|].
    intros Hin. apply Hout. unfold allowed_fields in Hin. unfold column_names. set_solver.
Qed.

End set_columns.

Lemma set_columns_updated_row (allowed : gset string) (now : datetime)
    (kwargs : gmap string pyval) (r : issue_row) :
  (∀ k, k ∈ allowed → k ∈ allowed_fields) →
  well_typed (keep_allowed allowed kwargs) = true →
  updated_row allowed now kwargs r
    (set_columns (<["updated_at" := PDatetime now]> (dump_lists (keep_allowed allowed kwargs))) r).
Proof.
  intros Hsub Ht c. rewrite column_set_columns; [|done|].
  - rewrite keep_allowed_lookup. by repeat case_decide.
  - intros k Hk. by apply Hsub, (keep_allowed_dom allowed kwargs).
Qed.

Lemma keep_allowed_empty (A : gset string) (kwargs : gmap string pyval) :
  keep_allowed A kwargs = ∅ ↔ ∀ k, k ∈ A → kwargs !! k = None.
Proof.
  rewrite map_empty. split; intros H k.
  - intros Hk. specialize (H k). rewrite keep_allowed_lookup in H. by rewrite decide_True in H.
  - rewrite keep_allowed_lookup. case_decide; eauto.
Qed.

Lemma keep_allowed_nonempty (A : gset string) (kwargs : gmap string pyval) :
  keep_allowed A kwargs ≠ ∅ ↔ ∃ k, k ∈ A ∧ is_Some (kwargs !! k).
Proof.
  split.
  - intros H. destruct (map_choose _ H) as (k & v & Hk).
    exists k. rewrite keep_allowed_lookup in Hk. case_decide; [|done].
    split; [done|]. by rewrite Hk.
  - intros (k & Hk & [v Hv]) H.
    pose proof (proj1 (keep_allowed_empty A kwargs) H k Hk). congruence.
Qed.

Lemma fmap_unselected {A} (f : A → A) (w : A → bool) (l : list A) :
  (∀ x, x ∈ l → w x = false) → (λ x, if w x then f x else x) <$> l = l.
Proof.
  intros H. induction l as [|x l IH]; [done|].
  rewrite fmap_cons, IH by (intros; apply H; by right).
  by rewrite (H x) by left.
Qed.

Lemma Forall2_fmap_self {A} (f : A → A) (P : A → A → Prop) (l : list A) :
  (∀ x, P x (f x)) → Forall2 P l (f <$> l).
Proof. intros H. induction l; constructor; auto. Qed.

Lemma fits_dumped (k : string) (v : pyval) : fits (dumped k v) = fits v.
Proof. destruct v; try done. unfold dumped. by case_decide. Qed.

Lemma bindable_updates (now : datetime) (K : gmap string pyval) :
  bindable K = true →
  bindable (<["updated_at" := PDatetime now]> (dump_lists K)) = true.
Proof.
  unfold bindable. rewrite !bool_decide_eq_true. intros HK k v.
  destruct (decide (k = "updated_at")) as [->|Hk].
  - rewrite lookup_insert_eq. by intros [= <-].
  - rewrite lookup_insert_ne, dump_lists_lookup by done.
    destruct (K !! k) as [w|] eqn:E; [|done]. cbn. intros [= <-].
    rewrite fits_dumped. by apply (HK k w).
Qed.

Lemma bulk_bindable (kwargs : gmap string pyval) :
  well_typed (keep_allowed bulk_allowed_fields kwargs) = true →
  bindable (keep_allowed bulk_allowed_fields kwargs) = true.
Proof.
  intros Ht. unfold bindable. apply bool_decide_eq_true. intros k v Hv.
  pose proof (well_typed_lookup _ _ _ Ht Hv) as Hok.
  assert (Hk : k ∈ bulk_allowed_fields).
  { apply (keep_allowed_dom _ kwargs). by rewrite Hv. }
  destruct v; try done. revert Hok. unfold field_ok.
  unfold bulk_allowed_fields in Hk.
  repeat case_decide; try done; set_solver.
Qed.

Lemma unbindable_updates (now : datetime) (kwargs : gmap string pyval) :
  bindable (keep_allowed allowed_fields kwargs) = false →
  bindable (<["updated_at" := PDatetime now]>
              (dump_lists (keep_allowed allowed_fields kwargs))) = false.
Proof.
  unfold bindable. rewrite !bool_decide_eq_false. intros HK Hall. apply HK.
  intros k v Hv.
  assert (Hk : k ≠ "updated_at").
  { intros ->. assert (H : "updated_at" ∈ allowed_fields).
    { apply (keep_allowed_dom _ kwargs). by rewrite Hv. }
    revert H. unfold allowed_fields. set_solver. }
  specialize (Hall k (dumped k v)).
  rewrite lookup_insert_ne, dump_lists_lookup, Hv in Hall by done.
  rewrite <- (fits_dumped k). by apply Hall.
Qed.

(** What an update that returned [True] has written. *)
Lemma update_issue_applied (now : datetime) (issue_id : string)
    (kwargs : gmap string pyval) (st st' : store) :
  update_issue now issue_id kwargs st = Ok (true, st') →
  update_applied now issue_id kwargs st st'.
Proof.
  unfold update_issue, update_applied. case_decide as E; [done|].
  destruct (well_typed _) eqn:Ht; [|done]. cbn [negb].
  destruct (bindable _); [|done]. cbn [negb sql_update]. intros [= <-].
  cbn [with_issues cycles modules comments comments_seq issues].
  do 4 (split; [done|]).
  apply Forall2_fmap_self. intros r.
  destruct (decide (col_id r = issue_id)) as [Hr|Hr].
  - rewrite bool_decide_eq_true_2 by done. by apply set_columns_updated_row.
  - by rewrite bool_decide_eq_false_2 by done.
Qed.

(** C2, as amended.  [update_issue] returns [False] and leaves the store
    as it is when no keyword is in the allow-list.  When one is, and the
    values have the types of their fields, the call raises
    [OverflowError] if an integer among them does not fit an INTEGER of
    the store, and otherwise executes its UPDATE and returns [True], also
    for an [issue_id] that no issue has (the store is then unchanged).
    Whenever the call returns, it returns [True] exactly when a keyword
    survives the filter, and the store is then the one the UPDATE leaves:
    the rows of the id rewritten, [updated_at] with them, everything else
    as it was. *)
Theorem update_issue_returns (now : datetime) (issue_id : string)
    (kwargs : gmap string pyval) (st : store) :
  ((∀ k, k ∈ allowed_fields → kwargs !! k = None) →
   update_issue now issue_id kwargs st = Ok (false, st))
  ∧ ((∃ k, k ∈ allowed_fields ∧ is_Some (kwargs !! k)) →
     well_typed (keep_allowed allowed_fields kwargs) = true →
     (bindable (keep_allowed allowed_fields kwargs) = false →
      update_issue now issue_id kwargs st = Raise OverflowError)
     ∧ (bindable (keep_allowed allowed_fields kwargs) = true →
        ∃ st', update_issue now issue_id kwargs st = Ok (true, st')
               ∧ update_applied now issue_id kwargs st st'
               ∧ (issue_id ∉ col_id <$> issues st → st' = st)))
  ∧ (∀ b st', update_issue now issue_id kwargs st = Ok (b, st') →
       (b = true ↔ ∃ k, k ∈ allowed_fields ∧ is_Some (kwargs !! k))
       ∧ (b = false → st' = st)
       ∧ (b = true → update_applied now issue_id kwargs st st')).
Proof.
  split; [|split].
  - intros H. apply keep_allowed_empty in H. unfold update_issue. by rewrite decide_True.
  - intros H Ht. apply keep_allowed_nonempty in H. split.
    + intros Hb. unfold update_issue. rewrite decide_False by done.
      rewrite Ht. cbn [negb]. by rewrite unbindable_updates.
    + intros Hb.
      assert (Hu : update_issue now issue_id kwargs st
                   = Ok (true, with_issues st
                           ((λ r, if bool_decide (col_id r = issue_id)
                                  then set_columns
                                         (<["updated_at" := PDatetime now]>
                                            (dump_lists (keep_allowed allowed_fields kwargs))) r
                                  else r) <$> issues st))).
      { unfold update_issue. rewrite decide_False by done. rewrite Ht. cbn [negb].
        by rewrite bindable_updates by done. }
      eexists. split; [exact Hu|]. split; [by apply update_issue_applied|].
      intros Hid. rewrite fmap_unselected; [apply with_issues_same|].
      intros r Hr. apply bool_decide_eq_false. intros <-.
      apply Hid. by apply list_elem_of_fmap_2.
  - intros b st' Hu. destruct b.
    + split; [|split; [done|]].
      * split; [|done]. intros _. apply keep_allowed_nonempty. intros E.
        unfold update_issue in Hu. by rewrite decide_True in Hu.
      * intros _. by apply update_issue_applied.
    + assert (E : keep_allowed allowed_fields kwargs = ∅ ∧ st' = st).
      { unfold update_issue in Hu. case_decide as E; [by injection Hu as <-|].
        destruct (well_typed _); [|done]. cbn [negb] in Hu.
        destruct (bindable _); [|done]. done. }
      destruct E as [E ->]. split; [|done]. split; [done|].
      intros H. by apply keep_allowed_nonempty in H.
Qed.

(** C7.  After an update that returned [True], the other tables are as
    they were and so is every issue with another id; on the issue itself
    [updated_at] is the instant of the call, each column that the call
    names and the allow-list holds has the value passed, and every other
    column (those named by keywords outside the allow-list included) is
    unchanged. *)
Theorem update_issue_frame (now : datetime) (issue_id : string)
    (kwargs : gmap string pyval) (st st' : store) :
  update_issue now issue_id kwargs st = Ok (true, st') →
  cycles st' = cycles st ∧ modules st' = modules st
  ∧ comments st' = comments st ∧ comments_seq st' = comments_seq st
  ∧ Forall2 (λ r r', if decide (col_id r = issue_id)
                     then updated_row allowed_fields now kwargs r r'
                     else r' = r)
      (issues st) (issues st').
Proof.
  unfold update_issue. case_decide as E; [done|].
  destruct (well_typed _) eqn:Ht; [|done]. cbn [negb].
  destruct (bindable _); [|done]. cbn [negb sql_update]. intros [= <-].
  cbn [with_issues cycles modules comments comments_seq issues].
  do 4 (split; [done|]).
  apply Forall2_fmap_self. intros r.
  destruct (decide (col_id r = issue_id)) as [Hr|Hr].
  - rewrite bool_decide_eq_true_2 by done. by apply set_columns_updated_row.
  - by rewrite bool_decide_eq_false_2 by done.
Qed.

Lemma length_selected (ids : list string) (tbl : list issue_row) :
  NoDup (col_id <$> tbl) → NoDup ids → (∀ i, i ∈ ids → i ∈ col_id <$> tbl) →
  length (filter (λ r, col_id r ∈ ids) tbl) = length ids.
Proof.
  intros Hpk Hids Hin.
  rewrite <- (length_fmap col_id). apply Permutation_length, NoDup_Permutation; [|done|].
  - apply (sublist_NoDup _ (col_id <$> tbl)); [done|].
    apply fmap_sublist, sublist_filter.
  - intros i. rewrite list_elem_of_fmap. split.
    + intros (r & -> & Hr%list_elem_of_filter). tauto.
    + intros Hi. destruct (list_elem_of_fmap_1 _ _ _ (Hin i Hi)) as (r & -> & Hr).
      exists r. split; [done|]. by apply list_elem_of_filter.
Qed.

(** C6.  [bulk_update] with no id returns 0 and changes nothing, whatever
    the keywords.  So it does when no keyword is in its allow-list.
    Otherwise it rewrites every issue whose id is in the list, each in the
    same way (the columns named within the allow-list, and [updated_at]),
    leaves every other issue and table alone, and returns the number of
    issues whose id is in the list: the length of the list when its ids
    are distinct and all stored.  The allow-list is that of [update_issue]
    without [due_date] and [estimate_points]. *)
Theorem bulk_update_spec (now : datetime) (issue_ids : list string)
    (kwargs : gmap string pyval) (st : store) :
  bulk_update now [] kwargs st = Ok (0, st)
  ∧ ((∀ k, k ∈ bulk_allowed_fields → kwargs !! k = None) →
     bulk_update now issue_ids kwargs st = Ok (0, st))
  ∧ (issue_ids ≠ [] →
     (∃ k, k ∈ bulk_allowed_fields ∧ is_Some (kwargs !! k)) →
     well_typed (keep_allowed bulk_allowed_fields kwargs) = true →
     ∃ st',
       bulk_update now issue_ids kwargs st
       = Ok (sql_count (filter (λ r, col_id r ∈ issue_ids) (issues st)), st')
       ∧ cycles st' = cycles st ∧ modules st' = modules st
       ∧ comments st' = comments st ∧ comments_seq st' = comments_seq st
       ∧ Forall2 (λ r r', if decide (col_id r ∈ issue_ids)
                          then updated_row bulk_allowed_fields now kwargs r r'
                          else r' = r)
           (issues st) (issues st')
       ∧ (pk_unique st → NoDup issue_ids →
          (∀ i, i ∈ issue_ids → i ∈ col_id <$> issues st) →
          sql_count (filter (λ r, col_id r ∈ issue_ids) (issues st))
          = Z.of_nat (length issue_ids)))
  ∧ (∀ k, k ∈ bulk_allowed_fields
          ↔ k ∈ allowed_fields ∧ k ≠ "due_date" ∧ k ≠ "estimate_points").
Proof.
  split; [done|]. split; [|split].
  - intros H. apply keep_allowed_empty in H. unfold bulk_update.
    case_decide; [done|]. by rewrite decide_True.
  - intros Hids H Ht. apply keep_allowed_nonempty in H. unfold bulk_update.
    rewrite decide_False by done. rewrite decide_False by done.
    rewrite Ht. cbn [negb].
    rewrite bindable_updates by by apply bulk_bindable. cbn [negb sql_update].
    eexists. split.
    { do 3 f_equal. f_equal. apply list_filter_iff. intros r.
      by rewrite bool_decide_eq_true. }
    cbn [with_issues cycles modules comments comments_seq issues].
    do 4 (split; [done|]). split.
    + apply Forall2_fmap_self. intros r.
      destruct (decide (col_id r ∈ issue_ids)) as [Hr|Hr].
      * rewrite bool_decide_eq_true_2 by done.
        apply set_columns_updated_row; [apply bulk_allowed_subset|done].
      * by rewrite bool_decide_eq_false_2 by done.
    + intros Hpk Hnd Hin. unfold sql_count. f_equal. by apply length_selected.
  - intros k. unfold bulk_allowed_fields, allowed_fields. set_solver.
Qed.

(** ** The primary key and the encoded lists *)

Lemma pk_unique_effect (c : call) (st st' : store) :
  pk_unique st → effect c st st' → pk_unique st'.
Proof.
  unfold pk_unique.
  intros Hpk [u now q t d ty pr a l -> Hu Hi Hc|U w Hn HU Hi Hc|now i u b -> Hi Hc];
    rewrite Hi.
  - rewrite fmap_app. apply NoDup_app. split; [done|]. split.
    + intros x Hx Hx'. apply list_elem_of_singleton in Hx'. by subst x.
    + apply NoDup_singleton.
  - rewrite <- list_fmap_compose.
    erewrite list_fmap_ext; [done|]. intros ? r _. cbn. by destruct (w r).
  - rewrite <- list_fmap_compose.
    erewrite list_fmap_ext; [done|]. intros ? r _. cbn. by case_decide.
Qed.

Lemma lists_encoded_effect (c : call) (st st' : store) :
  lists_encoded st → effect c st st' → lists_encoded st'.
Proof.
  unfold lists_encoded.
  intros He [u now q t d ty pr a l -> Hu Hi Hc|U w Hn HU Hi Hc|now i u b -> Hi Hc];
    rewrite Hi.
  - apply Forall_app. split; [done|]. apply Forall_singleton. cbn. eauto.
  - apply Forall_fmap. eapply Forall_impl; [done|]. intros r [[a Ha] [l Hl]]. cbn.
    destruct (w r); [|eauto]. cbn. split.
    + destruct (HU "assignees" ltac:(set_solver)) as [->|[x ->]]; cbn; eauto.
    + destruct (HU "labels" ltac:(set_solver)) as [->|[x ->]]; cbn; eauto.
  - apply Forall_fmap. eapply Forall_impl; [done|]. intros r [[a Ha] [l Hl]]. cbn.
    case_decide; cbn; eauto.
Qed.

Lemma run_invariant (I : store → Prop) (cs : list call) (st st' : store) :
  (∀ c s s', I s → effect c s s' → I s') →
  I st → run cs st = Some st' → I st'.
Proof.
  intros Hstep. revert st. induction cs as [|c cs IH]; intros st HI; cbn [run].
  - by intros [= <-].
  - destruct (exec c st) as [st1|e|] eqn:E; [|by apply IH|done].
    apply IH. eapply Hstep; [done|]. by apply exec_effect.
Qed.

Lemma run_pk_unique (cs : list call) (st : store) :
  run cs init_db = Some st → pk_unique st.
Proof. apply run_invariant; [apply pk_unique_effect|]. apply NoDup_nil_2. Qed.

Lemma run_lists_encoded (cs : list call) (st : store) :
  run cs init_db = Some st → lists_encoded st.
Proof. apply run_invariant; [apply lists_encoded_effect|]. apply Forall_nil_2. Qed.

Lemma or_empty_array_dumps (l : list string) :
  or_empty_array (Json.dumps l) = Json.dumps l.
Proof. unfold or_empty_array. by rewrite decide_False. Qed.

Lemma issue_of_row_encoded (r : issue_row) (a l : list string) :
  col_assignees r = Json.dumps a → col_labels r = Json.dumps l →
  ∃ i, issue_of_row r = Some i ∧ Issue.id i = col_id r
       ∧ Issue.assignees i = a ∧ Issue.labels i = l
       ∧ Issue.comment_count i = col_comment_count r.
Proof.
  intros Ha Hl. unfold issue_of_row.
  rewrite Ha, Hl, !or_empty_array_dumps, !JsonFacts.loads_dumps. cbn. eauto 10.
Qed.

Lemma get_issues_rows (project_id : string) (filters : option (gmap string string))
    (st : store) :
  lists_encoded st →
  ∃ l, get_issues project_id filters st = Ok l
       ∧ Forall2 (λ r i, issue_of_row r = Some i)
           (filter (λ r, where_clause project_id (default ∅ filters) r = true) (issues st)) l.
Proof.
  intros He. unfold get_issues.
  destruct (mapM issue_of_row _) as [l|] eqn:E.
  - exists l. split; [done|]. by apply mapM_Some_1.
  - apply mapM_None_1, Exists_exists in E. destruct E as (r & Hr & Hnone).
    apply list_elem_of_filter in Hr as [_ Hr].
    unfold lists_encoded in He. rewrite Forall_forall in He.
    destruct (He r Hr) as [[a Ha] [l Hl]].
    destruct (issue_of_row_encoded r a l Ha Hl) as (i & Hi & _). congruence.
Qed.

Lemma where_clause_no_filter (p : string) (r : issue_row) :
  where_clause p ∅ r = bool_decide (col_project_id r = p).
Proof. unfold where_clause. rewrite !lookup_empty. by rewrite !andb_true_r. Qed.

Lemma issue_of_row_Some (r : issue_row) (i : Issue.t) :
  issue_of_row r = Some i →
  Issue.id i = col_id r ∧ Issue.project_id i = col_project_id r
  ∧ Issue.sequence_id i = col_sequence_id r
  ∧ Issue.status i = col_status r ∧ Issue.priority i = col_priority r
  ∧ Issue.cycle_id i = col_cycle_id r
  ∧ Issue.comment_count i = col_comment_count r
  ∧ Json.loads (or_empty_array (col_assignees r)) = Some (Issue.assignees i)
  ∧ Json.loads (or_empty_array (col_labels r)) = Some (Issue.labels i).
Proof.
  unfold issue_of_row.
  destruct (Json.loads (or_empty_array (col_assignees r))) as [a|]; [|done].
  destruct (Json.loads (or_empty_array (col_labels r))) as [l|]; [|done].
  cbn. intros [= <-]. done.
Qed.


(** ** LIKE *)

Module LikeFacts.
Import Like.

Lemma like_nil (s : string) : like EmptyString s = true ↔ s = EmptyString.
Proof. cbn. apply bool_decide_eq_true. Qed.

Lemma like_percent (q s : string) :
  like (String "%" q) s = true ↔ ∃ pre post, s = pre +:+ post ∧ like q post = true.
Proof.
  cbn [like]. replace (N_of_ascii "%" =? 37)%N with true by reflexivity. cbn iota.
  induction s as [|d s IH].
  - rewrite orb_false_r. split.
    + intros H. by exists EmptyString, EmptyString.
    + intros ([|] & post & E & H); [|done]. by rewrite sapp_nil_l in E; subst post.
  - rewrite orb_true_iff, IH. split.
    + intros [H|(pre & post & -> & H)].
      * by exists EmptyString, (String d s).
      * by exists (String d pre), post.
    + intros ([|c pre] & post & E & H).
      * left. rewrite sapp_nil_l in E. by subst post.
      * right. rewrite sapp_cons in E. inversion E; subst. eauto.
Qed.

Lemma like_literal (c : ascii) (q s : string) :
  (N_of_ascii c =? 37)%N = false → (N_of_ascii c =? 95)%N = false →
  like (String c q) s
  = match s with
    | EmptyString => false
    | String d s' => eq_nocase c d && like q s'
    end.
Proof. intros H1 H2. cbn [like]. by rewrite H1, H2. Qed.

Lemma like_prefix (x t : string) :
  plain x = true →
  like (x +:+ "%") t = true
  ↔ ∃ mid post, t = mid +:+ post ∧ string_lower mid = string_lower x.
Proof.
  revert t. induction x as [|c x IH]; intros t Hx.
  - rewrite sapp_nil_l, like_percent. split.
    + intros _. by exists EmptyString, t.
    + intros _. exists t, EmptyString. by rewrite sapp_nil_r.
  - cbn [plain] in Hx. apply andb_true_iff in Hx as [Hx Hx4].
    apply andb_true_iff in Hx as [Hx _].
    apply andb_true_iff in Hx as [Hx1%negb_true_iff Hx2%negb_true_iff].
    rewrite sapp_cons, like_literal by done. destruct t as [|d t].
    + split; [done|]. intros ([|] & post & E & H); [done|]. by rewrite sapp_cons in E.
    + rewrite andb_true_iff, IH by done. unfold eq_nocase. rewrite bool_decide_eq_true.
      split.
      * intros [Hcd (mid & post & -> & Hm)].
        exists (String d mid), post. rewrite sapp_cons. split; [done|].
        cbn [string_lower]. by rewrite Hm, Hcd.
      * intros ([|e mid] & post & E & H); [done|].
        rewrite sapp_cons in E. inversion E; subst. cbn [string_lower] in H.
        inversion H. eauto.
Qed.

Lemma like_contains (x s : string) :
  plain x = true →
  like (contains_pattern x) s = true ↔ contains_nocase x s.
Proof.
  intros Hx. unfold contains_pattern, contains_nocase.
  change ("%" +:+ ?t) with (String "%" t). rewrite like_percent.
  split.
  - intros (pre & post & -> & H). apply like_prefix in H as (mid & post' & -> & H); eauto.
  - intros (pre & mid & post & -> & H). exists pre, (mid +:+ post).
    split; [done|]. apply like_prefix; eauto.
Qed.

(** Texts without NUL are read whole. *)
Lemma c_text_app (a b : string) :
  c_text a = a → c_text (a +:+ b) = a +:+ c_text b.
Proof.
  induction a as [|c a IH]; [done|]. rewrite sapp_cons. cbn [c_text].
  destruct (N_of_ascii c =? 0)%N; [done|]. intros [= H]. by rewrite IH.
Qed.

Lemma c_text_plain (x : string) : plain x = true → c_text x = x.
Proof.
  induction x as [|c x IH]; [done|]. cbn [plain c_text].
  rewrite !andb_true_iff, !negb_true_iff. intros [[[_ _] ->] Hx]. by rewrite IH.
Qed.

Lemma c_text_pattern (x : string) :
  plain x = true → c_text (contains_pattern x) = contains_pattern x.
Proof.
  intros Hx. unfold contains_pattern.
  rewrite (c_text_app "%") by done. by rewrite c_text_app by by apply c_text_plain.
Qed.

Lemma matches_contains (x s : string) :
  plain x = true →
  matches x s = true ↔ contains_nocase x (c_text s).
Proof.
  intros Hx. unfold matches. rewrite c_text_pattern by done. by apply like_contains.
Qed.

Lemma c_text_escape_char (c : ascii) : c_text (Json.escape_char c) = Json.escape_char c.
Proof. destruct c as [[] [] [] [] [] [] [] []]; reflexivity. Qed.

Lemma c_text_escape (s : string) : c_text (Json.escape s) = Json.escape s.
Proof.
  induction s as [|c s IH]; [done|]. cbn [Json.escape].
  by rewrite c_text_app, IH by apply c_text_escape_char.
Qed.

Lemma c_text_encode (s : string) :
  c_text (Json.encode_basestring_ascii s) = Json.encode_basestring_ascii s.
Proof.
  unfold Json.encode_basestring_ascii. cbn [c_text].
  replace (N_of_ascii dquote =? 0)%N with false by reflexivity.
  by rewrite c_text_app by apply c_text_escape.
Qed.

Lemma c_text_join (l : list string) :
  c_text (join ", " (Json.encode_basestring_ascii <$> l))
  = join ", " (Json.encode_basestring_ascii <$> l).
Proof.
  induction l as [|x [|y l] IH]; [done|apply c_text_encode|].
  rewrite !fmap_cons, JsonFacts.join_cons2, <- !fmap_cons.
  rewrite c_text_app by apply c_text_encode.
  by rewrite (c_text_app ", ") by done; rewrite IH.
Qed.

Lemma c_text_dumps (l : list string) : c_text (Json.dumps l) = Json.dumps l.
Proof.
  unfold Json.dumps. rewrite (c_text_app "[") by done.
  by rewrite c_text_app by apply c_text_join.
Qed.

(** LIKE in words. *)
Lemma is_percent (c : ascii) : (N_of_ascii c =? 37)%N = true ↔ c = "%"%char.
Proof.
  rewrite N.eqb_eq. split; [|by intros ->].
  intros E. by rewrite <- (ascii_N_embedding c), E.
Qed.

Lemma is_underscore (c : ascii) : (N_of_ascii c =? 95)%N = true ↔ c = "_"%char.
Proof.
  rewrite N.eqb_eq. split; [|by intros ->].
  intros E. by rewrite <- (ascii_N_embedding c), E.
Qed.

Lemma like_underscore (q s : string) :
  like (String "_" q) s
  = match s with
    | EmptyString => false
    | String _ s' => like q s'
    end.
Proof. reflexivity. Qed.

Lemma like_wild (p s : string) : like p s = true ↔ wild_match p s.
Proof.
  revert s. induction p as [|c p IH]; intros s.
  - rewrite like_nil. split; [intros ->; constructor|by inversion 1].
  - destruct (N_of_ascii c =? 37)%N eqn:E1; [|destruct (N_of_ascii c =? 95)%N eqn:E2].
    + apply is_percent in E1 as ->. rewrite like_percent. split.
      * intros (pre & post & -> & H). apply wild_run. by apply IH.
      * inversion 1; subst; [|done]. eexists _, _. split; [done|]. by apply IH.
    + apply is_underscore in E2 as ->. rewrite like_underscore.
      destruct s as [|d s]; [split; [done|by inversion 1]|].
      rewrite IH. split; [apply wild_one|]. inversion 1; subst; done.
    + rewrite like_literal by done.
      destruct s as [|d s]; [split; [done|inversion 1; subst; done]|].
      rewrite andb_true_iff, IH. unfold eq_nocase. rewrite bool_decide_eq_true. split.
      * intros [Hcd H]. apply wild_same; [by intros ->|by intros ->|done..].
      * inversion 1; subst; done.
Qed.

Lemma wild_app (p q s : string) :
  wild_match (p +:+ q) s
  ↔ ∃ s1 s2, s = s1 +:+ s2 ∧ wild_match p s1 ∧ wild_match q s2.
Proof.
  revert s. induction p as [|c p IH]; intros s.
  - rewrite sapp_nil_l. split.
    + intros H. exists EmptyString, s. rewrite sapp_nil_l. by repeat split; [constructor|].
    + intros (s1 & s2 & -> & H1 & H2). inversion H1; subst. by rewrite sapp_nil_l.
  - rewrite sapp_cons. split.
    + inversion 1 as [|p0 run s0 H0|p0 d s0 H0|c0 d p0 s0 Hc1 Hc2 Hcd H0]; subst;
        apply IH in H0 as (s1 & s2 & -> & H1 & H2).
      * exists (run +:+ s1), s2. rewrite sapp_assoc. by repeat split; [apply wild_run|].
      * exists (String d s1), s2. rewrite sapp_cons. by repeat split; [apply wild_one|].
      * exists (String d s1), s2. rewrite sapp_cons. by repeat split; [apply wild_same|].
    + intros (s1 & s2 & -> & H1 & H2).
      inversion H1 as [|p0 run s0 H0|p0 d s0 H0|c0 d p0 s0 Hc1 Hc2 Hcd H0]; subst.
      * rewrite sapp_assoc. apply wild_run, IH. eauto.
      * rewrite sapp_cons. apply wild_one, IH. eauto.
      * rewrite sapp_cons. apply wild_same; [done..|]. apply IH. eauto.
Qed.

Lemma c_text_no_nul (x : string) : no_nul x = true → c_text x = x.
Proof.
  induction x as [|c x IH]; [done|]. cbn [no_nul c_text].
  rewrite andb_true_iff, negb_true_iff. intros [-> Hx]. by rewrite IH.
Qed.

Lemma matches_wild (x s : string) :
  no_nul x = true →
  matches x s = true
  ↔ ∃ pre mid post, c_text s = pre +:+ mid +:+ post ∧ wild_match x mid.
Proof.
  intros Hx. unfold matches, contains_pattern.
  rewrite (c_text_app "%") by done.
  rewrite c_text_app by by apply c_text_no_nul.
  change (c_text "%") with "%". change ("%" +:+ ?t) with (String "%" t).
  rewrite like_wild. split.
  - inversion 1 as [|p0 run s0 H0 Hp Hs| |]; subst; [|done].
    apply wild_app in H0 as (mid & post & -> & Hm & _). by exists run, mid, post.
  - intros (pre & mid & post & -> & H). apply wild_run, wild_app.
    exists mid, post. split; [done|]. split; [done|].
    rewrite <- (sapp_nil_r post). apply wild_run. constructor.
Qed.

End LikeFacts.

(** ** get_issues *)

Lemma filter_conjunct (o : option string) (b : string → bool) :
  match o with Some v => b v | None => true end = true
  ↔ ∀ v, o = Some v → b v = true.
Proof. destruct o as [v|]; [|done]. split; [by intros ? ? [= <-]|eauto]. Qed.

Lemma where_clause_selected (p : string) (f : gmap string string) (r : issue_row) :
  where_clause p f r = true ↔ selected p f r.
Proof.
  unfold where_clause, selected.
  rewrite !andb_true_iff, bool_decide_eq_true, !filter_conjunct.
  setoid_rewrite bool_decide_eq_true. tauto.
Qed.

Lemma lists_encoded_c_text (st : store) :
  lists_encoded st →
  Forall (λ r, Like.c_text (col_assignees r) = col_assignees r
               ∧ Like.c_text (col_labels r) = col_labels r) (issues st).
Proof.
  unfold lists_encoded. intros He. eapply Forall_impl; [exact He|].
  intros r [[a ->] [l ->]]. by rewrite !LikeFacts.c_text_dumps.
Qed.

(** C4, as amended.  On a store reached by calls from a new database
    [get_issues] returns, in the order of the table, the issues that the
    WHERE clause selects: those of the project for which every filter
    present holds, [status], [priority] and [cycle_id] by equality,
    [assignee] and [label] by LIKE against the stored text with the
    filter between two [%].  For a filter without NUL that is: a stretch
    of the text matches the filter character by character, ASCII letters
    whatever their case, a [_] of the filter standing for any one
    character and a [%] for any run of characters.  For a filter without
    [%] and [_] as well it is containment up to the case of ASCII
    letters.  The stored lists hold no NUL. *)
Theorem get_issues_filters (cs : list call) (st : store) (project_id : string)
    (filters : option (gmap string string)) :
  run cs init_db = Some st →
  ∃ l,
    get_issues project_id filters st = Ok l
    ∧ Forall2 (λ r i, issue_of_row r = Some i)
        (filter (λ r, where_clause project_id (default ∅ filters) r = true) (issues st)) l
    ∧ (∀ r, where_clause project_id (default ∅ filters) r = true
            ↔ selected project_id (default ∅ filters) r)
    ∧ (∀ x s, plain x = true →
              Like.matches x s = true ↔ contains_nocase x (Like.c_text s))
    ∧ (∀ x s, no_nul x = true →
              Like.matches x s = true
              ↔ ∃ pre mid post,
                  Like.c_text s = pre +:+ mid +:+ post ∧ wild_match x mid)
    ∧ Forall (λ r, Like.c_text (col_assignees r) = col_assignees r
                   ∧ Like.c_text (col_labels r) = col_labels r) (issues st).
Proof.
  intros Hrun. pose proof (run_lists_encoded cs st Hrun) as He.
  destruct (get_issues_rows project_id filters st He) as (l & Hl & Hrows).
  exists l. split; [done|]. split; [done|]. split; [|split; [|split]].
  - intros r. apply where_clause_selected.
  - apply LikeFacts.matches_contains.
  - apply LikeFacts.matches_wild.
  - by apply lists_encoded_c_text.
Qed.

(** ** ORDER BY *)

Section order_by.
Context {A : Type} (key : A → Z).

Lemma insert_by_Permutation (x : A) (l : list A) : insert_by key x l ≡ₚ x :: l.
Proof.
  induction l as [|y l IH]; [done|]. cbn [insert_by].
  destruct (key x <=? key y); [done|]. by rewrite IH, Permutation_swap.
Qed.

Lemma order_by_Permutation (l : list A) : order_by key l ≡ₚ l.
Proof.
  induction l as [|x l IH]; [done|]. unfold order_by in *. cbn [foldr].
  by rewrite insert_by_Permutation, IH.
Qed.

Lemma order_by_length (l : list A) : length (order_by key l) = length l.
Proof. apply Permutation_length, order_by_Permutation. Qed.

Lemma insert_by_Sorted (x : A) (l : list A) :
  Sorted (λ a b, key a ≤ key b) l → Sorted (λ a b, key a ≤ key b) (insert_by key x l).
Proof.
  induction 1 as [|y l Hs IH Hhd]; cbn [insert_by]; [by repeat constructor|].
  destruct (key x <=? key y) eqn:E.
  - apply Z.leb_le in E. by repeat constructor.
  - apply Z.leb_gt in E. constructor; [done|].
    destruct Hhd as [|z l Hz]; cbn [insert_by]; [constructor; lia|].
    destruct (key x <=? key z); constructor; lia.
Qed.

Lemma order_by_Sorted (l : list A) : Sorted (λ a b, key a ≤ key b) (order_by key l).
Proof.
  induction l as [|x l IH]; [constructor|]. by apply insert_by_Sorted.
Qed.

Lemma order_by_sorted (l : list A) :
  Sorted (λ a b, key a ≤ key b) l → order_by key l = l.
Proof.
  induction 1 as [|x l Hs IH Hhd]; [done|]. unfold order_by in *. cbn [foldr].
  rewrite IH. destruct Hhd as [|y l Hy]; [done|]. cbn [insert_by].
  by rewrite (proj2 (Z.leb_le _ _) Hy).
Qed.

Lemma insert_by_sublist (x : A) (l : list A) : l `sublist_of` insert_by key x l.
Proof.
  induction l as [|y l IH]; cbn [insert_by]; [apply sublist_nil_l|].
  destruct (key x <=? key y); [by apply sublist_cons|by apply sublist_skip].
Qed.

Lemma order_by_last_two (l : list A) (x y : A) :
  key x ≤ key y → [x; y] `sublist_of` order_by key (l ++ [x; y]).
Proof.
  intros Hxy. unfold order_by. rewrite foldr_app. cbn [foldr insert_by].
  rewrite (proj2 (Z.leb_le _ _) Hxy).
  induction l as [|z l IH]; [done|]. cbn [foldr].
  etrans; [apply IH|apply insert_by_sublist].
Qed.

Lemma order_by_last_two_back (l : list A) (x y : A) :
  key y < key x → [y; x] `sublist_of` order_by key (l ++ [x; y]).
Proof.
  intros Hxy. unfold order_by. rewrite foldr_app. cbn [foldr insert_by].
  rewrite (proj2 (Z.leb_gt _ _) Hxy).
  induction l as [|z l IH]; [done|]. cbn [foldr].
  etrans; [apply IH|apply insert_by_sublist].
Qed.

End order_by.

(** ** comment and get_comments *)

Lemma foldr_max_ge (l : list Z) (x : Z) : x ∈ l → x ≤ foldr Z.max 0 l.
Proof.
  induction 1 as [x l|x y l _ IH]; cbn [foldr]; lia.
Qed.

Lemma next_comment_id_fresh (st : store) : next_comment_id st ∉ com_id <$> comments st.
Proof.
  intros H%foldr_max_ge. unfold next_comment_id in H. lia.
Qed.

Lemma get_comments_Permutation (issue_id : string) (st : store) :
  get_comments issue_id st
  ≡ₚ dict_of_comment <$> filter (λ r, com_issue_id r = issue_id) (comments st).
Proof. unfold get_comments. by rewrite order_by_Permutation. Qed.

Lemma Sorted_fmap {A B} (f : A → B) (R : B → B → Prop) (l : list A) :
  Sorted (λ a b, R (f a) (f b)) l → Sorted R (f <$> l).
Proof.
  induction 1 as [|x l Hs IH Hhd]; [constructor|]. rewrite fmap_cons.
  constructor; [done|]. destruct Hhd; constructor. done.
Qed.

(** C9, as amended.  [get_comments] returns the comments of the issue, all
    of them and no other, in ascending order of [created_at], the clock
    reading stored with each; when these readings never decrease along
    the table, that is the order of insertion.  Of the comments of two
    successive calls of [comment] on the issue the first comes first when
    the clock reading of the second call is not earlier than that of the
    first, and the second comes first when it is earlier. *)
Theorem get_comments_ordered (issue_id : string) (st : store) :
  get_comments issue_id st
  ≡ₚ dict_of_comment <$> filter (λ r, com_issue_id r = issue_id) (comments st)
  ∧ Sorted (λ a b, d_created_at a ≤ d_created_at b) (get_comments issue_id st)
  ∧ (Sorted (λ a b, com_created_at a ≤ com_created_at b)
       (filter (λ r, com_issue_id r = issue_id) (comments st)) →
     get_comments issue_id st
     = dict_of_comment <$> filter (λ r, com_issue_id r = issue_id) (comments st))
  ∧ (∀ t1 u1 b1 t2 u2 b2 c1 c2 st1 st2,
       comment t1 issue_id u1 b1 st = Ok (c1, st1) →
       comment t2 issue_id u2 b2 st1 = Ok (c2, st2) →
       c1 < c2
       ∧ (t1 ≤ t2 →
          [ {| d_id := c1; d_user := u1; d_body := b1; d_created_at := t1 |};
            {| d_id := c2; d_user := u2; d_body := b2; d_created_at := t2 |} ]
          `sublist_of` get_comments issue_id st2)
       ∧ (t2 < t1 →
          [ {| d_id := c2; d_user := u2; d_body := b2; d_created_at := t2 |};
            {| d_id := c1; d_user := u1; d_body := b1; d_created_at := t1 |} ]
          `sublist_of` get_comments issue_id st2)).
Proof.
  split; [apply get_comments_Permutation|]. split; [|split].
  - unfold get_comments. apply Sorted_fmap. cbn. apply order_by_Sorted.
  - intros Hs. unfold get_comments. by rewrite order_by_sorted.
  - intros t1 u1 b1 t2 u2 b2 c1 c2 st1 st2 H1 H2.
    unfold comment in H1. inversion H1; subst; clear H1.
    unfold comment in H2. inversion H2; subst; clear H2.
    split.
    { unfold next_comment_id. cbn [comments comments_seq]. lia. }
    unfold get_comments. cbn [comments].
    rewrite <- app_assoc, filter_app. cbn [app].
    rewrite filter_cons_True by done. rewrite filter_cons_True by done.
    rewrite filter_nil.
    split; intros Ht.
    + lazymatch goal with
      | |- _ `sublist_of` _ <$> order_by _ (?l ++ [?r1; ?r2]) =>
          apply (fmap_sublist dict_of_comment [r1; r2]
                   (order_by com_created_at (l ++ [r1; r2])))
      end.
      by apply order_by_last_two.
    + lazymatch goal with
      | |- _ `sublist_of` _ <$> order_by _ (?l ++ [?r1; ?r2]) =>
          apply (fmap_sublist dict_of_comment [r2; r1]
                   (order_by com_created_at (l ++ [r1; r2])))
      end.
      by apply order_by_last_two_back.
Qed.

Lemma comment_no_issue (issue_id : string) (tbl : list issue_row) :
  issue_id ∉ col_id <$> tbl →
  (λ r, if decide (col_id r = issue_id) then bump_comment_count r else r) <$> tbl = tbl.
Proof.
  induction tbl as [|r l IH]; [done|].
  rewrite !fmap_cons, not_elem_of_cons. intros [Hr Hl].
  rewrite decide_False by done. by rewrite IH.
Qed.

(** C10.  [comment] on an id that no issue has returns a fresh comment
    id, leaves the table of issues unchanged, and [get_comments] on that
    id then returns the comment. *)
Theorem comment_unknown_issue (now : datetime) (issue_id user body : string) (st : store) :
  issue_id ∉ col_id <$> issues st →
  ∃ comment_id st',
    comment now issue_id user body st = Ok (comment_id, st')
    ∧ (comment_id ∉ com_id <$> comments st)
    ∧ issues st' = issues st
    ∧ {| d_id := comment_id; d_user := user; d_body := body; d_created_at := now |}
      ∈ get_comments issue_id st'.
Proof.
  intros Hid. eexists _, _. split; [reflexivity|]. split; [apply next_comment_id_fresh|].
  cbn [issues]. split; [by apply comment_no_issue|].
  rewrite get_comments_Permutation. cbn [comments].
  rewrite filter_app, fmap_app, filter_cons_True by done.
  apply elem_of_app. right. cbn. left.
Qed.

(** ** The counter of comments *)

Lemma filter_none {A} (P : A → Prop) `{!∀ x, Decision (P x)} (l : list A) :
  (∀ x, x ∈ l → ¬ P x) → filter P l = [].
Proof.
  induction l as [|x l IH]; intros Hl; [done|].
  rewrite filter_cons_False by (apply Hl; left). apply IH. intros y Hy. apply Hl. by right.
Qed.

Lemma comment_rows_unreferenced (u : string) (st : store) :
  u ∉ com_issue_id <$> comments st → comment_rows u st = 0.
Proof.
  intros Hu. unfold comment_rows, sql_count. rewrite filter_none; [done|].
  intros r Hr Heq. apply Hu. rewrite <- Heq. by apply list_elem_of_fmap_2.
Qed.

Lemma comment_rows_same (i : string) (st st' : store) :
  comments st' = comments st → comment_rows i st' = comment_rows i st.
Proof. unfold comment_rows. by intros ->. Qed.

Lemma comment_rows_comment (i j : string) (st st' : store) (row : comment_row) :
  comments st' = comments st ++ [row] → com_issue_id row = j →
  comment_rows i st' = comment_rows i st + (if decide (i = j) then 1 else 0).
Proof.
  unfold comment_rows, sql_count. intros -> <-. rewrite filter_app, length_app.
  destruct (decide (i = com_issue_id row)) as [->|Hne].
  - rewrite filter_cons_True by done. cbn. lia.
  - rewrite filter_cons_False by done. cbn. lia.
Qed.

Lemma counts_agree_effect (c : call) (st st' : store) :
  counts_agree st →
  (∀ u now p t d ty pr a l,
     c = CreateIssue u now p t d ty pr a l → u ∉ com_issue_id <$> comments st) →
  effect c st st' → counts_agree st'.
Proof.
  unfold counts_agree.
  intros Hc Hfresh [u now q t d ty pr a l -> Hu Hi Hcm|U w Hn HU Hi Hcm|now i u b -> Hi Hcm];
    rewrite Hi.
  - apply Forall_app. split.
    + eapply Forall_impl; [done|]. intros r Hr. cbn in *.
      by rewrite (comment_rows_same _ st st').
    + apply Forall_singleton. cbn. rewrite (comment_rows_same _ st st') by done.
      symmetry. apply comment_rows_unreferenced. by eapply Hfresh.
  - apply Forall_fmap. eapply Forall_impl; [done|]. intros r Hr. cbn in *.
    rewrite (comment_rows_same _ st st') by done. by destruct (w r).
  - apply Forall_fmap. eapply Forall_impl; [done|]. intros r Hr. cbn in *.
    erewrite comment_rows_comment by (done || reflexivity). cbn [com_issue_id].
    case_decide as E.
    + cbn. rewrite decide_True by done. lia.
    + rewrite decide_False by done. lia.
Qed.

(** A counter that has drifted from its rows is never repaired: whatever
    agrees after a call agreed before it. *)
Lemma counts_agree_before (c : call) (st st' : store) :
  effect c st st' → counts_agree st' → counts_agree st.
Proof.
  unfold counts_agree.
  intros [u now q t d ty pr a l -> Hu Hi Hcm|U w Hn HU Hi Hcm|now i u b -> Hi Hcm];
    rewrite Hi.
  - intros [H _]%Forall_app. eapply Forall_impl; [done|]. intros r Hr. cbn in *.
    by rewrite <- (comment_rows_same _ st st').
  - intros H%Forall_fmap. eapply Forall_impl; [done|]. intros r Hr. cbn in *.
    rewrite (comment_rows_same _ st st') in Hr by done. by destruct (w r).
  - intros H%Forall_fmap. eapply Forall_impl; [done|]. intros r Hr. cbn in *.
    erewrite comment_rows_comment in Hr by (done || reflexivity).
    cbn [com_issue_id] in Hr. case_decide as E.
    + cbn in Hr. rewrite decide_True in Hr by done. lia.
    + rewrite decide_False in Hr by done. lia.
Qed.

Lemma counts_agree_run_before (cs : list call) (st st' : store) :
  run cs st = Some st' → counts_agree st' → counts_agree st.
Proof.
  revert st. induction cs as [|c cs IH]; intros st; cbn [run].
  - by intros [= <-].
  - destruct (exec c st) as [st1|e|] eqn:E; [|by apply IH|done].
    intros Hrun H. eapply counts_agree_before; [by apply exec_effect|]. by eapply IH.
Qed.

Lemma comment_rows_referenced (u : string) (st : store) :
  u ∈ com_issue_id <$> comments st → 0 < comment_rows u st.
Proof.
  intros (r & -> & Hr)%list_elem_of_fmap. unfold comment_rows, sql_count.
  assert (H : r ∈ filter (λ r', com_issue_id r' = com_issue_id r) (comments st))
    by by apply list_elem_of_filter.
  destruct (filter _ _); [by apply elem_of_nil in H|]. cbn [length]. lia.
Qed.

(** An issue stored under an id that comments reference already starts
    with a counter that is too low. *)
Lemma counts_drift_insert (u : string) (now : datetime) (p t d ty pr : string)
    (a l : option (list string)) (st st' : store) :
  create_issue u now p t d ty pr a l st = Ok (u, st') →
  u ∈ com_issue_id <$> comments st → ¬ counts_agree st'.
Proof.
  unfold create_issue. case_decide as Hid; [done|]. intros [= <-] Hu.
  unfold counts_agree. cbn [issues]. intros [_ H]%Forall_app.
  rewrite Forall_singleton in H. cbn in H.
  pose proof (comment_rows_referenced u st Hu) as Hpos.
  unfold comment_rows in *. cbn [comments] in H. lia.
Qed.

Lemma counts_agree_run (cs : list call) (st st' : store) :
  counts_agree st → run cs st = Some st' →
  counts_agree st' ↔ unreferenced_ids cs st = true.
Proof.
  revert st. induction cs as [|c cs IH]; intros st Hc; cbn [run unreferenced_ids].
  - by intros [= <-].
  - destruct (exec c st) as [st1|e|] eqn:E; [|by apply IH|done].
    intros Hrun. rewrite andb_true_iff.
    destruct c as [u now p t d ty pr a l| | | | | | |];
      try (rewrite <- IH; [tauto| |done];
           eapply counts_agree_effect; [done| |by apply exec_effect]; by intros).
    destruct (decide (u ∈ com_issue_id <$> comments st)) as [Hu|Hu].
    + rewrite bool_decide_eq_false_2 by tauto. split; [|by intros [? _]].
      intros H. exfalso. apply (counts_agree_run_before _ _ _ Hrun) in H.
      cbn [exec] in E. destruct (create_issue _ _ _ _ _ _ _ _ _ _) as [[i s1]| |] eqn:Ec;
        try done. cbn [store_of] in E. injection E as ->.
      assert (i = u) as ->.
      { revert Ec. unfold create_issue. case_decide; [done|]. by intros [= <- _]. }
      by eapply counts_drift_insert.
    + rewrite bool_decide_eq_true_2 by done. rewrite <- IH; [tauto| |done].
      eapply counts_agree_effect; [done| |by apply exec_effect].
      by intros ? ? ? ? ? ? ? ? ? [= <- _ _ _ _ _ _ _ _].
Qed.

Lemma get_comments_length (issue_id : string) (st : store) :
  Z.of_nat (length (get_comments issue_id st)) = comment_rows issue_id st.
Proof.
  unfold get_comments, comment_rows, sql_count.
  by rewrite length_fmap, order_by_length.
Qed.

(** C5, as amended.  After calls from a new database the counter of every
    stored issue is the number of rows of [comments] with its id exactly
    when no creation that succeeded drew an id that comments already
    referenced; the [comment_count] of every issue [get_issues] returns
    is then the number of its comments.  One further [comment] adds one
    row for the issue and one to the counter of the issue with that
    id. *)
Theorem comment_count_agrees (cs : list call) (st : store) :
  run cs init_db = Some st →
  (counts_agree st ↔ unreferenced_ids cs init_db = true)
  ∧ (unreferenced_ids cs init_db = true →
     ∀ project_id filters l,
       get_issues project_id filters st = Ok l →
       Forall (λ i, Issue.comment_count i
                    = Z.of_nat (length (get_comments (Issue.id i) st))) l)
  ∧ (∀ now issue_id user body,
       ∃ comment_id st',
         comment now issue_id user body st = Ok (comment_id, st')
         ∧ comment_rows issue_id st' = comment_rows issue_id st + 1
         ∧ Forall2 (λ r r', col_comment_count r'
                            = col_comment_count r
                              + (if decide (col_id r = issue_id) then 1 else 0))
             (issues st) (issues st')).
Proof.
  intros Hrun.
  assert (Hiff : counts_agree st ↔ unreferenced_ids cs init_db = true).
  { apply counts_agree_run; [apply Forall_nil_2|done]. }
  split; [done|]. split.
  - intros Hu p f l Hl. apply Hiff in Hu as Hc.
    destruct (get_issues_rows p f st (run_lists_encoded cs st Hrun)) as (l' & Hl' & Hrows).
    rewrite Hl in Hl'. inversion Hl'; subst l'; clear Hl'.
    apply Forall_forall. intros i Hi.
    apply list_elem_of_lookup in Hi as [n Hn].
    destruct (Forall2_lookup_r _ _ _ _ _ Hrows Hn) as (r & Hr & Hri).
    apply issue_of_row_Some in Hri as (-> & _ & _ & _ & _ & _ & -> & _).
    rewrite get_comments_length.
    apply list_elem_of_lookup_2, list_elem_of_filter in Hr as [_ Hr].
    unfold counts_agree in Hc. rewrite Forall_forall in Hc. by apply Hc.
  - intros now i u b. eexists _, _. split; [reflexivity|]. split.
    + erewrite comment_rows_comment by (cbn; reflexivity). by rewrite decide_True.
    + cbn [issues]. apply Forall2_fmap_self. intros r. case_decide; cbn; lia.
Qed.

(** Against C5 as stated: a comment on an id that no issue has, then an
    issue created under that id.  The issue is stored with the counter 0
    and [get_comments] returns one comment for it. *)
Lemma comment_count_drifts :
  run orphan_then_create init_db = Some (store_after orphan_then_create)
  ∧ col_id <$> issues (store_after orphan_then_create) = ["deadbeef"]
  ∧ col_comment_count <$> issues (store_after orphan_then_create) = [0]
  ∧ length (get_comments "deadbeef" (store_after orphan_then_create)) = 1%nat
  ∧ comment_rows "deadbeef" (store_after orphan_then_create) = 1.
Proof. repeat split; vm_compute; reflexivity. Qed.

(** ** get_cycle_analytics *)

Lemma sum_from_Some (acc s : Z) (l : list Z) :
  sum_from acc l = Some s → s = acc + foldr Z.add 0 l.
Proof.
  revert acc. induction l as [|z l IH]; intros acc; cbn [sum_from foldr].
  - intros [= <-]. lia.
  - destruct (int64 (acc + z)); [|done]. intros H%IH. lia.
Qed.

Lemma or0_sql_sum (l : list Z) (o : option Z) :
  sql_sum l = Some o → or0 o = foldr Z.add 0 l.
Proof.
  destruct l as [|z l]; [by intros [= <-]|]. unfold sql_sum.
  destruct (sum_from 0 (z :: l)) as [s|] eqn:E; [|done]. cbn. intros [= <-].
  apply sum_from_Some in E. cbn [foldr] in *. unfold or0. case_decide; lia.
Qed.

Lemma sum_indicator {A} (P : A → Prop) `{!∀ x, Decision (P x)} (l : list A) :
  foldr Z.add 0 ((λ x, if decide (P x) then 1 else 0) <$> l)
  = Z.of_nat (length (filter P l)).
Proof.
  induction l as [|x l IH]; [done|]. rewrite fmap_cons, filter_cons. cbn [foldr].
  rewrite IH. case_decide; cbn [length]; lia.
Qed.

Lemma get_cycle_analytics_counts (cycle_id : string) (st : store) (a : cycle_analytics) :
  get_cycle_analytics cycle_id st = Ok a →
  total_issues a = Z.of_nat (length (filter (in_cycle cycle_id) (issues st)))
  ∧ completed a
    = Z.of_nat (length (filter (λ r, col_status r = "done")
                          (filter (in_cycle cycle_id) (issues st))))
  ∧ remaining a = total_issues a - completed a
  ∧ remaining_points a
    = foldr Z.add 0 ((λ r, default 1 (col_estimate_points r))
                       <$> filter (λ r, col_status r ≠ "done")
                             (filter (in_cycle cycle_id) (issues st)))
  ∧ (total_issues a = 0 → progress_pct a = 0)
  ∧ (0 < total_issues a →
     py_int (ratio_times_100 (completed a) (total_issues a)) = Some (progress_pct a)).
Proof.
  unfold get_cycle_analytics. set (rows := filter (in_cycle cycle_id) (issues st)).
  destruct (sql_sum (_ <$> rows)) as [c|] eqn:Ec; [|done].
  destruct (sql_sum (_ <$> filter _ rows)) as [pts|] eqn:Es; [|done].
  apply or0_sql_sum in Ec, Es. rewrite sum_indicator in Ec. rewrite Ec, Es.
  destruct (2 ^ 53 <=? sql_count rows); [done|].
  destruct (0 <? sql_count rows) eqn:E.
  - destruct (py_int _) as [p|] eqn:Ep; [|done]. intros [= <-].
    cbn. apply Z.ltb_lt in E. unfold sql_count in *.
    do 4 (split; [done|]). split; [lia|done].
  - intros [= <-]. cbn. apply Z.ltb_ge in E. unfold sql_count in *.
    do 4 (split; [done|]). split; [done|lia].
Qed.

Example progress_1_of_3 : py_int (ratio_times_100 1 3) = Some 33.
Proof. reflexivity. Qed.

Example progress_1_of_2 : py_int (ratio_times_100 1 2) = Some 50.
Proof. reflexivity. Qed.

(** C3.  A cycle of 50 issues, 29 of them done: the counts are 50, 29 and
    21, the remaining points 21, and [progress_pct] is 57, where
    [completed / total * 100] rounded down is 58: the quotient 0.58 is no
    binary float, and the product of the float below it by 100 is below
    58. *)
Theorem cycle_analytics_29_of_50 :
  run (sprint 50 29) init_db = Some (store_after (sprint 50 29))
  ∧ get_cycle_analytics "c" (store_after (sprint 50 29))
    = Ok {| total_issues := 50; completed := 29; remaining := 21;
            progress_pct := 57; remaining_points := 21 |}
  ∧ progress_pct_spec 29 50 = 58.
Proof. split; [|split]; vm_compute; reflexivity. Qed.

(** ** The theorems at concrete calls *)

Ltac computed := vm_compute; reflexivity.
Ltac decided :=
  lazymatch goal with
  | |- ?P => apply (@bool_decide_unpack P _); vm_compute; exact I
  end.

Lemma create_issue_sequence_ids_witness :
  assigned "proj-1" two_projects init_db = [Some 1; Some 2]
  ∧ assigned "proj-2" two_projects init_db = [Some 1]
  ∧ ∃ st', create_issue "a4" 13 "proj-2" "D" "" "task" "medium" None None
             (store_after two_projects) = Ok ("a4", st')
           ∧ sequence_id_of "a4" st' = Some 2.
Proof.
  split; [|split].
  - rewrite (proj1 (create_issue_sequence_ids "proj-1" two_projects)). computed.
  - rewrite (proj1 (create_issue_sequence_ids "proj-2" two_projects)). computed.
  - destruct (proj2 (create_issue_sequence_ids "proj-2" two_projects)
                (store_after two_projects) eq_refl
                "a4" 13 "D" "" "task" "medium" None None)
      as (st' & Hc & Hs & _); [decided|].
    exists st'. split; [exact Hc|]. rewrite Hs. computed.
Defined.

Lemma update_issue_returns_witness :
  update_issue 5 "nope" {[ "status" := PStr "done" ]} (store_after two_projects)
  = Ok (true, store_after two_projects)
  ∧ update_issue 5 "a1" {[ "nonexistent_field" := PStr "x" ]} (store_after two_projects)
    = Ok (false, store_after two_projects)
  ∧ update_issue 5 "a1" {[ "estimate_points" := PInt (2 ^ 63) ]} (store_after two_projects)
    = Raise OverflowError
  ∧ update_issue 13 "a2" {[ "status" := PStr "done" ]} (store_after two_projects)
    = Ok (true, store_after (two_projects
                             ++ [UpdateIssue 13 "a2" {[ "status" := PStr "done" ]}]))
  ∧ update_applied 13 "a2" {[ "status" := PStr "done" ]} (store_after two_projects)
      (store_after (two_projects ++ [UpdateIssue 13 "a2" {[ "status" := PStr "done" ]}]))
  ∧ (λ r, (col_id r, col_status r, col_updated_at r))
      <$> issues (store_after (two_projects
                               ++ [UpdateIssue 13 "a2" {[ "status" := PStr "done" ]}]))
    = [("a1", "backlog", 10); ("a2", "done", 13); ("a3", "backlog", 12)].
Proof.
  split; [|split; [|split; [|split; [|split]]]].
  - destruct (proj1 (proj2 (update_issue_returns 5 "nope" {[ "status" := PStr "done" ]}
                              (store_after two_projects))))
      as [_ Hok].
    + exists "status". split; [decided|]. by eexists.
    + computed.
    + destruct Hok as (st' & Hu & _ & Hsame); [computed|].
      rewrite Hu, Hsame; [reflexivity|decided].
  - apply (proj1 (update_issue_returns 5 "a1" {[ "nonexistent_field" := PStr "x" ]}
                    (store_after two_projects))).
    intros k Hk. apply lookup_singleton_ne. intros <-. revert Hk. decided.
  - destruct (proj1 (proj2 (update_issue_returns 5 "a1"
                              {[ "estimate_points" := PInt (2 ^ 63) ]}
                              (store_after two_projects))))
      as [Hraise _].
    + exists "estimate_points". split; [decided|]. by eexists.
    + computed.
    + apply Hraise. computed.
  - computed.
  - assert (Hu : update_issue 13 "a2" {[ "status" := PStr "done" ]}
                   (store_after two_projects)
                 = Ok (true, store_after (two_projects
                         ++ [UpdateIssue 13 "a2" {[ "status" := PStr "done" ]}])))
      by computed.
    destruct (proj2 (proj2 (update_issue_returns 13 "a2" {[ "status" := PStr "done" ]}
                              (store_after two_projects))) true _ Hu)
      as (_ & _ & Ha).
    by apply Ha.
  - computed.
Defined.

(** Against C2 as stated: an estimate that no INTEGER of the store holds,
    passed under its allow-listed name for an id that no issue has.  The
    call raises when the value is bound and does not report true. *)
Lemma update_issue_unbindable :
  run two_projects init_db = Some (store_after two_projects)
  ∧ ("nope" ∉ col_id <$> issues (store_after two_projects))
  ∧ ("estimate_points" ∈ allowed_fields)
  ∧ field_ok "estimate_points" (PInt (2 ^ 63)) = true
  ∧ update_issue 5 "nope" {[ "estimate_points" := PInt (2 ^ 63) ]}
      (store_after two_projects)
    = Raise OverflowError.
Proof.
  split; [computed|]. split; [decided|]. split; [decided|]. split; computed.
Qed.

Lemma get_issues_filters_witness :
  run alice_and_bob init_db = Some (store_after alice_and_bob)
  ∧ ∃ l, get_issues "proj-1" (Some {[ "assignee" := "alice" ]}) (store_after alice_and_bob)
         = Ok l
         ∧ Issue.id <$> l = ["a1"] ∧ Issue.assignees <$> l = [["alice"]].
Proof.
  split; [computed|].
  destruct (get_issues_filters alice_and_bob (store_after alice_and_bob) "proj-1"
              (Some {[ "assignee" := "alice" ]}) eq_refl) as (l & Hl & _).
  exists l. split; [exact Hl|].
  assert (Hv : get_issues "proj-1" (Some {[ "assignee" := "alice" ]})
                 (store_after alice_and_bob)
               = Ok (default [] (mapM issue_of_row
                                   (filter (λ r, col_id r = "a1")
                                      (issues (store_after alice_and_bob))))))
    by computed.
  rewrite Hl in Hv. injection Hv as ->. split; computed.
Defined.

(** Against C4 as stated: ALICE is no substring of the list stored for the
    issue of alice, and [get_issues] returns that issue all the same. *)
Lemma get_issues_ignores_case :
  run alice_and_bob init_db = Some (store_after alice_and_bob)
  ∧ returned_ids (get_issues "proj-1" (Some {[ "assignee" := "ALICE" ]})
                  (store_after alice_and_bob)) = Ok ["a1"]
  ∧ returned_ids (get_issues_spec "proj-1" (Some {[ "assignee" := "ALICE" ]})
                    (store_after alice_and_bob)) = Ok []
  ∧ col_assignees <$> issues (store_after alice_and_bob)
    = [Json.dumps ["alice"]; Json.dumps ["bob"]]
  ∧ substring_of "ALICE" (Json.dumps ["alice"]) = false
  ∧ Like.matches "ALICE" (Json.dumps ["alice"]) = true.
Proof. repeat split; computed. Qed.

Lemma comment_count_agrees_witness :
  run taken_id_drawn init_db = Some (store_after taken_id_drawn)
  ∧ unreferenced_ids taken_id_drawn init_db = true
  ∧ counts_agree (store_after taken_id_drawn)
  ∧ col_comment_count <$> issues (store_after taken_id_drawn) = [2]
  ∧ length (get_comments "a1" (store_after taken_id_drawn)) = 2%nat.
Proof.
  split; [computed|]. split; [computed|]. split.
  - destruct (comment_count_agrees taken_id_drawn (store_after taken_id_drawn))
      as [Hiff _]; [computed|].
    apply Hiff. computed.
  - split; computed.
Defined.

Lemma bulk_update_spec_witness :
  pk_unique (store_after three_issues)
  ∧ ∃ st',
      bulk_update 30 ["a1"; "a2"; "a3"] {[ "status" := PStr "in_progress" ]}
        (store_after three_issues) = Ok (3, st').
Proof.
  assert (Hpk : pk_unique (store_after three_issues)).
  { apply (run_pk_unique three_issues). computed. }
  split; [exact Hpk|].
  destruct (proj1 (proj2 (proj2 (bulk_update_spec 30 ["a1"; "a2"; "a3"]
                                   {[ "status" := PStr "in_progress" ]}
                                   (store_after three_issues)))))
    as (st' & Hb & _ & _ & _ & _ & _ & Hn).
  - done.
  - exists "status". split; [decided|]. by eexists.
  - computed.
  - exists st'. rewrite Hn in Hb; [exact Hb|exact Hpk|decided|].
    intros i Hi. revert i Hi. apply Forall_forall. decided.
Defined.

(** The three issues, and only they, have the new status afterwards. *)
Example bulk_update_three :
  returned_ids
    (get_issues "proj-1" (Some {[ "status" := "in_progress" ]})
       (store_after (three_issues ++
          [BulkUpdate 30 ["a1"; "a2"; "a3"] {[ "status" := PStr "in_progress" ]}])))
  = Ok ["a1"; "a2"; "a3"]
  ∧ bulk_update 30 [] {[ "status" := PStr "done" ]} (store_after three_issues)
    = Ok (0, store_after three_issues).
Proof. split; computed. Qed.

Lemma update_issue_frame_witness :
  update_issue 13 "a2" {[ "status" := PStr "done"; "bogus" := PInt 3 ]}
    (store_after two_projects)
  = Ok (true, store_after (two_projects ++
                [UpdateIssue 13 "a2" {[ "status" := PStr "done"; "bogus" := PInt 3 ]}]))
  ∧ Forall2 (λ r r', if decide (col_id r = "a2")
                     then updated_row allowed_fields 13
                            {[ "status" := PStr "done"; "bogus" := PInt 3 ]} r r'
                     else r' = r)
      (issues (store_after two_projects))
      (issues (store_after (two_projects ++
                 [UpdateIssue 13 "a2" {[ "status" := PStr "done"; "bogus" := PInt 3 ]}]))).
Proof.
  assert (Hu : update_issue 13 "a2" {[ "status" := PStr "done"; "bogus" := PInt 3 ]}
                 (store_after two_projects)
               = Ok (true, store_after (two_projects ++
                       [UpdateIssue 13 "a2" {[ "status" := PStr "done"; "bogus" := PInt 3 ]}])))
    by computed.
  split; [exact Hu|]. apply (update_issue_frame _ _ _ _ _ Hu).
Defined.


Lemma get_comments_ordered_witness :
  get_comments "a1" (store_after two_comments)
  = [ {| d_id := 1; d_user := "alice"; d_body := "First"; d_created_at := 20 |};
      {| d_id := 2; d_user := "bob"; d_body := "Second"; d_created_at := 21 |} ].
Proof.
  rewrite (proj1 (proj2 (proj2 (get_comments_ordered "a1" (store_after two_comments)))));
    [computed|].
  replace (filter _ _)
    with [ {| com_id := 1; com_issue_id := "a1"; com_user := "alice";
              com_body := "First"; com_created_at := 20 |};
           {| com_id := 2; com_issue_id := "a1"; com_user := "bob";
              com_body := "Second"; com_created_at := 21 |} ] by computed.
  repeat constructor. cbn. lia.
Defined.

(** Against C9 as stated: two comments on one issue, the clock set back
    before the second.  [get_comments] returns the second, which has the
    higher id, before the first. *)
Lemma get_comments_clock_set_back :
  run clock_set_back init_db = Some (store_after clock_set_back)
  ∧ (λ r, (com_id r, com_user r, com_created_at r))
      <$> comments (store_after clock_set_back)
    = [(1, "alice", 21); (2, "bob", 20)]
  ∧ get_comments "a1" (store_after clock_set_back)
    = [ {| d_id := 2; d_user := "bob"; d_body := "Second"; d_created_at := 20 |};
        {| d_id := 1; d_user := "alice"; d_body := "First"; d_created_at := 21 |} ].
Proof. repeat split; computed. Qed.

Lemma comment_unknown_issue_witness :
  ("ghost" ∉ col_id <$> issues (store_after two_projects))
  ∧ ∃ comment_id st',
      comment 30 "ghost" "alice" "x" (store_after two_projects) = Ok (comment_id, st')
      ∧ issues st' = issues (store_after two_projects)
      ∧ {| d_id := comment_id; d_user := "alice"; d_body := "x"; d_created_at := 30 |}
        ∈ get_comments "ghost" st'.
Proof.
  assert (H : "ghost" ∉ col_id <$> issues (store_after two_projects)) by decided.
  split; [exact H|].
  destruct (comment_unknown_issue 30 "ghost" "alice" "x" (store_after two_projects) H)
    as (c & st' & Hc & _ & Hi & Hg).
  eauto.
Defined.

(** ** The scenarios of the test suite *)

Example dumps_alice_bob :
  Json.dumps ["alice"; "bob"]
  = String "[" (String dquote ("alice" +:+ String dquote (", " +:+
      String dquote ("bob" +:+ String dquote "]")))).
Proof. reflexivity. Qed.

Example dumps_escapes :
  Json.dumps [String dquote (String backslash (String "010" (String "233" "")))]
  = String "[" (String dquote (String backslash (String dquote (String backslash
      (String backslash (String backslash ("n" +:+ String backslash ("u00e9" +:+
         String dquote "]")))))))).
Proof. reflexivity. Qed.

Example like_one_character :
  Like.matches "a_ice" (Json.dumps ["alice"]) = true
  ∧ Like.matches "bob" (Json.dumps ["alice"]) = false
  ∧ Like.matches "ce%al" (Json.dumps ["alice"; "alan"]) = true.
Proof. repeat split; reflexivity. Qed.

Example create_issue_defaults :
  (λ i, (Issue.status i, Issue.priority i, Issue.type i))
    <$> default [] (mapM issue_of_row (issues (store_after
          [CreateIssue "a1" 10 "proj-1" "Task A" "" "task" "medium" None None])))
  = [("backlog", "medium", "task")].
Proof. computed. Qed.

Example cycle_analytics_one_issue :
  get_cycle_analytics "c" (store_after (sprint 1 0))
  = Ok {| total_issues := 1; completed := 0; remaining := 1;
          progress_pct := 0; remaining_points := 1 |}.
Proof. computed. Qed.

Example cycle_analytics_one_of_two :
  get_cycle_analytics "c" (store_after (sprint 2 1))
  = Ok {| total_issues := 2; completed := 1; remaining := 1;
          progress_pct := 50; remaining_points := 1 |}.
Proof. computed. Qed.

Example cycle_analytics_one_of_three :
  get_cycle_analytics "c" (store_after (sprint 3 1))
  = Ok {| total_issues := 3; completed := 1; remaining := 2;
          progress_pct := 33; remaining_points := 2 |}.
Proof. computed. Qed.

Example cycle_analytics_empty :
  get_cycle_analytics "none" (store_after (sprint 3 1))
  = Ok {| total_issues := 0; completed := 0; remaining := 0;
          progress_pct := 0; remaining_points := 0 |}.
Proof. computed. Qed.

(** An estimate that no INTEGER holds is refused when it is bound, and two
    estimates whose sum none holds make the second query fail. *)
Example update_issue_overflow :
  update_issue 20 "a1" {[ "estimate_points" := PInt (2 ^ 63) ]} (store_after two_projects)
  = Raise OverflowError.
Proof. computed. Qed.

Example cycle_analytics_overflow :
  get_cycle_analytics "c"
    (store_after (sprint 2 0 ++
       [ UpdateIssue 200 (issue_key 0) {[ "estimate_points" := PInt (2 ^ 62) ]};
         UpdateIssue 201 (issue_key 1) {[ "estimate_points" := PInt (2 ^ 62) ]} ]))
  = Raise OperationalError.
Proof. computed. Qed.

(** ** The tables a call leaves alone *)

(** A cycle as [create_cycle] inserts it, and a module as [create_module]
    does: the columns the INSERT does not name hold their DEFAULT. *)
Lemma exec_cycles (c : call) (st st' : store) :
  exec c st = Ok st' →
  cycles st' = cycles st
  ∨ ∃ u p n s e,
      c = CreateCycle u p n s e ∧ (u ∉ cyc_id <$> cycles st)
      ∧ cycles st' = cycles st ++
          [{| cyc_id := u; cyc_project_id := p; cyc_name := n;
              cyc_status := "planned"; cyc_start_date := s; cyc_end_date := e;
              cyc_issues_count := 0; cyc_completed_count := 0; cyc_progress := 0 |}].
Proof.
  destruct c; cbn [exec].
  - unfold create_issue. case_decide; [done|]. intros [= <-]. by left.
  - unfold update_issue. case_decide; [intros [= <-]; by left|].
    destruct (well_typed _); [|done]. cbn [negb].
    destruct (bindable _); [|done]. cbn. intros [= <-]. by left.
  - unfold bulk_update. case_decide; [intros [= <-]; by left|].
    case_decide; [intros [= <-]; by left|].
    destruct (well_typed _); [|done]. cbn [negb].
    destruct (bindable _); [|done]. cbn. intros [= <-]. by left.
  - unfold create_cycle. case_decide; [done|]. intros [= <-]. right. eauto 10.
  - intros [= <-]. by left.
  - unfold create_module. case_decide; [done|]. intros [= <-]. by left.
  - intros [= <-]. by left.
  - intros [= <-]. by left.
Qed.

Lemma exec_modules (c : call) (st st' : store) :
  exec c st = Ok st' →
  modules st' = modules st
  ∨ ∃ u p n d,
      c = CreateModule u p n d ∧ (u ∉ mod_id <$> modules st)
      ∧ modules st' = modules st ++
          [{| mod_id := u; mod_project_id := p; mod_name := n;
              mod_description := d; mod_status := "planned"; mod_lead := None;
              mod_members := None; mod_issues_count := 0 |}].
Proof.
  destruct c; cbn [exec].
  - unfold create_issue. case_decide; [done|]. intros [= <-]. by left.
  - unfold update_issue. case_decide; [intros [= <-]; by left|].
    destruct (well_typed _); [|done]. cbn [negb].
    destruct (bindable _); [|done]. cbn. intros [= <-]. by left.
  - unfold bulk_update. case_decide; [intros [= <-]; by left|].
    case_decide; [intros [= <-]; by left|].
    destruct (well_typed _); [|done]. cbn [negb].
    destruct (bindable _); [|done]. cbn. intros [= <-]. by left.
  - unfold create_cycle. case_decide; [done|]. intros [= <-]. by left.
  - intros [= <-]. by left.
  - unfold create_module. case_decide; [done|]. intros [= <-]. right. eauto 10.
  - intros [= <-]. by left.
  - intros [= <-]. by left.
Qed.

Lemma exec_comments (c : call) (st st' : store) :
  exec c st = Ok st' →
  (comments st' = comments st ∧ comments_seq st' = comments_seq st)
  ∨ ∃ now i u b,
      c = Comment now i u b
      ∧ comments st' = comments st ++
          [{| com_id := next_comment_id st; com_issue_id := i; com_user := u;
              com_body := b; com_created_at := now |}]
      ∧ comments_seq st' = next_comment_id st.
Proof.
  destruct c; cbn [exec].
  - unfold create_issue. case_decide; [done|]. intros [= <-]. by left.
  - unfold update_issue. case_decide; [intros [= <-]; by left|].
    destruct (well_typed _); [|done]. cbn [negb].
    destruct (bindable _); [|done]. cbn. intros [= <-]. by left.
  - unfold bulk_update. case_decide; [intros [= <-]; by left|].
    case_decide; [intros [= <-]; by left|].
    destruct (well_typed _); [|done]. cbn [negb].
    destruct (bindable _); [|done]. cbn. intros [= <-]. by left.
  - unfold create_cycle. case_decide; [done|]. intros [= <-]. by left.
  - intros [= <-]. by left.
  - unfold create_module. case_decide; [done|]. intros [= <-]. by left.
  - intros [= <-]. by left.
  - intros [= <-]. right. eauto 10.
Qed.

(** A relation between the store before and the store after that every
    call keeps and that composes holds along any sequence of calls. *)
Lemma run_relation (R : store → store → Prop) (cs : list call) (st st' : store) :
  (∀ s, R s s) → (∀ s1 s2 s3, R s1 s2 → R s2 s3 → R s1 s3) →
  (∀ c s s', exec c s = Ok s' → R s s') →
  run cs st = Some st' → R st st'.
Proof.
  intros Hrefl Htrans Hstep. revert st.
  induction cs as [|c cs IH]; intros st; cbn [run].
  - intros [= <-]. apply Hrefl.
  - destruct (exec c st) as [st1|e|] eqn:E; [|by apply IH|done].
    intros Hrun. eapply Htrans; [by eapply Hstep|by apply IH].
Qed.


Lemma run_cycles_modules (cs : list call) (st st' : store) :
  run cs st = Some st' →
  ∃ cyc mods,
    cycles st' = cycles st ++ cyc ∧ Forall new_cycle cyc
    ∧ modules st' = modules st ++ mods ∧ Forall new_module mods.
Proof.
  apply (run_relation (λ s s', ∃ cyc mods,
           cycles s' = cycles s ++ cyc ∧ Forall new_cycle cyc
           ∧ modules s' = modules s ++ mods ∧ Forall new_module mods)).
  - intros s. exists [], []. by rewrite !app_nil_r.
  - intros s1 s2 s3 (c1 & m1 & Hc1 & Hf1 & Hm1 & Hg1) (c2 & m2 & Hc2 & Hf2 & Hm2 & Hg2).
    exists (c1 ++ c2), (m1 ++ m2).
    rewrite Hc2, Hc1, Hm2, Hm1, !app_assoc, !Forall_app. done.
  - intros c s s' He.
    destruct (exec_cycles c s s' He) as [Hc|(u & p & n & b & e & _ & _ & Hc)];
      destruct (exec_modules c s s' He) as [Hm|(u' & p' & n' & d & _ & _ & Hm)].
    + exists [], []. by rewrite Hc, Hm, !app_nil_r.
    + eexists [], [_]. rewrite Hc, Hm, app_nil_r.
      split; [done|]. split; [done|]. split; [done|]. by apply Forall_singleton.
    + eexists [_], []. rewrite Hc, Hm, app_nil_r.
      split; [done|]. split; [by apply Forall_singleton|]. done.
    + eexists [_], [_]. rewrite Hc, Hm.
      split; [done|]. split; [by apply Forall_singleton|].
      split; [done|]. by apply Forall_singleton.
Qed.

(** The rows that join [cycles] and [modules] along calls are rows of
    the calls of [create_cycle] and [create_module] among them, in the
    order of the calls: a call that raises leaves none. *)
Lemma run_created (cs : list call) (st st' : store) :
  run cs st = Some st' →
  ∃ cyc mods,
    cycles st' = cycles st ++ cyc ∧ cyc `sublist_of` omap cycle_of_call cs
    ∧ modules st' = modules st ++ mods ∧ mods `sublist_of` omap module_of_call cs.
Proof.
  revert st. induction cs as [|c cs IH]; intros st; cbn [run].
  - intros [= <-]. exists [], []. by rewrite !app_nil_r.
  - destruct (exec c st) as [st1|e|] eqn:E; [| |done].
    + intros (cyc & mods & Hc & Hcs & Hm & Hms)%IH.
      destruct (exec_cycles c st st1 E) as [Hc1|(u & p & n & b & e & Hcall & _ & Hc1)];
        destruct (exec_modules c st st1 E) as [Hm1|(u' & p' & n' & d & Hcall' & _ & Hm1)].
      * exists cyc, mods. rewrite Hc, Hc1, Hm, Hm1. cbn [omap list_omap].
        split; [done|]. split; [|split; [done|]].
        -- destruct (cycle_of_call c); [by apply sublist_cons|done].
        -- destruct (module_of_call c); [by apply sublist_cons|done].
      * subst c. eexists cyc, (_ :: mods). rewrite Hc, Hc1, Hm, Hm1, <- app_assoc.
        cbn [omap list_omap cycle_of_call module_of_call app].
        split; [done|]. split; [done|]. split; [done|]. by apply sublist_skip.
      * subst c. eexists (_ :: cyc), mods. rewrite Hc, Hc1, Hm, Hm1, <- app_assoc.
        cbn [omap list_omap cycle_of_call module_of_call app].
        split; [done|]. split; [by apply sublist_skip|]. done.
      * by rewrite Hcall in Hcall'.
    + intros (cyc & mods & Hc & Hcs & Hm & Hms)%IH.
      exists cyc, mods. cbn [omap list_omap].
      split; [done|]. split; [|split; [done|]].
      * destruct (cycle_of_call c); [by apply sublist_cons|done].
      * destruct (module_of_call c); [by apply sublist_cons|done].
Qed.

Lemma new_cycle_of_call (cs : list call) : Forall new_cycle (omap cycle_of_call cs).
Proof.
  apply Forall_forall. intros r (c & _ & Hr)%list_elem_of_omap.
  destruct c; try done. injection Hr as <-. by repeat split.
Qed.

Lemma new_module_of_call (cs : list call) : Forall new_module (omap module_of_call cs).
Proof.
  apply Forall_forall. intros r (c & _ & Hr)%list_elem_of_omap.
  destruct c; try done. injection Hr as <-. by repeat split.
Qed.

(** Nothing but [create_cycle] writes to [cycles] and nothing but
    [create_module] to [modules], and both only insert: along any calls
    the rows a table held stay as they were, and the rows that join it
    are, in the order of the calls, rows of the calls of [create_cycle]
    (of [create_module]) among them, none when there is no such call.
    Each holds what its call passed and, outside the columns its INSERT
    names, the defaults of the schema: no call maintains [issues_count],
    [completed_count] or [progress], whatever issues are put into the
    cycle or the module and whatever becomes of them. *)
Theorem cycles_and_modules_insert_only (cs : list call) (st st' : store) :
  run cs st = Some st' →
  ∃ cyc mods,
    cycles st' = cycles st ++ cyc
    ∧ cyc `sublist_of` omap cycle_of_call cs ∧ Forall new_cycle cyc
    ∧ modules st' = modules st ++ mods
    ∧ mods `sublist_of` omap module_of_call cs ∧ Forall new_module mods.
Proof.
  intros (cyc & mods & Hc & Hcs & Hm & Hms)%run_created.
  exists cyc, mods. repeat split; try done.
  - apply Forall_forall. intros r Hr.
    eapply (proj1 (Forall_forall _ _) (new_cycle_of_call cs)), elem_of_sublist; done.
  - apply Forall_forall. intros r Hr.
    eapply (proj1 (Forall_forall _ _) (new_module_of_call cs)), elem_of_sublist; done.
Qed.

Lemma run_invariant_exec (I : store → Prop) (cs : list call) (st st' : store) :
  (∀ c s s', I s → exec c s = Ok s' → I s') →
  I st → run cs st = Some st' → I st'.
Proof.
  intros Hstep. revert st. induction cs as [|c cs IH]; intros st HI; cbn [run].
  - by intros [= <-].
  - destruct (exec c st) as [st1|e|] eqn:E; [|by apply IH|done].
    apply IH. by eapply Hstep.
Qed.

(** ** The ids of comments *)

Lemma next_comment_id_count (st : store) :
  com_id <$> comments st = Z.of_nat <$> seq 1 (length (comments st)) →
  comments_seq st = Z.of_nat (length (comments st)) →
  next_comment_id st = Z.of_nat (length (comments st)) + 1.
Proof.
  intros Hids Hseq. unfold next_comment_id. rewrite Hids, Hseq, foldr_max_seq.
  case_decide; lia.
Qed.

Lemma comment_ids_run (cs : list call) (st : store) :
  run cs init_db = Some st →
  com_id <$> comments st = Z.of_nat <$> seq 1 (length (comments st))
  ∧ comments_seq st = Z.of_nat (length (comments st)).
Proof.
  apply (run_invariant_exec (λ s,
    com_id <$> comments s = Z.of_nat <$> seq 1 (length (comments s))
    ∧ comments_seq s = Z.of_nat (length (comments s)))); [|done].
  intros c s s' [Hids Hseq] He.
  destruct (exec_comments c s s' He) as [[-> ->]|(now & i & u & b & _ & Hc & Hs)]; [done|].
  rewrite Hc, Hs, fmap_app, length_app, Hids. cbn [length fmap list_fmap com_id].
  rewrite next_comment_id_count by done.
  rewrite Nat.add_1_r, seq_S, fmap_app. cbn. split; [f_equal; f_equal|]; lia.
Qed.

(** The ids of comments count up from 1 over the whole database: after
    any calls on a new database the table holds the ids 1, ..., n in the
    order of insertion, and the next [comment], on whatever issue, returns
    n + 1. *)
Theorem comment_ids_count_up (cs : list call) (st : store) :
  run cs init_db = Some st →
  com_id <$> comments st = Z.of_nat <$> seq 1 (length (comments st))
  ∧ ∀ now issue_id user body,
      ∃ st', comment now issue_id user body st
             = Ok (Z.of_nat (length (comments st)) + 1, st')
             ∧ length (comments st') = S (length (comments st)).
Proof.
  intros [Hids Hseq]%comment_ids_run. split; [done|].
  intros now i u b. eexists. unfold comment.
  rewrite next_comment_id_count by done. split; [reflexivity|].
  cbn [comments]. rewrite length_app. cbn. lia.
Qed.

(** ** What stays of an issue *)

Local Instance same_issue_refl : Reflexive same_issue.
Proof. intros r. unfold same_issue. repeat split; lia. Qed.

Local Instance same_issue_trans : Transitive same_issue.
Proof.
  intros r1 r2 r3. unfold same_issue. intros ? ?. destruct_and!.
  repeat split; try congruence. lia.
Qed.

Lemma same_issue_never_set (r r' : issue_row) :
  same_issue r r' → never_set r → never_set r'.
Proof. unfold same_issue, never_set. intros ? ?. destruct_and!. repeat split; congruence. Qed.

Lemma same_issue_set_columns (U : gmap string pyval) (r : issue_row) :
  same_issue r (set_columns U r).
Proof. unfold same_issue. cbn. repeat split; lia. Qed.

Lemma same_issue_bump (r : issue_row) : same_issue r (bump_comment_count r).
Proof. unfold same_issue. cbn. repeat split; lia. Qed.

Lemma Forall2_same_issue_fmap (f : issue_row → issue_row) (l : list issue_row) :
  (∀ r, same_issue r (f r)) → Forall2 same_issue l (f <$> l).
Proof. intros Hf. apply Forall2_fmap_r, Forall2_same_length_lookup_2; [done|].
  intros i x y Hx Hy. assert (x = y) as -> by congruence. apply Hf.
Qed.

(** No call removes an issue or moves it in the table, and no call
    changes its id, workspace, project, sequence number, type, creator,
    creation time or counters of links and attachments; its counter of
    comments never goes down.  Every issue that the calls create has the
    workspace [default], no creator and no links or attachments, and keeps
    them. *)
Theorem issues_persist (cs : list call) (st st' : store) :
  run cs st = Some st' →
  ∃ rows new,
    issues st' = rows ++ new
    ∧ Forall2 same_issue (issues st) rows
    ∧ Forall never_set new.
Proof.
  apply (run_relation (λ s s', ∃ rows new,
           issues s' = rows ++ new ∧ Forall2 same_issue (issues s) rows
           ∧ Forall never_set new)).
  - intros s. exists (issues s), []. rewrite app_nil_r.
    split; [done|]. split; [reflexivity|done].
  - intros s1 s2 s3 (rows1 & new1 & H1 & Hr1 & Hn1) (rows2 & new2 & H2 & Hr2 & Hn2).
    rewrite H1 in Hr2. apply Forall2_app_inv_l in Hr2 as (ra & rb & Hra & Hrb & ->).
    exists ra, (rb ++ new2). rewrite H2, <- app_assoc. split; [done|]. split.
    + by etrans.
    + apply Forall_app. split; [|done].
      rewrite Forall_forall in Hn1. apply Forall_forall. intros r' Hr'.
      apply list_elem_of_lookup in Hr' as [i Hi].
      destruct (Forall2_lookup_r _ _ _ _ _ Hrb Hi) as (r & Hr & Hs).
      eapply same_issue_never_set; [done|]. apply Hn1. by eapply list_elem_of_lookup_2.
  - intros c s s' He%exec_effect.
    destruct He as [u now q t d ty pr a l -> Hu Hi Hc|U w Hn HU Hi Hc|now i u b -> Hi Hc].
    + eexists (issues s), [_]. split; [done|]. split; [reflexivity|].
      by apply Forall_singleton.
    + eexists _, []. rewrite app_nil_r. split; [done|]. split; [|done].
      apply Forall2_same_issue_fmap. intros r. destruct (w r);
        [apply same_issue_set_columns|reflexivity].
    + eexists _, []. rewrite app_nil_r. split; [done|]. split; [|done].
      apply Forall2_same_issue_fmap. intros r. case_decide;
        [apply same_issue_bump|reflexivity].
Qed.

(** ** More on get_issues *)

Lemma filter_no_filter (p : string) (tbl : list issue_row) :
  filter (λ r, where_clause p ∅ r = true) tbl = filter (in_project p) tbl.
Proof.
  apply list_filter_iff. intros r.
  by rewrite where_clause_no_filter, bool_decide_eq_true.
Qed.

Lemma issues_of_rows_fmap {B} (f : issue_row → B) (g : Issue.t → B)
    (rows : list issue_row) (l : list Issue.t) :
  (∀ r i, issue_of_row r = Some i → g i = f r) →
  Forall2 (λ r i, issue_of_row r = Some i) rows l → g <$> l = f <$> rows.
Proof.
  intros Hfg. induction 1 as [|r i rows l Hr _ IH]; [done|].
  rewrite !fmap_cons, IH. f_equal. by apply Hfg.
Qed.

Lemma get_issues_sequence_ids (cs : list call) (st : store) (project_id : string) :
  run cs init_db = Some st →
  ∃ l,
    get_issues project_id None st = Ok l
    ∧ Issue.sequence_id <$> l = Z.of_nat <$> seq 1 (length l)
    ∧ Forall (λ i, Issue.project_id i = project_id) l
    ∧ NoDup (Issue.id <$> l).
Proof.
  intros Hrun.
  pose proof (run_lists_encoded cs st Hrun) as He.
  pose proof (run_pk_unique cs st Hrun) as Hpk.
  pose proof (dense_run cs init_db st dense_init Hrun project_id) as Hd.
  destruct (get_issues_rows project_id None st He) as (l & Hl & Hrows).
  cbn [default] in Hrows. rewrite filter_no_filter in Hrows.
  exists l. split; [done|].
  assert (Hlen : length l = length (filter (in_project project_id) (issues st)))
    by (symmetry; by eapply Forall2_length).
  split; [|split].
  - rewrite (issues_of_rows_fmap col_sequence_id Issue.sequence_id _ _
               ltac:(by intros r i (_ & _ & ? & _)%issue_of_row_Some) Hrows).
    unfold sequence_ids in Hd. rewrite Hd at 1. by rewrite length_fmap, Hlen.
  - apply Forall_forall. intros i Hi.
    apply list_elem_of_lookup in Hi as [k Hk].
    destruct (Forall2_lookup_r _ _ _ _ _ Hrows Hk) as (r & Hr & Hri).
    apply list_elem_of_lookup_2, list_elem_of_filter in Hr as [Hp _].
    apply issue_of_row_Some in Hri as (_ & -> & _). exact Hp.
  - rewrite (issues_of_rows_fmap col_id Issue.id _ _
               ltac:(by intros r i (? & _)%issue_of_row_Some) Hrows).
    eapply sublist_NoDup; [exact Hpk|]. apply fmap_sublist, sublist_filter.
Qed.

(** Without filters [get_issues] lists the issues of the project by
    sequence number: on a store reached by calls from a new database the
    sequence numbers of the result are 1, 2, ..., n with none missing and
    none twice, every issue returned is of the project asked for, and no
    two have one id. *)
Theorem get_issues_in_sequence (cs : list call) (st : store) (project_id : string) :
  run cs init_db = Some st →
  ∃ l,
    get_issues project_id None st = Ok l
    ∧ Issue.sequence_id <$> l = Z.of_nat <$> seq 1 (length l)
    ∧ Forall (λ i, Issue.project_id i = project_id) l
    ∧ NoDup (Issue.id <$> l).
Proof. apply get_issues_sequence_ids. Qed.

Lemma where_clause_ext (p : string) (f f' : gmap string string) (r : issue_row) :
  (∀ k, k ∈ filter_keys → f' !! k = f !! k) →
  where_clause p f' r = where_clause p f r.
Proof.
  intros H. unfold where_clause.
  by rewrite (H "status"), (H "priority"), (H "assignee"), (H "label"), (H "cycle_id")
    by (unfold filter_keys; set_solver).
Qed.

Lemma where_clause_project (p : string) (f : gmap string string) (r : issue_row) :
  where_clause p f r = true → in_project p r.
Proof.
  unfold where_clause. rewrite !andb_true_iff, bool_decide_eq_true. tauto.
Qed.

Lemma issues_of_rows_sublist (rows1 rows2 : list issue_row) (l1 l2 : list Issue.t) :
  rows1 `sublist_of` rows2 →
  Forall2 (λ r i, issue_of_row r = Some i) rows1 l1 →
  Forall2 (λ r i, issue_of_row r = Some i) rows2 l2 →
  l1 `sublist_of` l2.
Proof.
  intros Hs. revert l1 l2.
  induction Hs as [|r rows1 rows2 _ IH|r rows1 rows2 _ IH]; intros l1 l2 H1 H2.
  - apply Forall2_nil_inv_l in H1 as ->. apply sublist_nil_l.
  - apply Forall2_cons_inv_l in H1 as (i1 & l1' & Hi1 & H1 & ->).
    apply Forall2_cons_inv_l in H2 as (i2 & l2' & Hi2 & H2 & ->).
    assert (i1 = i2) as -> by congruence. apply sublist_skip. by apply IH.
  - apply Forall2_cons_inv_l in H2 as (i2 & l2' & Hi2 & H2 & ->).
    apply sublist_cons. by apply IH.
Qed.

(** Filters only narrow the result, and [get_issues] reads no other key
    of the dictionary than [status], [priority], [assignee], [label] and
    [cycle_id]: the issues returned under filters are among those returned
    without, in the same order; two dictionaries that agree on the five
    keys give the same result; and a dictionary that holds none of the
    five, whatever else it holds, gives every issue of the project. *)
Theorem get_issues_narrows (cs : list call) (st : store) (project_id : string)
    (filters : gmap string string) :
  run cs init_db = Some st →
  ∃ all sel,
    get_issues project_id None st = Ok all
    ∧ get_issues project_id (Some filters) st = Ok sel
    ∧ sel `sublist_of` all
    ∧ (∀ filters', (∀ k, k ∈ filter_keys → filters' !! k = filters !! k) →
                   get_issues project_id (Some filters') st = Ok sel)
    ∧ ((∀ k, k ∈ filter_keys → filters !! k = None) → sel = all).
Proof.
  intros Hrun. pose proof (run_lists_encoded cs st Hrun) as He.
  destruct (get_issues_rows project_id None st He) as (all & Hall & Hrall).
  destruct (get_issues_rows project_id (Some filters) st He) as (sel & Hsel & Hrsel).
  cbn [default] in Hrall, Hrsel. rewrite filter_no_filter in Hrall.
  exists all, sel. split; [done|]. split; [done|].
  assert (Hext : ∀ f', (∀ k, k ∈ filter_keys → f' !! k = filters !! k) →
            get_issues project_id (Some f') st = Ok sel).
  { intros f' Hf'. rewrite <- Hsel. unfold get_issues. cbn [default].
    erewrite list_filter_iff; [done|]. intros r. cbn. by rewrite (where_clause_ext _ filters f'). }
  split; [|split; [done|]].
  - eapply issues_of_rows_sublist; [|exact Hrsel|exact Hrall].
    erewrite (list_filter_iff _ (λ r, where_clause project_id filters r = true
                                      ∧ in_project project_id r)).
    + rewrite <- list_filter_filter. apply sublist_filter.
    + intros r. split; [|tauto]. intros H. split; [done|]. by eapply where_clause_project.
  - intros Hnone.
    assert (Ok sel = Ok all) as [= ->]; [|done].
    rewrite <- Hall, <- (Hext ∅); [done|]. intros k Hk. by rewrite lookup_empty, Hnone.
Qed.

(** ** The filters on assignee and label find the members *)

Lemma escape_unescaped (x : string) : unescaped x = true → Json.escape x = x.
Proof.
  induction x as [|c x IH]; [done|]. cbn [unescaped Json.escape].
  rewrite !andb_true_iff, !negb_true_iff. intros [[[[H1 H2] H3] H4] Hx].
  rewrite IH by done. unfold Json.escape_char.
  rewrite H3, H4.
  assert (N_of_ascii c ≠ 8 ∧ N_of_ascii c ≠ 12 ∧ N_of_ascii c ≠ 10
          ∧ N_of_ascii c ≠ 13 ∧ N_of_ascii c ≠ 9)%N as (? & ? & ? & ? & ?)
    by (apply N.leb_le in H1; lia).
  rewrite !(proj2 (N.eqb_neq _ _)) by done. by rewrite H1, H2.
Qed.

Lemma c_text_unescaped (x : string) : unescaped x = true → Like.c_text x = x.
Proof.
  induction x as [|c x IH]; [done|]. cbn [unescaped Like.c_text].
  rewrite !andb_true_iff. intros [[[[H1 _] _] _] Hx].
  rewrite IH by done. apply N.leb_le in H1.
  by rewrite (proj2 (N.eqb_neq _ _)) by lia.
Qed.

Lemma like_itself (x post : string) : Like.like (x +:+ "%") (x +:+ post) = true.
Proof.
  induction x as [|c x IH].
  - rewrite !sapp_nil_l. apply LikeFacts.like_percent.
    exists post, EmptyString. by rewrite sapp_nil_r.
  - rewrite !sapp_cons.
    destruct (N_of_ascii c =? 37)%N eqn:E1.
    + apply N.eqb_eq in E1.
      assert (c = "%"%char) as -> by (by rewrite <- (ascii_N_embedding c), E1).
      apply LikeFacts.like_percent. by exists "%", (x +:+ post).
    + cbn [Like.like]. rewrite E1.
      destruct (N_of_ascii c =? 95)%N; [done|].
      rewrite IH, andb_true_r. unfold Like.eq_nocase. by apply bool_decide_eq_true.
Qed.

Lemma join_member (sep x : string) (l : list string) :
  x ∈ l → ∃ pre post, join sep l = pre +:+ x +:+ post.
Proof.
  induction l as [|y [|z l] IH].
  - by intros ?%elem_of_nil.
  - intros ->%list_elem_of_singleton. exists EmptyString, EmptyString.
    by rewrite sapp_nil_l, sapp_nil_r.
  - intros [->|Hx]%elem_of_cons.
    + exists EmptyString, (sep +:+ join sep (z :: l)). by rewrite sapp_nil_l.
    + destruct (IH Hx) as (pre & post & E).
      exists (y +:+ sep +:+ pre), post.
      change (join sep (y :: z :: l)) with (y +:+ sep +:+ join sep (z :: l)).
      by rewrite E, !sapp_assoc.
Qed.

Lemma dumps_member (x : string) (l : list string) :
  unescaped x = true → x ∈ l → ∃ pre post, Json.dumps l = pre +:+ x +:+ post.
Proof.
  intros Hx Hl.
  destruct (join_member ", " (Json.encode_basestring_ascii x)
              (Json.encode_basestring_ascii <$> l)) as (pre & post & E).
  { by apply list_elem_of_fmap_2. }
  unfold Json.dumps. rewrite E. unfold Json.encode_basestring_ascii.
  rewrite escape_unescaped by done.
  exists ("[" +:+ pre +:+ str1 dquote), (str1 dquote +:+ post +:+ "]").
  rewrite !sapp_assoc. unfold str1.
  by rewrite !sapp_cons, !sapp_nil_l, !sapp_assoc, !sapp_cons, !sapp_nil_l.
Qed.

Lemma matches_member (x : string) (l : list string) :
  unescaped x = true → x ∈ l → Like.matches x (Json.dumps l) = true.
Proof.
  intros Hx Hl. destruct (dumps_member x l Hx Hl) as (pre & post & E).
  unfold Like.matches, Like.contains_pattern.
  rewrite LikeFacts.c_text_dumps, (LikeFacts.c_text_app "%") by done.
  rewrite LikeFacts.c_text_app by by apply c_text_unescaped.
  change (Like.c_text "%") with "%". change ("%" +:+ ?t) with (String "%" t).
  apply LikeFacts.like_percent. exists pre, (x +:+ post). split; [done|].
  apply like_itself.
Qed.

Lemma row_of_issue (rows : list issue_row) (l : list Issue.t) (i : Issue.t) :
  Forall2 (λ r i, issue_of_row r = Some i) rows l → i ∈ l →
  ∃ r, r ∈ rows ∧ issue_of_row r = Some i.
Proof.
  intros H [k Hk]%list_elem_of_lookup.
  destruct (Forall2_lookup_r _ _ _ _ _ H Hk) as (r & Hr & Hri).
  exists r. split; [by eapply list_elem_of_lookup_2|done].
Qed.

Lemma issue_of_row_in (rows : list issue_row) (l : list Issue.t)
    (r : issue_row) (i : Issue.t) :
  Forall2 (λ r i, issue_of_row r = Some i) rows l → r ∈ rows →
  issue_of_row r = Some i → i ∈ l.
Proof.
  intros H [k Hk]%list_elem_of_lookup Hri.
  destruct (Forall2_lookup_l _ _ _ _ _ H Hk) as (i' & Hi' & Hri').
  assert (i' = i) as -> by congruence. by eapply list_elem_of_lookup_2.
Qed.

Lemma decoded_lists (st : store) (r : issue_row) (i : Issue.t) :
  lists_encoded st → r ∈ issues st → issue_of_row r = Some i →
  col_assignees r = Json.dumps (Issue.assignees i)
  ∧ col_labels r = Json.dumps (Issue.labels i).
Proof.
  intros He Hr Hi. unfold lists_encoded in He. rewrite Forall_forall in He.
  destruct (He r Hr) as [[a Ha] [l Hl]].
  apply issue_of_row_Some in Hi as (_ & _ & _ & _ & _ & _ & _ & Hia & Hil).
  rewrite Ha, or_empty_array_dumps, JsonFacts.loads_dumps in Hia.
  rewrite Hl, or_empty_array_dumps, JsonFacts.loads_dumps in Hil.
  by simplify_eq.
Qed.

(** The filters on [assignee] and [label] miss no member whose name
    [json.dumps] writes as it is (printable ASCII without quote and
    backslash): every issue of the project whose list of assignees holds
    the name is among those the filter on that name returns, and so for
    the labels. *)
Theorem filter_finds_members (cs : list call) (st : store) (project_id x : string) :
  run cs init_db = Some st →
  unescaped x = true →
  ∃ all by_assignee by_label,
    get_issues project_id None st = Ok all
    ∧ get_issues project_id (Some {[ "assignee" := x ]}) st = Ok by_assignee
    ∧ get_issues project_id (Some {[ "label" := x ]}) st = Ok by_label
    ∧ (∀ i, i ∈ all → x ∈ Issue.assignees i → i ∈ by_assignee)
    ∧ (∀ i, i ∈ all → x ∈ Issue.labels i → i ∈ by_label).
Proof.
  intros Hrun Hx. pose proof (run_lists_encoded cs st Hrun) as He.
  destruct (get_issues_rows project_id None st He) as (all & Hall & Hrall).
  destruct (get_issues_rows project_id (Some {[ "assignee" := x ]}) st He)
    as (la & Hla & Hrla).
  destruct (get_issues_rows project_id (Some {[ "label" := x ]}) st He)
    as (ll & Hll & Hrll).
  cbn [default] in Hrall, Hrla, Hrll. rewrite filter_no_filter in Hrall.
  exists all, la, ll. do 3 (split; [done|]).
  split; intros i Hi Hmem;
    destruct (row_of_issue _ _ _ Hrall Hi) as (r & [Hp Hr]%list_elem_of_filter & Hri);
    destruct (decoded_lists st r i He Hr Hri) as [Ha Hl].
  - eapply issue_of_row_in; [exact Hrla| |exact Hri].
    apply list_elem_of_filter. split; [|done].
    unfold where_clause, id. rewrite bool_decide_eq_true_2 by done.
    rewrite lookup_singleton_eq, !lookup_singleton_ne by done.
    rewrite Ha, matches_member by done. done.
  - eapply issue_of_row_in; [exact Hrll| |exact Hri].
    apply list_elem_of_filter. split; [|done].
    unfold where_clause, id. rewrite bool_decide_eq_true_2 by done.
    rewrite lookup_singleton_eq, !lookup_singleton_ne by done.
    rewrite Hl, matches_member by done. done.
Qed.

(** ** Reading back what was written *)

Lemma create_issue_read_back (cs : list call) (st st' : store) (uuid8 : string)
    (now : datetime) (project_id title description issue_type priority : string)
    (assignees labels : option (list string)) (issue_id : string) :
  run cs init_db = Some st →
  create_issue uuid8 now project_id title description issue_type priority
    assignees labels st = Ok (issue_id, st') →
  ∃ old,
    get_issues project_id None st = Ok old
    ∧ get_issues project_id None st'
      = Ok (old ++
          [{| Issue.id := uuid8; Issue.workspace_id := "default";
              Issue.project_id := project_id;
              Issue.sequence_id := Z.of_nat (length old) + 1;
              Issue.title := title; Issue.description := description;
              Issue.type := issue_type; Issue.status := "backlog";
              Issue.priority := priority;
              Issue.assignees := default [] assignees;
              Issue.labels := default [] labels;
              Issue.cycle_id := None; Issue.module_id := None;
              Issue.created_by := None; Issue.created_at := now;
              Issue.updated_at := now; Issue.due_date := None;
              Issue.estimate_points := None; Issue.link_count := 0;
              Issue.attachment_count := 0; Issue.comment_count := 0 |}])
    ∧ issue_id = uuid8.
Proof.
  intros Hrun Hc.
  pose proof (run_lists_encoded cs st Hrun) as He.
  pose proof (dense_run cs init_db st dense_init Hrun) as Hd.
  destruct (get_issues_rows project_id None st He) as (old & Hold & Hrows).
  cbn [default] in Hrows. rewrite filter_no_filter in Hrows.
  unfold create_issue in Hc. case_decide as Hfresh; [done|].
  inversion Hc; subst; clear Hc.
  exists old. split; [done|]. split; [|done].
  unfold get_issues. cbn [issues default].
  rewrite filter_app.
  rewrite filter_cons_True by (rewrite where_clause_no_filter; by apply bool_decide_eq_true).
  rewrite filter_nil, filter_no_filter.
  erewrite mapM_Some_2; [done|]. apply Forall2_app; [done|]. constructor; [|done].
  unfold issue_of_row, inserted_row. cbn.
  rewrite !or_empty_array_dumps, !JsonFacts.loads_dumps. cbn.
  rewrite max_sequence_id_dense by done. unfold sequence_ids.
  rewrite length_fmap. by rewrite (Forall2_length _ _ _ Hrows).
Qed.


Lemma updates_lookup (now : datetime) (kwargs : gmap string pyval) (k : string) :
  k ∈ allowed_fields →
  (<["updated_at" := PDatetime now]> (dump_lists (keep_allowed allowed_fields kwargs))) !! k
  = dumped k <$> kwargs !! k.
Proof.
  intros Hk. rewrite lookup_insert_ne by (intros <-; revert Hk; decided).
  by rewrite dump_lists_lookup, keep_allowed_lookup, decide_True.
Qed.







(** ** Updates on top of updates *)

Lemma set_text_twice (old : string) (o : option pyval) :
  set_text (set_text old o) o = set_text old o.
Proof. by destruct o as [[]|]. Qed.

Lemma set_opt_text_twice (old : option string) (o : option pyval) :
  set_opt_text (set_opt_text old o) o = set_opt_text old o.
Proof. by destruct o as [[]|]. Qed.

Lemma set_opt_time_twice (old : option datetime) (o : option pyval) :
  set_opt_time (set_opt_time old o) o = set_opt_time old o.
Proof. by destruct o as [[]|]. Qed.

Lemma set_opt_int_twice (old : option Z) (o : option pyval) :
  set_opt_int (set_opt_int old o) o = set_opt_int old o.
Proof. by destruct o as [[]|]. Qed.

(** A SET clause on top of another that names the same columns with the
    same values, the instant apart, leaves what it alone would. *)
Lemma set_columns_twice (U1 U2 : gmap string pyval) (d : datetime) (r : issue_row) :
  (∀ k, k ≠ "updated_at" → U1 !! k = U2 !! k) →
  U2 !! "updated_at" = Some (PDatetime d) →
  set_columns U2 (set_columns U1 r) = set_columns U2 r.
Proof.
  intros H Hd. unfold set_columns. cbn.
  rewrite (H "title"), (H "description"), (H "status"), (H "priority"),
    (H "assignees"), (H "labels"), (H "cycle_id"), (H "module_id"),
    (H "due_date"), (H "estimate_points") by done.
  rewrite Hd. cbn [set_time].
  by rewrite !set_text_twice, !set_opt_text_twice, set_opt_time_twice, set_opt_int_twice.
Qed.

Lemma updates_agree (A : gset string) (now1 now2 : datetime) (kwargs : gmap string pyval)
    (k : string) :
  k ≠ "updated_at" →
  (<["updated_at" := PDatetime now1]> (dump_lists (keep_allowed A kwargs))) !! k
  = (<["updated_at" := PDatetime now2]> (dump_lists (keep_allowed A kwargs))) !! k.
Proof. intros Hk. by rewrite !lookup_insert_ne. Qed.

Lemma fmap_update_twice (U1 U2 : gmap string pyval) (d : datetime)
    (w : issue_row → bool) (tbl : list issue_row) :
  (∀ U r, w (set_columns U r) = w r) →
  (∀ k, k ≠ "updated_at" → U1 !! k = U2 !! k) →
  U2 !! "updated_at" = Some (PDatetime d) →
  (λ r, if w r then set_columns U2 r else r)
    <$> ((λ r, if w r then set_columns U1 r else r) <$> tbl)
  = (λ r, if w r then set_columns U2 r else r) <$> tbl.
Proof.
  intros Hw H Hd. rewrite <- list_fmap_compose. apply list_fmap_ext.
  intros _ r _. cbn. destruct (w r) eqn:E; [|by rewrite E].
  rewrite Hw, E. by eapply set_columns_twice.
Qed.

(** An update made again overrides itself: after [update_issue] with some
    keyword arguments, the same call, at whatever later instant, leaves
    the store that it would have left had the first call not been made,
    and returns the same. *)
Theorem update_issue_again (now1 now2 : datetime) (issue_id : string)
    (kwargs : gmap string pyval) (st st1 : store) (b : bool) :
  update_issue now1 issue_id kwargs st = Ok (b, st1) →
  update_issue now2 issue_id kwargs st1 = update_issue now2 issue_id kwargs st.
Proof.
  unfold update_issue. case_decide as E; [by intros [= <- <-]|].
  destruct (well_typed _) eqn:Ht; [|done]. cbn [negb].
  destruct (bindable (<["updated_at" := PDatetime now1]> _)) eqn:Hb1; [|done].
  cbn [negb sql_update]. intros [= <- <-].
  destruct (bindable (<["updated_at" := PDatetime now2]> _)) eqn:Hb2; [|done].
  cbn [negb with_issues issues cycles modules comments comments_seq].
  do 2 f_equal. f_equal.
  apply (fmap_update_twice _ _ now2 (λ r, bool_decide (col_id r = issue_id))).
  - done.
  - intros k Hk. by apply updates_agree.
  - apply lookup_insert_eq.
Qed.

(** ** bulk_update and update_issue *)

Lemma keep_allowed_bulk (kwargs : gmap string pyval) :
  kwargs !! "due_date" = None → kwargs !! "estimate_points" = None →
  keep_allowed allowed_fields kwargs = keep_allowed bulk_allowed_fields kwargs.
Proof.
  intros Hd He. apply map_eq. intros k. rewrite !keep_allowed_lookup.
  destruct (decide (k ∈ bulk_allowed_fields)) as [Hk|Hk].
  - by rewrite decide_True by by apply bulk_allowed_subset.
  - case_decide as Hk'; [|done].
    assert (k = "due_date" ∨ k = "estimate_points") as [-> | ->]; [|done..].
    revert Hk Hk'. unfold allowed_fields, bulk_allowed_fields. set_solver.
Qed.

Lemma update_each_nothing (now : datetime) (ids : list string)
    (kwargs : gmap string pyval) (st : store) :
  keep_allowed allowed_fields kwargs = ∅ → update_each now ids kwargs st = Ok st.
Proof.
  intros HK. induction ids as [|i ids IH]; [done|]. cbn [update_each].
  unfold update_issue. by rewrite decide_True.
Qed.

Lemma update_each_rows (now : datetime) (ids : list string)
    (kwargs : gmap string pyval) (st : store) :
  keep_allowed allowed_fields kwargs ≠ ∅ →
  well_typed (keep_allowed allowed_fields kwargs) = true →
  bindable (keep_allowed allowed_fields kwargs) = true →
  update_each now ids kwargs st
  = Ok (with_issues st
          ((λ r, if bool_decide (col_id r ∈ ids)
                 then set_columns (<["updated_at" := PDatetime now]>
                        (dump_lists (keep_allowed allowed_fields kwargs))) r
                 else r) <$> issues st)).
Proof.
  intros HK Ht Hb. revert st. induction ids as [|i ids IH]; intros st.
  - cbn [update_each]. f_equal. rewrite <- (with_issues_same st) at 1. f_equal.
    rewrite <- (list_fmap_id (issues st)) at 1. apply list_fmap_ext.
    intros _ r _. rewrite bool_decide_eq_false_2; [done|]. apply not_elem_of_nil.
  - cbn [update_each]. unfold update_issue at 1. rewrite decide_False by done.
    rewrite Ht. cbn [negb]. rewrite bindable_updates by done. cbn [negb sql_update].
    rewrite IH. f_equal. cbn [with_issues issues cycles modules comments comments_seq].
    f_equal. rewrite <- list_fmap_compose. apply list_fmap_ext. intros _ r _. cbn.
    destruct (decide (col_id r = i)) as [Hr|Hr].
    + rewrite (bool_decide_eq_true_2 (col_id r = i)) by done. cbn [set_columns col_id].
      rewrite (bool_decide_eq_true_2 (col_id r ∈ i :: ids)) by (rewrite Hr; left).
      case_bool_decide; [|done].
      eapply set_columns_twice; [done|apply lookup_insert_eq].
    + rewrite (bool_decide_eq_false_2 (col_id r = i)) by done.
      rewrite (bool_decide_ext (col_id r ∈ i :: ids) (col_id r ∈ ids)); [done|].
      rewrite elem_of_cons. tauto.
Qed.

(** [bulk_update] does to the store what [update_issue] does when it is
    called for every id of the list in turn with the same keyword
    arguments at the same instant, provided the arguments name neither
    [due_date] nor [estimate_points], which [bulk_update] alone leaves
    out. *)
Theorem bulk_update_as_updates (now : datetime) (issue_ids : list string)
    (kwargs : gmap string pyval) (st : store) :
  issue_ids ≠ [] →
  kwargs !! "due_date" = None → kwargs !! "estimate_points" = None →
  store_of (bulk_update now issue_ids kwargs st)
  = update_each now issue_ids kwargs st.
Proof.
  intros Hids Hd He. pose proof (keep_allowed_bulk kwargs Hd He) as HK.
  unfold bulk_update. rewrite decide_False by done. rewrite <- HK.
  case_decide as E; [by rewrite update_each_nothing|].
  destruct (well_typed _) eqn:Ht; cbn [negb].
  - assert (Hb : bindable (keep_allowed allowed_fields kwargs) = true)
      by (rewrite HK; apply bulk_bindable; by rewrite <- HK).
    rewrite bindable_updates by done. cbn [negb sql_update store_of].
    by rewrite update_each_rows.
  - destruct issue_ids as [|i ids]; [done|]. cbn [update_each store_of].
    unfold update_issue. rewrite decide_False by done. by rewrite Ht.
Qed.

(** ** add_to_cycle and add_to_module *)

Lemma column_set_single (k s c : string) (r : issue_row) :
  k ∈ ["cycle_id"; "module_id"] →
  column c (set_columns {[ k := PStr s ]} r)
  = if decide (c = k) then Some (SText s) else column c r.
Proof.
  intros Hk.
  destruct (decide (c ∈ column_names)) as [Hin|Hout].
  - unfold column_names in Hin.
    assert (k = "cycle_id" ∨ k = "module_id") as [-> | ->] by set_solver.
    + repeat (apply elem_of_cons in Hin as [->|Hin]); [..|by apply elem_of_nil in Hin];
        eval_column; cbn [set_columns col_id col_workspace_id col_project_id
          col_sequence_id col_title col_description col_type col_status col_priority
          col_assignees col_labels col_cycle_id col_module_id col_created_by col_created_at
          col_updated_at col_due_date col_estimate_points col_link_count
          col_attachment_count col_comment_count];
        rewrite ?lookup_singleton_eq, ?lookup_singleton_ne by done; done.
    + repeat (apply elem_of_cons in Hin as [->|Hin]); [..|by apply elem_of_nil in Hin];
        eval_column; cbn [set_columns col_id col_workspace_id col_project_id
          col_sequence_id col_title col_description col_type col_status col_priority
          col_assignees col_labels col_cycle_id col_module_id col_created_by col_created_at
          col_updated_at col_due_date col_estimate_points col_link_count
          col_attachment_count col_comment_count];
        rewrite ?lookup_singleton_eq, ?lookup_singleton_ne by done; done.
  - rewrite !column_outside by done.
    rewrite decide_False; [done|]. intros ->. apply Hout. unfold column_names. set_solver.
Qed.

Lemma single_update_rows (k issue_id s : string) (tbl : list issue_row) :
  k ∈ ["cycle_id"; "module_id"] →
  Forall2 (λ r r', ∀ c, column c r'
                        = if decide (col_id r = issue_id ∧ c = k)
                          then Some (SText s) else column c r)
    tbl
    ((λ r, if bool_decide (col_id r = issue_id)
           then set_columns {[ k := PStr s ]} r else r) <$> tbl).
Proof.
  intros Hk. apply Forall2_fmap_self. intros r c.
  destruct (decide (col_id r = issue_id)) as [Hr|Hr].
  - rewrite bool_decide_eq_true_2, column_set_single by done.
    apply decide_ext. tauto.
  - rewrite bool_decide_eq_false_2 by done. rewrite decide_False; tauto.
Qed.

(** [add_to_cycle] returns [True] whatever it is given: it checks neither
    that the issue exists nor that the cycle does.  It writes the cycle
    into the column [cycle_id] of the issue with the id and changes
    nothing else, in particular not [updated_at] and no row of [cycles];
    with an id that no issue has the store is as it was. *)
Theorem add_to_cycle_sets_cycle (issue_id cycle_id : string) (st : store) :
  ∃ st',
    add_to_cycle issue_id cycle_id st = Ok (true, st')
    ∧ cycles st' = cycles st ∧ modules st' = modules st
    ∧ comments st' = comments st ∧ comments_seq st' = comments_seq st
    ∧ Forall2 (λ r r', ∀ c, column c r'
                            = if decide (col_id r = issue_id ∧ c = "cycle_id")
                              then Some (SText cycle_id) else column c r)
        (issues st) (issues st')
    ∧ (issue_id ∉ col_id <$> issues st → st' = st).
Proof.
  eexists. split; [reflexivity|].
  cbn [with_issues issues cycles modules comments comments_seq sql_update fst].
  do 4 (split; [done|]). split.
  - apply single_update_rows. set_solver.
  - intros Hid. rewrite fmap_unselected; [apply with_issues_same|].
    intros r Hr. apply bool_decide_eq_false. intros <-.
    apply Hid. by apply list_elem_of_fmap_2.
Qed.

(** [add_to_module] returns [True] whatever it is given and writes the
    module into the column [module_id] of the issue with the id, nothing
    else: not [updated_at], no row of [modules]; with an id that no issue
    has the store is as it was. *)
Theorem add_to_module_sets_module (issue_id module_id : string) (st : store) :
  ∃ st',
    add_to_module issue_id module_id st = Ok (true, st')
    ∧ cycles st' = cycles st ∧ modules st' = modules st
    ∧ comments st' = comments st ∧ comments_seq st' = comments_seq st
    ∧ Forall2 (λ r r', ∀ c, column c r'
                            = if decide (col_id r = issue_id ∧ c = "module_id")
                              then Some (SText module_id) else column c r)
        (issues st) (issues st')
    ∧ (issue_id ∉ col_id <$> issues st → st' = st).
Proof.
  eexists. split; [reflexivity|].
  cbn [with_issues issues cycles modules comments comments_seq sql_update fst].
  do 4 (split; [done|]). split.
  - apply single_update_rows. set_solver.
  - intros Hid. rewrite fmap_unselected; [apply with_issues_same|].
    intros r Hr. apply bool_decide_eq_false. intros <-.
    apply Hid. by apply list_elem_of_fmap_2.
Qed.

(** ** Counting rows after one row has changed *)

Lemma count_after_change (P : issue_row → Prop) `{!∀ r, Decision (P r)}
    (g : issue_row → issue_row) (issue_id : string) (tbl : list issue_row)
    (r : issue_row) :
  NoDup (col_id <$> tbl) → r ∈ tbl → col_id r = issue_id →
  sql_count (filter P ((λ x, if bool_decide (col_id x = issue_id) then g x else x) <$> tbl))
  = sql_count (filter P tbl)
    + (if decide (P (g r)) then 1 else 0) - (if decide (P r) then 1 else 0).
Proof.
  unfold sql_count. intros Hnd Hr Hid.
  induction tbl as [|x tbl IH]; [by apply elem_of_nil in Hr|].
  rewrite fmap_cons in Hnd. apply NoDup_cons in Hnd as [Hx Hnd].
  rewrite fmap_cons. apply elem_of_cons in Hr as [<-|Hr].
  - rewrite bool_decide_eq_true_2 by done.
    rewrite fmap_unselected.
    + rewrite !filter_cons. repeat case_decide; cbn [length]; lia.
    + intros y Hy. apply bool_decide_eq_false. intros Hyid. apply Hx.
      rewrite Hid, <- Hyid. by apply list_elem_of_fmap_2.
  - assert (col_id x ≠ issue_id).
    { intros Hxid. apply Hx. rewrite Hxid, <- Hid. by apply list_elem_of_fmap_2. }
    rewrite bool_decide_eq_false_2 by done.
    rewrite !(filter_cons _ x). specialize (IH Hnd Hr).
    destruct (decide (P x)), (decide (P (g r))), (decide (P r)); cbn [length] in *; lia.
Qed.

(** An issue is in one cycle at a time, and [add_to_cycle] moves it: on a
    store reached by calls from a new database, putting a stored issue
    into a cycle raises the [total_issues] of that cycle by one unless the
    issue was in it, and lowers by one that of the cycle the issue was in
    before; the totals of all other cycles stay. *)
Theorem add_to_cycle_moves (cs : list call) (st st' : store)
    (issue_id cycle_id : string) (r : issue_row) :
  run cs init_db = Some st →
  r ∈ issues st → col_id r = issue_id →
  add_to_cycle issue_id cycle_id st = Ok (true, st') →
  ∀ c a a',
    get_cycle_analytics c st = Ok a →
    get_cycle_analytics c st' = Ok a' →
    total_issues a'
    = total_issues a + (if decide (c = cycle_id) then 1 else 0)
      - (if decide (col_cycle_id r = Some c) then 1 else 0).
Proof.
  intros Hrun Hr Hid Hadd c a a' Ha Ha'.
  pose proof (run_pk_unique cs st Hrun) as Hpk.
  apply get_cycle_analytics_counts in Ha as (-> & _).
  apply get_cycle_analytics_counts in Ha' as (-> & _).
  injection Hadd as <-. cbn [with_issues issues sql_update fst].
  pose proof (count_after_change (in_cycle c)
                (set_columns {[ "cycle_id" := PStr cycle_id ]}) issue_id
                (issues st) r Hpk Hr Hid) as Hcount.
  unfold sql_count in Hcount. rewrite Hcount.
  rewrite (decide_ext (in_cycle c (set_columns _ r)) (c = cycle_id)); [done|].
  unfold in_cycle. cbn [set_columns col_cycle_id].
  rewrite lookup_singleton_eq. cbn [set_opt_text].
  split; [by intros [= ->]|by intros ->].
Qed.

(** ** GROUP BY into a dictionary *)

Section group_count.
Context {A : Type} (e : A → string) (rows : list A).

Let f (v : string) : Z := count_where e v rows.

Lemma foldl_insert_lookup (ks : list string) (d : gmap string Z) (k : string) :
  foldl (λ d row, <[row.1 := row.2]> d) d ((λ v, (v, f v)) <$> ks) !! k
  = if decide (k ∈ ks) then Some (f k) else d !! k.
Proof.
  revert d. induction ks as [|v ks IH]; intros d; [done|].
  rewrite fmap_cons. cbn [foldl]. rewrite IH. cbn [fst snd].
  destruct (decide (k ∈ ks)) as [Hk|Hk].
  - by rewrite decide_True by by right.
  - destruct (decide (k = v)) as [->|Hv].
    + rewrite decide_True by left. by rewrite lookup_insert_eq.
    + rewrite decide_False by (rewrite elem_of_cons; tauto).
      by rewrite lookup_insert_ne.
Qed.

Lemma count_where_pos (k : string) : k ∈ e <$> rows ↔ 0 < f k.
Proof.
  unfold f, count_where, sql_count. split.
  - intros (r & -> & Hr)%list_elem_of_fmap.
    assert (Hin : r ∈ filter (λ r', e r' = e r) rows) by by apply list_elem_of_filter.
    destruct (filter _ rows); [by apply elem_of_nil in Hin|]. cbn [length]. lia.
  - intros Hpos. destruct (filter (λ r, e r = k) rows) as [|r l] eqn:E; [cbn in Hpos; lia|].
    assert (Hin : r ∈ filter (λ r, e r = k) rows) by (rewrite E; left).
    apply list_elem_of_filter in Hin as [<- Hin]. by apply list_elem_of_fmap_2.
Qed.

Lemma group_keys (k : string) :
  k ∈ merge_sort text_le (remove_dups (e <$> rows)) ↔ k ∈ e <$> rows.
Proof. by rewrite merge_sort_Permutation, elem_of_remove_dups. Qed.

(** The dictionary holds, for every value that occurs, the number of rows
    that have it, and no other key. *)
Lemma dict_of_group_lookup (k : string) :
  dict_of_rows (sql_group_count e rows) !! k
  = if decide (f k = 0) then None else Some (f k).
Proof.
  unfold dict_of_rows, sql_group_count. fold (count_where e). 
  change (λ v, (v, count_where e v rows)) with (λ v, (v, f v)).
  rewrite foldl_insert_lookup, lookup_empty.
  pose proof (count_where_pos k) as Hpos. rewrite <- group_keys in Hpos.
  assert (0 ≤ f k) by (unfold f, count_where, sql_count; lia).
  repeat case_decide; try done; try lia.
  - apply Hpos in H0. lia.
  - destruct H0. apply Hpos. lia.
Qed.

End group_count.

Lemma sum_groups {A} (e : A → string) (rows : list A) (ks : list string) :
  NoDup ks →
  foldr (λ k acc, count_where e k rows + acc) 0 ks
  = sql_count (filter (λ r, e r ∈ ks) rows).
Proof.
  unfold count_where, sql_count. induction 1 as [|k ks Hk _ IH].
  - cbn. rewrite (filter_none _ rows); [done|]. intros r _. apply not_elem_of_nil.
  - cbn [foldr]. rewrite IH. clear IH.
    induction rows as [|r l IHl]; [done|].
    rewrite !filter_cons.
    pose proof (elem_of_cons ks (e r) k) as Hc.
    destruct (decide (e r = k)) as [Hr|Hr], (decide (e r ∈ ks)) as [Hin|Hin],
      (decide (e r ∈ k :: ks)) as [Hin'|Hin']; cbn [length]; try lia;
      exfalso; try subst k; tauto.
Qed.

Lemma foldr_insert_lookup (f : string → Z) (ks : list string) (k : string) :
  foldr (λ v d, <[v := f v]> d) (∅ : gmap string Z) ks !! k
  = if decide (k ∈ ks) then Some (f k) else None.
Proof.
  induction ks as [|v ks IH]; [done|]. cbn [foldr].
  destruct (decide (k = v)) as [->|Hv].
  - rewrite lookup_insert_eq. by rewrite decide_True by left.
  - rewrite lookup_insert_ne, IH by done. apply decide_ext.
    rewrite elem_of_cons. tauto.
Qed.

Lemma sum_values_foldr (f : string → Z) (ks : list string) :
  NoDup ks →
  sum_values (foldr (λ v d, <[v := f v]> d) ∅ ks) = foldr (λ k acc, f k + acc) 0 ks.
Proof.
  unfold sum_values. induction 1 as [|k ks Hk _ IH]; [apply map_fold_empty|].
  cbn [foldr]. rewrite map_fold_insert_L.
  - by rewrite IH.
  - intros. lia.
  - rewrite foldr_insert_lookup. by rewrite decide_False.
Qed.

Lemma filter_all {A} (P : A → Prop) `{!∀ x, Decision (P x)} (l : list A) :
  (∀ x, x ∈ l → P x) → filter P l = l.
Proof.
  induction l as [|x l IH]; intros Hl; [done|].
  rewrite filter_cons_True by (apply Hl; left). f_equal. apply IH.
  intros y Hy. apply Hl. by right.
Qed.

Lemma sum_values_group {A} (e : A → string) (rows : list A) :
  sum_values (dict_of_rows (sql_group_count e rows)) = sql_count rows.
Proof.
  set (ks := merge_sort text_le (remove_dups (e <$> rows))).
  assert (Hnd : NoDup ks).
  { unfold ks. rewrite merge_sort_Permutation. apply NoDup_remove_dups. }
  assert (Hd : dict_of_rows (sql_group_count e rows)
               = foldr (λ v d, <[v := count_where e v rows]> d) ∅ ks).
  { apply map_eq. intros k. unfold dict_of_rows, sql_group_count.
    fold (count_where e). fold ks.
    by rewrite (foldl_insert_lookup e rows), lookup_empty, foldr_insert_lookup. }
  rewrite Hd, sum_values_foldr, sum_groups by done.
  f_equal. apply filter_all. intros r Hr. unfold ks. apply group_keys.
  by apply list_elem_of_fmap_2.
Qed.

(** ** The percentages of get_cycle_analytics and get_module_progress *)

Lemma percent_ok_200 : percent_ok_upto 200 = true.
Proof. vm_compute. reflexivity. Qed.

Lemma percent_ok_upto_spec (n : nat) :
  percent_ok_upto n = true →
  ∀ c t, 0 ≤ c ≤ t → 1 ≤ t ≤ Z.of_nat n → percent_ok c t = true.
Proof.
  unfold percent_ok_upto. intros H c t Hc Ht.
  rewrite forallb_forall in H. specialize (H (Z.to_nat t)).
  rewrite forallb_forall in H.
  specialize (H ltac:(apply in_seq; lia) (Z.to_nat c) ltac:(apply in_seq; lia)).
  by rewrite !Z2Nat.id in H by lia.
Qed.

Lemma percent_ok_range (c t : Z) :
  0 ≤ c ≤ t → 1 ≤ t ≤ 200 → percent_ok c t = true.
Proof.
  intros Hc Ht. apply (percent_ok_upto_spec 200 percent_ok_200); [done|].
  change (Z.of_nat 200) with 200. done.
Qed.

(** On up to 200 issues the percentage is the exact one rounded down or
    one less, lies between 0 and 100, and is 100 only when all are done. *)
Lemma percent_in_range (c t : Z) :
  0 ≤ c ≤ t → 1 ≤ t ≤ 200 →
  ∃ p, py_int (ratio_times_100 c t) = Some p
       ∧ progress_pct_spec c t - 1 ≤ p ≤ progress_pct_spec c t
       ∧ 0 ≤ p ≤ 100
       ∧ (p = 100 ↔ c = t).
Proof.
  intros Hc Ht. pose proof (percent_ok_range c t Hc Ht) as H. unfold percent_ok in H.
  destruct (py_int _) as [p|]; [|done]. exists p. split; [done|].
  apply andb_true_iff in H as [[[H1%Z.leb_le H2%Z.leb_le]%andb_true_iff
                                  H0%Z.leb_le]%andb_true_iff H3%eqb_prop].
  assert (Hspec : progress_pct_spec c t ≤ 100).
  { unfold progress_pct_spec. rewrite (proj2 (Z.ltb_lt 0 t)) by lia.
    apply Z.div_le_upper_bound; lia. }
  split; [lia|]. split; [lia|].
  rewrite <- Z.eqb_eq, H3. apply Z.eqb_eq.
Qed.

Lemma sum_from_indicators (acc : Z) (l : list Z) :
  Forall (λ z, 0 ≤ z ≤ 1) l → 0 ≤ acc → acc + Z.of_nat (length l) < 2 ^ 63 →
  sum_from acc l = Some (acc + foldr Z.add 0 l).
Proof.
  intros Hl. revert acc. induction Hl as [|z l Hz _ IH]; intros acc Hacc Hlen.
  - cbn. f_equal. lia.
  - cbn [sum_from foldr length] in *. unfold int64.
    rewrite (proj2 (Z.leb_le _ _)), (proj2 (Z.ltb_lt _ _)) by lia. cbn [andb].
    rewrite IH by lia. f_equal. lia.
Qed.

Lemma sql_sum_indicators {A} (P : A → Prop) `{!∀ x, Decision (P x)} (l : list A) :
  Z.of_nat (length l) < 2 ^ 63 →
  ∃ o, sql_sum ((λ x, if decide (P x) then 1 else 0) <$> l) = Some o
       ∧ or0 o = Z.of_nat (length (filter P l)).
Proof.
  intros Hlen.
  destruct (sql_sum ((λ x, if decide (P x) then 1 else 0) <$> l)) as [o|] eqn:E.
  - exists o. split; [done|]. apply or0_sql_sum in E. by rewrite sum_indicator in E.
  - exfalso. destruct l as [|x l]; [done|]. rewrite fmap_cons in E.
    unfold sql_sum in E. rewrite sum_from_indicators in E; [done| |done|].
    + constructor; [case_decide; lia|].
      apply Forall_fmap, Forall_forall. intros y _. unfold compose.
      destruct (decide (P y)); lia.
    + cbn [length] in *. rewrite length_fmap. lia.
Qed.

(** For a cycle of at most 200 issues [get_cycle_analytics] either fails
    because the sum of the estimates leaves the range of an INTEGER, or
    returns, and then [progress_pct] lies between 0 and 100, is the exact
    percentage rounded down or one less than that, and is 100 exactly when
    the cycle has issues and all of them are done. *)
Theorem cycle_progress_in_range (cycle_id : string) (st : store) :
  (length (filter (in_cycle cycle_id) (issues st)) ≤ 200)%nat →
  (get_cycle_analytics cycle_id st = Raise OperationalError
   ∧ sum_from 0 ((λ r, default 1 (col_estimate_points r))
                   <$> filter (λ r, col_status r ≠ "done")
                         (filter (in_cycle cycle_id) (issues st))) = None)
  ∨ ∃ a,
      get_cycle_analytics cycle_id st = Ok a
      ∧ 0 ≤ completed a ≤ total_issues a
      ∧ 0 ≤ progress_pct a ≤ 100
      ∧ progress_pct_spec (completed a) (total_issues a) - 1 ≤ progress_pct a
        ≤ progress_pct_spec (completed a) (total_issues a)
      ∧ (progress_pct a = 100 ↔ 0 < total_issues a ∧ completed a = total_issues a).
Proof.
  intros Hlen. unfold get_cycle_analytics.
  set (rows := filter (in_cycle cycle_id) (issues st)) in *.
  destruct (sql_sum_indicators (λ r, col_status r = "done") rows ltac:(lia))
    as (o & -> & Ho).
  set (pts := (λ r, default 1 (col_estimate_points r))
                <$> filter (λ r, col_status r ≠ "done") rows).
  assert (Hdone : 0 ≤ or0 o ≤ sql_count rows).
  { rewrite Ho. unfold sql_count. pose proof (length_filter (λ r, col_status r = "done") rows).
    lia. }
  destruct (sql_sum pts) as [s|] eqn:Es.
  - right. rewrite (proj2 (Z.leb_gt _ _)) by (unfold sql_count; lia).
    destruct (0 <? sql_count rows) eqn:Epos.
    + apply Z.ltb_lt in Epos.
      destruct (percent_in_range (or0 o) (sql_count rows) Hdone
                  ltac:(unfold sql_count in *; lia)) as (p & -> & Hp1 & Hp2 & Hp3).
      eexists. split; [done|]. cbn. split; [done|]. split; [done|]. split; [done|].
      rewrite Hp3. split; [done|tauto].
    + apply Z.ltb_ge in Epos. eexists. split; [done|]. cbn.
      assert (sql_count rows = 0) as Hz by (unfold sql_count in *; lia).
      rewrite Hz in *. assert (or0 o = 0) as -> by lia.
      split; [done|]. split; [done|]. split; [done|]. split; [done|lia].
  - left. split; [done|]. unfold sql_sum in Es. destruct pts; [done|].
    by destruct (sum_from 0 (z :: pts)).
Qed.

(** ** get_module_progress *)

Lemma count_where_le {A} (e : A → string) (v : string) (rows : list A) :
  0 ≤ count_where e v rows ≤ sql_count rows.
Proof.
  unfold count_where, sql_count.
  pose proof (length_filter (λ r, e r = v) rows). lia.
Qed.

Lemma dict_get_count {A} (e : A → string) (v : string) (rows : list A) :
  default 0 (dict_of_rows (sql_group_count e rows) !! v) = count_where e v rows.
Proof. rewrite dict_of_group_lookup. by case_decide. Qed.

Lemma module_progress_counts (module_id : string) (st : store)
    (p : ModuleProgress.t) :
  get_module_progress module_id st = Ok p →
  ModuleProgress.total p = sql_count (filter (in_module module_id) (issues st))
  ∧ (∀ s, ModuleProgress.by_status p !! s
          = if decide (count_where col_status s
                         (filter (in_module module_id) (issues st)) = 0)
            then None
            else Some (count_where col_status s
                         (filter (in_module module_id) (issues st))))
  ∧ sum_values (ModuleProgress.by_status p) = ModuleProgress.total p.
Proof.
  unfold get_module_progress.
  set (rows := filter (in_module module_id) (issues st)).
  destruct (2 ^ 53 <=? sql_count rows); [done|].
  destruct (if 0 <? sql_count rows then _ else _) as [pct|]; [|done].
  intros [= <-]. cbn. split; [done|]. split.
  - intros s. apply dict_of_group_lookup.
  - apply sum_values_group.
Qed.

(** What [get_module_progress] counts: [total] is the number of issues
    whose [module_id] is the module, [by_status] holds for every status
    that occurs among them the number of issues that have it and no key
    for a status that does not occur, and the counts of [by_status] add up
    to [total]. *)
Theorem get_module_progress_counts (module_id : string) (st : store)
    (p : ModuleProgress.t) :
  get_module_progress module_id st = Ok p →
  ModuleProgress.total p = sql_count (filter (in_module module_id) (issues st))
  ∧ (∀ s, ModuleProgress.by_status p !! s
          = if decide (count_where col_status s
                         (filter (in_module module_id) (issues st)) = 0)
            then None
            else Some (count_where col_status s
                         (filter (in_module module_id) (issues st))))
  ∧ sum_values (ModuleProgress.by_status p) = ModuleProgress.total p.
Proof. apply module_progress_counts. Qed.

(** For a module of at most 200 issues [get_module_progress] returns, and
    [completion_pct] lies between 0 and 100, is the exact percentage of
    the issues with status [done] rounded down or one less than that, and
    is 100 exactly when the module has issues and all of them are done; a
    module without issues, one that does not exist included, gives 0. *)
Theorem module_progress_in_range (module_id : string) (st : store) :
  (length (filter (in_module module_id) (issues st)) ≤ 200)%nat →
  ∃ p,
    get_module_progress module_id st = Ok p
    ∧ 0 ≤ ModuleProgress.completion_pct p ≤ 100
    ∧ progress_pct_spec
        (count_where col_status "done" (filter (in_module module_id) (issues st)))
        (ModuleProgress.total p) - 1
      ≤ ModuleProgress.completion_pct p
      ≤ progress_pct_spec
          (count_where col_status "done" (filter (in_module module_id) (issues st)))
          (ModuleProgress.total p)
    ∧ (ModuleProgress.completion_pct p = 100
       ↔ 0 < ModuleProgress.total p
         ∧ count_where col_status "done" (filter (in_module module_id) (issues st))
           = ModuleProgress.total p).
Proof.
  intros Hlen. unfold get_module_progress.
  set (rows := filter (in_module module_id) (issues st)) in *.
  rewrite dict_get_count.
  pose proof (count_where_le col_status "done" rows) as Hdone.
  rewrite (proj2 (Z.leb_gt _ _)) by (unfold sql_count; lia).
  destruct (0 <? sql_count rows) eqn:Epos.
  - apply Z.ltb_lt in Epos.
    destruct (percent_in_range (count_where col_status "done" rows) (sql_count rows)
                Hdone ltac:(unfold sql_count in *; lia)) as (p & -> & Hp1 & Hp2 & Hp3).
    eexists. split; [done|]. cbn. split; [done|]. split; [done|].
    rewrite Hp3. split; [done|tauto].
  - apply Z.ltb_ge in Epos. eexists. split; [done|]. cbn.
    assert (sql_count rows = 0) as Hz by (unfold sql_count in *; lia).
    rewrite Hz in *. assert (count_where col_status "done" rows = 0) as -> by lia.
    split; [done|]. split; [done|lia].
Qed.

(** ** The float of a positive integer *)

Lemma digits2_pos_size (p : positive) : digits2_pos p = Pos.size p.
Proof. induction p as [p IH|p IH|]; cbn; by rewrite ?IH. Qed.

Lemma digits2_pos_iter (d p : positive) :
  digits2_pos (Pos.iter xO p d) = (digits2_pos p + d)%positive.
Proof.
  induction d as [|d IH] using Pos.peano_ind.
  - cbn. lia.
  - rewrite Pos.iter_succ. cbn [digits2_pos]. rewrite IH. lia.
Qed.

Lemma digits2_pos_le (p : positive) : Z.pos p < 2 ^ 53 → Z.pos (digits2_pos p) ≤ 53.
Proof.
  intros Hp. rewrite digits2_pos_size.
  pose proof (Pos.size_le p) as Hs.
  destruct (decide (Z.pos (Pos.size p) ≤ 53)) as [|Hgt]; [done|]. exfalso.
  assert (Hz : 2 ^ Z.pos (Pos.size p) ≤ Z.pos p~0).
  { rewrite <- Pos2Z.inj_pow. lia. }
  assert (2 ^ 54 ≤ 2 ^ Z.pos (Pos.size p)) by (apply Z.pow_le_mono_r; lia).
  lia.
Qed.

(** A mantissa that fits the format is not rounded. *)
Lemma binary_round_aux_exact (m : positive) (e : Z) :
  fexp prec emax (Z.pos (digits2_pos m) + e) = e → e ≤ emax - prec →
  binary_round_aux prec emax false (Z.pos m) e loc_Exact = S754_finite false m e.
Proof.
  intros Hf He. unfold binary_round_aux, shr_fexp.
  cbn [Zdigits2 shr_record_of_loc]. rewrite Hf, Z.sub_diag. cbn [shr].
  cbn [shr_m loc_of_shr_record shr_r shr_s round_nearest_even Zdigits2 shr_record_of_loc].
  rewrite Hf, Z.sub_diag. cbn [shr shr_m].
  by rewrite (proj2 (Z.leb_le _ _)) by done.
Qed.

Lemma binary_normalize_pos (p : positive) :
  Z.pos p < 2 ^ 53 →
  ∃ m e, binary_normalize prec emax (Z.pos p) 0 false = S754_finite false m e.
Proof.
  intros Hp. pose proof (digits2_pos_le p Hp) as Hd.
  unfold binary_normalize, binary_round.
  assert (Hfexp : fexp prec emax (Z.pos (digits2_pos p) + 0) = Z.pos (digits2_pos p) - 53).
  { unfold fexp, SpecFloat.emin, prec, emax. lia. }
  rewrite Hfexp. unfold shl_align. rewrite Z.sub_0_r.
  destruct (Z.pos (digits2_pos p) - 53) as [|k|k] eqn:Ek; [|lia|].
  - eexists _, _. apply binary_round_aux_exact.
    + unfold fexp, SpecFloat.emin, prec, emax. lia.
    + unfold prec, emax. lia.
  - eexists _, _. apply binary_round_aux_exact.
    + rewrite digits2_pos_iter. unfold fexp, SpecFloat.emin, prec, emax. lia.
    + unfold prec, emax. lia.
Qed.

Lemma float_of_Z_pos (n : Z) :
  0 < n < 2 ^ 53 → ∃ m e, Prim2SF (float_of_Z n) = S754_finite false m e.
Proof.
  intros Hn. unfold float_of_Z. rewrite of_uint63_spec, Uint63.of_Z_spec.
  rewrite Z.mod_small by (change wB with (2 ^ 63); lia).
  destruct n as [|p|p]; [lia| |lia]. apply binary_normalize_pos. lia.
Qed.

(** Zero over a positive count is zero, which Python takes for false. *)
Lemma zero_over_count (n : Z) :
  0 < n < 2 ^ 53 →
  PrimFloat.eqb (PrimFloat.div (float_of_Z 0) (float_of_Z n)) PrimFloat.zero = true.
Proof.
  intros Hn. destruct (float_of_Z_pos n Hn) as (m & e & Hf).
  rewrite FloatAxioms.eqb_spec, FloatAxioms.div_spec, Hf.
  reflexivity.
Qed.

(** ** get_project_analytics *)

(** The two distributions of [get_project_analytics]: each holds, for
    every priority (every status) that occurs among the issues of the
    project, the number of issues that have it and no key for a value that
    does not occur, and the counts of either add up to the number of
    issues of the project. *)
Theorem project_distributions (project_id : string) (st : store)
    (a : ProjectAnalytics.t) :
  get_project_analytics project_id st = Ok a →
  (∀ v, ProjectAnalytics.priority_distribution a !! v
        = if decide (count_where col_priority v
                       (filter (in_project project_id) (issues st)) = 0)
          then None
          else Some (count_where col_priority v
                       (filter (in_project project_id) (issues st))))
  ∧ (∀ v, ProjectAnalytics.status_distribution a !! v
          = if decide (count_where col_status v
                         (filter (in_project project_id) (issues st)) = 0)
            then None
            else Some (count_where col_status v
                         (filter (in_project project_id) (issues st))))
  ∧ sum_values (ProjectAnalytics.priority_distribution a)
    = sql_count (filter (in_project project_id) (issues st))
  ∧ sum_values (ProjectAnalytics.status_distribution a)
    = sql_count (filter (in_project project_id) (issues st)).
Proof.
  unfold get_project_analytics. destruct (sql_avg _) as [avg|]; [|done].
  intros [= <-]. cbn. split; [|split; [|split]].
  - intros v. apply dict_of_group_lookup.
  - intros v. apply dict_of_group_lookup.
  - apply sum_values_group.
  - apply sum_values_group.
Qed.

Lemma exact_sum_zeros (l : list Z) :
  Forall (λ z, z = 0) l → exact_sum 0 l = Some 0.
Proof. induction 1 as [|z l -> _ IH]; [done|]. cbn. exact IH. Qed.

Lemma sql_avg_zeros (l : list Z) :
  Forall (λ z, z = 0) l → sql_count l < 2 ^ 53 →
  ∃ avg, sql_avg l = Some avg ∧ float_or0 avg = PyInt 0.
Proof.
  intros Hz Hlen. destruct l as [|z l]; [by exists None|].
  unfold sql_avg. rewrite (proj2 (Z.leb_gt _ _)) by done.
  rewrite exact_sum_zeros by done. cbn [mbind option_bind].
  eexists. split; [done|]. cbn [float_or0].
  rewrite zero_over_count; [done|]. unfold sql_count in *. cbn [length] in *. lia.
Qed.

Lemma velocity_zero (cs : list call) (st : store) (project_id : string) :
  run cs init_db = Some st →
  sql_count (cycles st) < 2 ^ 53 →
  ∃ a, get_project_analytics project_id st = Ok a
       ∧ ProjectAnalytics.velocity a = PyInt 0.
Proof.
  intros Hrun Hlen.
  destruct (run_cycles_modules cs init_db st Hrun) as (cyc & _ & Hc & Hnew & _).
  cbn [init_db cycles app] in Hc. rewrite <- Hc in Hnew.
  unfold get_project_analytics.
  set (of_project := filter (λ c, cyc_project_id c = project_id) (cycles st)).
  destruct (sql_avg_zeros (cyc_completed_count <$> of_project)) as (avg & -> & Hv).
  - apply Forall_fmap, Forall_forall. intros c Hc'.
    apply list_elem_of_filter in Hc' as [_ Hc'].
    rewrite Forall_forall in Hnew. by destruct (Hnew c Hc') as (_ & _ & ? & _).
  - unfold sql_count in *. rewrite length_fmap.
    pose proof (length_filter (λ c, cyc_project_id c = project_id) (cycles st)).
    unfold of_project. lia.
  - eexists. split; [done|]. exact Hv.
Qed.

(** The velocity is always 0: no call of the tracker writes
    [completed_count], so on a store reached by calls from a new database
    the average that [get_project_analytics] takes is that of zeros, or of
    nothing when the project has no cycle, and [or 0] turns both into the
    integer 0, however many issues were completed. *)
Theorem velocity_is_zero (cs : list call) (st : store) (project_id : string) :
  run cs init_db = Some st →
  sql_count (cycles st) < 2 ^ 53 →
  ∃ a, get_project_analytics project_id st = Ok a
       ∧ ProjectAnalytics.velocity a = PyInt 0.
Proof. apply velocity_zero. Qed.

(** ** What a comment leaves alone *)

Lemma column_bump (c : string) (r : issue_row) :
  column c (bump_comment_count r)
  = if decide (c = "comment_count") then Some (SInt (col_comment_count r + 1))
    else column c r.
Proof.
  destruct (decide (c ∈ column_names)) as [Hin|Hout].
  - unfold column_names in Hin.
    repeat (apply elem_of_cons in Hin as [->|Hin]); [..|by apply elem_of_nil in Hin];
      eval_column; reflexivity.
  - rewrite !column_outside by done.
    rewrite decide_False; [done|]. intros ->. apply Hout. unfold column_names. set_solver.
Qed.

(** [comment] writes one row of [comments] and raises the counter of
    comments of the issue with the id by one; no other column of any
    issue changes, [updated_at] included, and the tables of cycles and
    modules stay as they are. *)
Theorem comment_touches_counter_only (now : datetime) (issue_id user body : string)
    (st : store) :
  ∃ comment_id st',
    comment now issue_id user body st = Ok (comment_id, st')
    ∧ cycles st' = cycles st ∧ modules st' = modules st
    ∧ comments st' = comments st ++
        [{| com_id := comment_id; com_issue_id := issue_id; com_user := user;
            com_body := body; com_created_at := now |}]
    ∧ Forall2 (λ r r', ∀ c, column c r'
                            = if decide (col_id r = issue_id ∧ c = "comment_count")
                              then Some (SInt (col_comment_count r + 1))
                              else column c r)
        (issues st) (issues st').
Proof.
  eexists _, _. split; [reflexivity|]. cbn [issues cycles modules comments].
  do 3 (split; [done|]).
  apply Forall2_fmap_self. intros r c.
  destruct (decide (col_id r = issue_id)) as [Hr|Hr].
  - rewrite column_bump. apply decide_ext. tauto.
  - rewrite decide_False; tauto.
Qed.

(** ** Comments stay *)

Lemma run_comments (cs : list call) (st st' : store) :
  run cs st = Some st' → ∃ new, comments st' = comments st ++ new.
Proof.
  apply (run_relation (λ s s', ∃ new, comments s' = comments s ++ new)).
  - intros s. exists []. by rewrite app_nil_r.
  - intros s1 s2 s3 [n1 H1] [n2 H2]. exists (n1 ++ n2). by rewrite H2, H1, app_assoc.
  - intros c s s' He.
    destruct (exec_comments c s s' He) as [[-> _]|(now & i & u & b & _ & -> & _)].
    + exists []. by rewrite app_nil_r.
    + by eexists.
Qed.

(** No call removes or rewrites a comment: along any calls the table of
    comments only grows at its end, and what [get_comments] returned for
    an issue before, it still returns afterwards, among the comments added
    since. *)
Theorem comments_persist (cs : list call) (st st' : store) :
  run cs st = Some st' →
  (∃ new, comments st' = comments st ++ new)
  ∧ ∀ issue_id d, d ∈ get_comments issue_id st → d ∈ get_comments issue_id st'.
Proof.
  intros Hrun. destruct (run_comments cs st st' Hrun) as [new Hnew].
  split; [by exists new|]. intros i d.
  rewrite !get_comments_Permutation, Hnew, filter_app, fmap_app, elem_of_app. tauto.
Qed.

(** ** What a new issue leaves alone *)

Lemma filter_snoc_False {A} (P : A → Prop) `{!∀ x, Decision (P x)} (l : list A) (x : A) :
  ¬ P x → filter P (l ++ [x]) = filter P l.
Proof.
  intros Hx. by rewrite filter_app, filter_cons_False, filter_nil, app_nil_r.
Qed.

(** A new issue shows nowhere but in its project: after [create_issue]
    the issues that [get_issues] returns for any other project, under any
    filters, the analytics of every cycle, the progress of every module
    and the comments of every issue are what they were. *)
Theorem create_issue_elsewhere (uuid8 : string) (now : datetime)
    (project_id title description issue_type priority : string)
    (assignees labels : option (list string)) (st st' : store) (issue_id : string) :
  create_issue uuid8 now project_id title description issue_type priority
    assignees labels st = Ok (issue_id, st') →
  (∀ p filters, p ≠ project_id → get_issues p filters st' = get_issues p filters st)
  ∧ (∀ c, get_cycle_analytics c st' = get_cycle_analytics c st)
  ∧ (∀ m, get_module_progress m st' = get_module_progress m st)
  ∧ (∀ i, get_comments i st' = get_comments i st).
Proof.
  unfold create_issue. case_decide as Hfresh; [done|]. intros [= <- <-].
  split; [|split; [|split]].
  - intros p f Hp. unfold get_issues. cbn [issues].
    rewrite filter_snoc_False; [done|].
    intros H%where_clause_project. by apply Hp.
  - intros c. unfold get_cycle_analytics. cbn [issues].
    by rewrite filter_snoc_False by done.
  - intros m. unfold get_module_progress. cbn [issues].
    by rewrite filter_snoc_False by done.
  - done.
Qed.

(** ** The status distribution and the status filter agree *)

(** The two ways to count the issues of a project by status agree: on a
    store reached by calls from a new database, the number of issues that
    [get_issues] returns under the filter [status] is the count that
    [get_project_analytics] gives for that status, 0 when the
    distribution has no such key. *)
Theorem status_counts_agree (cs : list call) (st : store) (project_id status : string)
    (a : ProjectAnalytics.t) :
  run cs init_db = Some st →
  get_project_analytics project_id st = Ok a →
  ∃ l, get_issues project_id (Some {[ "status" := status ]}) st = Ok l
       ∧ Z.of_nat (length l)
         = default 0 (ProjectAnalytics.status_distribution a !! status).
Proof.
  intros Hrun Ha. pose proof (run_lists_encoded cs st Hrun) as He.
  destruct (get_issues_rows project_id (Some {[ "status" := status ]}) st He)
    as (l & Hl & Hrows).
  exists l. split; [done|].
  unfold get_project_analytics in Ha. destruct (sql_avg _); [|done].
  injection Ha as <-. cbn [ProjectAnalytics.status_distribution].
  rewrite dict_get_count. unfold count_where, sql_count.
  rewrite <- (Forall2_length _ _ _ Hrows). f_equal. f_equal.
  rewrite list_filter_filter. apply list_filter_iff. intros r. cbn.
  unfold where_clause, id. rewrite lookup_singleton_eq, !lookup_singleton_ne by done.
  rewrite !andb_true_r, andb_true_iff, !bool_decide_eq_true. unfold in_project. tauto.
Qed.

(** ** The command line *)

Lemma issue_lines_numbered (l : list Issue.t) (start : nat) :
  Issue.sequence_id <$> l = Z.of_nat <$> seq start (length l) →
  Cli.issue_line <$> l
  = imap (λ k i, "[" +:+ py_str_int (Z.of_nat (start + k)) +:+ "] " +:+ Issue.title i
                 +:+ " (" +:+ Issue.status i +:+ ")") l.
Proof.
  revert start. induction l as [|i l IH]; intros start Hs; [done|].
  cbn [length seq] in Hs. rewrite !fmap_cons in Hs. injection Hs as Hi Hl.
  rewrite fmap_cons, imap_cons, (IH (S start) Hl). f_equal.
  - unfold Cli.issue_line. by rewrite Hi, Nat.add_0_r.
  - apply imap_ext. intros k j _. cbn. by rewrite Nat.add_succ_r.
Qed.

(** The command [issues] lists the project: on a store reached by calls
    from a new database, without [--status] or with an empty one, it
    prints a line for every issue of the project, the k-th being
    [[k] title (status)], and writes nothing; with a status it prints the
    lines of the issues that [get_issues] returns under that filter, all
    of that status. *)
Theorem cli_issues_lists (cs : list call) (st : store) (uuid8 : string)
    (now : datetime) (project : string) :
  run cs init_db = Some st →
  (∃ l, get_issues project None st = Ok l
        ∧ ∀ status, status = None ∨ status = Some EmptyString →
            Cli.main uuid8 now (Cli.Issues project status) st
            = Ok (imap (λ k i, "[" +:+ py_str_int (Z.of_nat (S k)) +:+ "] "
                               +:+ Issue.title i +:+ " (" +:+ Issue.status i +:+ ")") l,
                  st))
  ∧ ∀ s, s ≠ EmptyString →
      ∃ l, get_issues project (Some {[ "status" := s ]}) st = Ok l
           ∧ Cli.main uuid8 now (Cli.Issues project (Some s)) st
             = Ok (Cli.issue_line <$> l, st)
           ∧ Forall (λ i, Issue.status i = s) l.
Proof.
  intros Hrun. split.
  - destruct (get_issues_sequence_ids cs st project Hrun) as (l & Hl & Hseq & _).
    exists l. split; [done|]. intros status Hstatus.
    assert (Cli.main uuid8 now (Cli.Issues project status) st
            = Ok (Cli.issue_line <$> l, st)) as ->.
    { unfold Cli.main. destruct Hstatus as [-> | ->].
      - change (get_issues project (Some ∅) st) with (get_issues project None st).
        by rewrite Hl.
      - rewrite decide_True by done.
        change (get_issues project (Some ∅) st) with (get_issues project None st).
        by rewrite Hl. }
    by rewrite (issue_lines_numbered l 1 Hseq).
  - intros s Hs. pose proof (run_lists_encoded cs st Hrun) as He.
    destruct (get_issues_rows project (Some {[ "status" := s ]}) st He)
      as (l & Hl & Hrows).
    exists l. split; [done|]. split.
    + unfold Cli.main. rewrite decide_False by done. by rewrite Hl.
    + apply Forall_forall. intros i Hi.
      destruct (row_of_issue _ _ _ Hrows Hi) as (r & [Hw _]%list_elem_of_filter & Hri).
      apply issue_of_row_Some in Hri as (_ & _ & _ & -> & _).
      apply where_clause_selected in Hw as (_ & Hst & _).
      apply Hst. cbn. apply lookup_singleton_eq.
Qed.

(** The command [create] and then the command [issues]: the first prints
    the id of the new issue, and the listing of the project is afterwards
    the listing before with one more line, numbered one more than the
    lines before and showing the title given and the status [backlog]. *)
Theorem cli_create_then_issues (cs : list call) (st : store) (uuid8 u : string)
    (now t : datetime) (project_id type title priority : string) :
  run cs init_db = Some st →
  uuid8 ∉ col_id <$> issues st →
  ∃ st' lines,
    Cli.main uuid8 now (Cli.Create project_id type title priority) st
    = Ok (["Issue created: " +:+ uuid8], st')
    ∧ Cli.main u t (Cli.Issues project_id None) st = Ok (lines, st)
    ∧ Cli.main u t (Cli.Issues project_id None) st'
      = Ok (lines ++ ["[" +:+ py_str_int (Z.of_nat (length lines) + 1) +:+ "] "
                      +:+ title +:+ " (backlog)"], st').
Proof.
  intros Hrun Hfresh.
  destruct (create_issue uuid8 now project_id title "" type priority None None st)
    as [[issue_id st']| |] eqn:Hc;
    [|unfold create_issue in Hc; by rewrite decide_False in Hc..].
  destruct (create_issue_read_back cs st st' uuid8 now project_id title "" type
              priority None None issue_id Hrun Hc) as (old & Hold & Hnew & ->).
  exists st', (Cli.issue_line <$> old). unfold Cli.main. rewrite Hc.
  change (get_issues project_id (Some ∅)) with (get_issues project_id None).
  rewrite Hold, Hnew. split; [done|]. split; [done|].
  rewrite fmap_app, length_fmap. done.
Qed.

Lemma py_str_dict_empty : py_str_dict ∅ = "{}".
Proof. unfold py_str_dict. by rewrite map_to_list_empty. Qed.

(** The command [analytics] prints [Velocity: 0] for every project of a
    store reached by calls from a new database, and then the status
    distribution; for a project without issues that is [Status: {}]. *)
Theorem cli_analytics_prints (cs : list call) (st : store) (uuid8 : string)
    (now : datetime) (project_id : string) :
  run cs init_db = Some st →
  sql_count (cycles st) < 2 ^ 53 →
  ∃ a,
    get_project_analytics project_id st = Ok a
    ∧ Cli.main uuid8 now (Cli.Analytics project_id) st
      = Ok (["Velocity: 0";
             "Status: " +:+ py_str_dict (ProjectAnalytics.status_distribution a)], st)
    ∧ (filter (in_project project_id) (issues st) = [] →
       py_str_dict (ProjectAnalytics.status_distribution a) = "{}").
Proof.
  intros Hrun Hlen.
  destruct (velocity_zero cs st project_id Hrun Hlen) as (a & Ha & Hv).
  exists a. split; [done|]. split.
  - unfold Cli.main. by rewrite Ha, Hv.
  - intros Hnone. unfold get_project_analytics in Ha.
    destruct (sql_avg _); [|done]. injection Ha as <-.
    cbn [ProjectAnalytics.status_distribution]. rewrite Hnone.
    apply py_str_dict_empty.
Qed.

(** ** The further theorems at concrete calls *)

Lemma cycles_and_modules_insert_only_witness :
  ∃ cyc mods,
    cycles (store_after (sprint 2 1)) = cycles init_db ++ cyc
    ∧ cyc `sublist_of` omap cycle_of_call (sprint 2 1) ∧ Forall new_cycle cyc
    ∧ modules (store_after (sprint 2 1)) = modules init_db ++ mods
    ∧ mods `sublist_of` omap module_of_call (sprint 2 1) ∧ Forall new_module mods.
Proof. apply (cycles_and_modules_insert_only (sprint 2 1) init_db). computed. Defined.

(** The one cycle of the scenario, and no module, whatever was done with
    its issues. *)
Example sprint_cycles :
  omap cycle_of_call (sprint 2 1) = cycles (store_after (sprint 2 1))
  ∧ length (cycles (store_after (sprint 2 1))) = 1%nat
  ∧ omap module_of_call (sprint 2 1) = [].
Proof. repeat split; computed. Qed.

Lemma comment_ids_count_up_witness :
  com_id <$> comments (store_after two_comments)
  = Z.of_nat <$> seq 1 (length (comments (store_after two_comments)))
  ∧ ∀ now issue_id user body,
      ∃ st', comment now issue_id user body (store_after two_comments)
             = Ok (Z.of_nat (length (comments (store_after two_comments))) + 1, st')
             ∧ length (comments st') = S (length (comments (store_after two_comments))).
Proof. apply (comment_ids_count_up two_comments). computed. Defined.

Lemma issues_persist_witness :
  ∃ rows new,
    issues (store_after (three_issues ++ [first_done])) = rows ++ new
    ∧ Forall2 same_issue (issues (store_after three_issues)) rows
    ∧ Forall never_set new.
Proof.
  apply (issues_persist [first_done] (store_after three_issues)). computed.
Defined.

Lemma get_issues_in_sequence_witness :
  ∃ l,
    get_issues "proj-1" None (store_after two_projects) = Ok l
    ∧ Issue.sequence_id <$> l = Z.of_nat <$> seq 1 (length l)
    ∧ Forall (λ i, Issue.project_id i = "proj-1") l
    ∧ NoDup (Issue.id <$> l).
Proof. apply (get_issues_in_sequence two_projects). computed. Defined.

Lemma get_issues_narrows_witness :
  ∃ all sel,
    get_issues "proj-1" None (store_after alice_and_bob) = Ok all
    ∧ get_issues "proj-1" (Some {[ "assignee" := "bob" ]}) (store_after alice_and_bob)
      = Ok sel
    ∧ sel `sublist_of` all
    ∧ (∀ filters',
         (∀ k, k ∈ filter_keys
               → filters' !! k = ({[ "assignee" := "bob" ]} : gmap string string) !! k) →
         get_issues "proj-1" (Some filters') (store_after alice_and_bob) = Ok sel)
    ∧ ((∀ k, k ∈ filter_keys
             → ({[ "assignee" := "bob" ]} : gmap string string) !! k = None) →
       sel = all).
Proof. apply (get_issues_narrows alice_and_bob). computed. Defined.

Lemma filter_finds_members_witness :
  ∃ all by_assignee by_label,
    get_issues "proj-1" None (store_after alice_and_bob) = Ok all
    ∧ get_issues "proj-1" (Some {[ "assignee" := "alice" ]}) (store_after alice_and_bob)
      = Ok by_assignee
    ∧ get_issues "proj-1" (Some {[ "label" := "alice" ]}) (store_after alice_and_bob)
      = Ok by_label
    ∧ (∀ i, i ∈ all → "alice" ∈ Issue.assignees i → i ∈ by_assignee)
    ∧ (∀ i, i ∈ all → "alice" ∈ Issue.labels i → i ∈ by_label).
Proof. apply (filter_finds_members alice_and_bob); computed. Defined.



Lemma update_issue_again_witness :
  update_issue 30 "a1" {[ "status" := PStr "done"; "assignees" := PList ["bob"] ]}
    (store_after (three_issues ++ [first_done]))
  = update_issue 30 "a1" {[ "status" := PStr "done"; "assignees" := PList ["bob"] ]}
      (store_after three_issues).
Proof.
  apply (update_issue_again 20 30 "a1" _ (store_after three_issues) _ true). computed.
Defined.

Lemma bulk_update_as_updates_witness :
  store_of (bulk_update 20 ["a1"; "a3"] {[ "status" := PStr "done" ]}
              (store_after three_issues))
  = update_each 20 ["a1"; "a3"] {[ "status" := PStr "done" ]} (store_after three_issues).
Proof. apply bulk_update_as_updates; [done|computed|computed]. Defined.

Lemma add_to_cycle_moves_witness :
  total_issues {| total_issues := 1; completed := 0; remaining := 1;
                  progress_pct := 0; remaining_points := 1 |}
  = total_issues {| total_issues := 0; completed := 0; remaining := 0;
                    progress_pct := 0; remaining_points := 0 |}
    + (if decide ("d" = "d") then 1 else 0)
    - (if decide (Some "c" = Some "d") then 1 else 0).
Proof.
  apply (add_to_cycle_moves (sprint 2 0) (store_after (sprint 2 0))
           (store_after (sprint 2 0 ++ [AddToCycle (issue_key 0) "d"]))
           (issue_key 0) "d"
           {| col_id := issue_key 0; col_workspace_id := "default";
              col_project_id := "p"; col_sequence_id := 1; col_title := "T";
              col_description := ""; col_type := "task"; col_status := "backlog";
              col_priority := "medium"; col_assignees := "[]"; col_labels := "[]";
              col_cycle_id := Some "c"; col_module_id := None; col_created_by := None;
              col_created_at := 0; col_updated_at := 0; col_due_date := None;
              col_estimate_points := None; col_link_count := 0;
              col_attachment_count := 0; col_comment_count := 0 |});
    [computed|decided|done|computed|computed|computed].
Defined.

Lemma cycle_progress_in_range_witness :
  (get_cycle_analytics "c" (store_after (sprint 3 1)) = Raise OperationalError
   ∧ sum_from 0 ((λ r, default 1 (col_estimate_points r))
                   <$> filter (λ r, col_status r ≠ "done")
                         (filter (in_cycle "c") (issues (store_after (sprint 3 1)))))
     = None)
  ∨ ∃ a,
      get_cycle_analytics "c" (store_after (sprint 3 1)) = Ok a
      ∧ 0 ≤ completed a ≤ total_issues a
      ∧ 0 ≤ progress_pct a ≤ 100
      ∧ progress_pct_spec (completed a) (total_issues a) - 1 ≤ progress_pct a
        ≤ progress_pct_spec (completed a) (total_issues a)
      ∧ (progress_pct a = 100 ↔ 0 < total_issues a ∧ completed a = total_issues a).
Proof. apply cycle_progress_in_range. vm_compute. lia. Defined.

Lemma get_module_progress_counts_witness :
  ModuleProgress.total
    {| ModuleProgress.total := 2;
       ModuleProgress.by_status := {[ "backlog" := 1; "done" := 1 ]};
       ModuleProgress.completion_pct := 50 |}
  = sql_count (filter (in_module "m") (issues (store_after module_work)))
  ∧ (∀ s, ModuleProgress.by_status
            {| ModuleProgress.total := 2;
               ModuleProgress.by_status := {[ "backlog" := 1; "done" := 1 ]};
               ModuleProgress.completion_pct := 50 |} !! s
          = if decide (count_where col_status s
                         (filter (in_module "m") (issues (store_after module_work))) = 0)
            then None
            else Some (count_where col_status s
                         (filter (in_module "m") (issues (store_after module_work)))))
  ∧ sum_values
      (ModuleProgress.by_status
         {| ModuleProgress.total := 2;
            ModuleProgress.by_status := {[ "backlog" := 1; "done" := 1 ]};
            ModuleProgress.completion_pct := 50 |})
    = ModuleProgress.total
        {| ModuleProgress.total := 2;
           ModuleProgress.by_status := {[ "backlog" := 1; "done" := 1 ]};
           ModuleProgress.completion_pct := 50 |}.
Proof. apply (get_module_progress_counts "m" (store_after module_work)). computed. Defined.

Lemma module_progress_in_range_witness :
  ∃ p,
    get_module_progress "m" (store_after module_work) = Ok p
    ∧ 0 ≤ ModuleProgress.completion_pct p ≤ 100
    ∧ progress_pct_spec
        (count_where col_status "done"
           (filter (in_module "m") (issues (store_after module_work))))
        (ModuleProgress.total p) - 1
      ≤ ModuleProgress.completion_pct p
      ≤ progress_pct_spec
          (count_where col_status "done"
             (filter (in_module "m") (issues (store_after module_work))))
          (ModuleProgress.total p)
    ∧ (ModuleProgress.completion_pct p = 100
       ↔ 0 < ModuleProgress.total p
         ∧ count_where col_status "done"
             (filter (in_module "m") (issues (store_after module_work)))
           = ModuleProgress.total p).
Proof. apply module_progress_in_range. vm_compute. lia. Defined.

Lemma project_distributions_witness :
  ∃ a,
    get_project_analytics "proj-1" (store_after module_work) = Ok a
    ∧ ProjectAnalytics.priority_distribution a = {[ "high" := 1; "medium" := 1 ]}
    ∧ ProjectAnalytics.status_distribution a = {[ "backlog" := 1; "done" := 1 ]}
    ∧ sum_values (ProjectAnalytics.priority_distribution a)
      = sql_count (filter (in_project "proj-1") (issues (store_after module_work)))
    ∧ sum_values (ProjectAnalytics.status_distribution a)
      = sql_count (filter (in_project "proj-1") (issues (store_after module_work))).
Proof.
  eexists. split; [computed|].
  split; [computed|]. split; [computed|].
  apply (project_distributions "proj-1" (store_after module_work)). computed.
Defined.

Lemma velocity_is_zero_witness :
  ∃ a, get_project_analytics "p" (store_after (sprint 3 2)) = Ok a
       ∧ ProjectAnalytics.velocity a = PyInt 0.
Proof. apply (velocity_is_zero (sprint 3 2)); computed. Defined.

Lemma comments_persist_witness :
  (∃ new, comments (store_after two_comments)
          = comments (store_after [CreateIssue "a1" 10 "proj-1" "Bug A" "" "task" "medium"
                                     None None; Comment 20 "a1" "alice" "First"]) ++ new)
  ∧ ∀ issue_id d,
      d ∈ get_comments issue_id
            (store_after [CreateIssue "a1" 10 "proj-1" "Bug A" "" "task" "medium"
                            None None; Comment 20 "a1" "alice" "First"]) →
      d ∈ get_comments issue_id (store_after two_comments).
Proof. apply (comments_persist [Comment 21 "a1" "bob" "Second"]). computed. Defined.

Lemma create_issue_elsewhere_witness :
  (∀ p filters, p ≠ "proj-1" →
     get_issues p filters (store_after (three_issues ++ [fourth_issue]))
     = get_issues p filters (store_after three_issues))
  ∧ (∀ c, get_cycle_analytics c (store_after (three_issues ++ [fourth_issue]))
          = get_cycle_analytics c (store_after three_issues))
  ∧ (∀ m, get_module_progress m (store_after (three_issues ++ [fourth_issue]))
          = get_module_progress m (store_after three_issues))
  ∧ (∀ i, get_comments i (store_after (three_issues ++ [fourth_issue]))
          = get_comments i (store_after three_issues)).
Proof.
  apply (create_issue_elsewhere "a4" 13 "proj-1" "Issue 3" "details" "bug" "high"
           (Some ["alice"]) None (store_after three_issues) _ "a4").
  computed.
Defined.

Lemma status_counts_agree_witness :
  ∃ l, get_issues "proj-1" (Some {[ "status" := "done" ]}) (store_after module_work)
       = Ok l
       ∧ Z.of_nat (length l)
         = default 0
             (ProjectAnalytics.status_distribution
                {| ProjectAnalytics.velocity := PyInt 0;
                   ProjectAnalytics.priority_distribution :=
                     {[ "high" := 1; "medium" := 1 ]};
                   ProjectAnalytics.status_distribution :=
                     {[ "backlog" := 1; "done" := 1 ]} |} !! "done").
Proof.
  apply (status_counts_agree module_work (store_after module_work) "proj-1" "done"
           {| ProjectAnalytics.velocity := PyInt 0;
              ProjectAnalytics.priority_distribution := {[ "high" := 1; "medium" := 1 ]};
              ProjectAnalytics.status_distribution := {[ "backlog" := 1; "done" := 1 ]} |});
    computed.
Defined.

Lemma cli_issues_lists_witness :
  (∃ l, get_issues "proj-1" None (store_after module_work) = Ok l
        ∧ ∀ status, status = None ∨ status = Some EmptyString →
            Cli.main "zz" 99 (Cli.Issues "proj-1" status) (store_after module_work)
            = Ok (imap (λ k i, "[" +:+ py_str_int (Z.of_nat (S k)) +:+ "] "
                               +:+ Issue.title i +:+ " (" +:+ Issue.status i +:+ ")") l,
                  store_after module_work))
  ∧ ∀ s, s ≠ EmptyString →
      ∃ l, get_issues "proj-1" (Some {[ "status" := s ]}) (store_after module_work) = Ok l
           ∧ Cli.main "zz" 99 (Cli.Issues "proj-1" (Some s)) (store_after module_work)
             = Ok (Cli.issue_line <$> l, store_after module_work)
           ∧ Forall (λ i, Issue.status i = s) l.
Proof. apply (cli_issues_lists module_work). computed. Defined.

Example cli_issues_module_work :
  Cli.main "zz" 99 (Cli.Issues "proj-1" None) (store_after module_work)
  = Ok (["[1] A (done)"; "[2] B (backlog)"], store_after module_work)
  ∧ Cli.main "zz" 99 (Cli.Issues "proj-1" (Some "done")) (store_after module_work)
    = Ok (["[1] A (done)"], store_after module_work).
Proof. split; computed. Qed.

Lemma cli_create_then_issues_witness :
  ∃ st' lines,
    Cli.main "a5" 40 (Cli.Create "proj-1" "bug" "Crash" "urgent") (store_after three_issues)
    = Ok (["Issue created: " +:+ "a5"], st')
    ∧ Cli.main "zz" 99 (Cli.Issues "proj-1" None) (store_after three_issues)
      = Ok (lines, store_after three_issues)
    ∧ Cli.main "zz" 99 (Cli.Issues "proj-1" None) st'
      = Ok (lines ++ ["[" +:+ py_str_int (Z.of_nat (length lines) + 1) +:+ "] "
                      +:+ "Crash" +:+ " (backlog)"], st').
Proof. apply (cli_create_then_issues three_issues); [computed|decided]. Defined.

Lemma cli_analytics_prints_witness :
  ∃ a,
    get_project_analytics "p" (store_after (sprint 3 2)) = Ok a
    ∧ Cli.main "zz" 99 (Cli.Analytics "p") (store_after (sprint 3 2))
      = Ok (["Velocity: 0";
             "Status: " +:+ py_str_dict (ProjectAnalytics.status_distribution a)],
            store_after (sprint 3 2))
    ∧ (filter (in_project "p") (issues (store_after (sprint 3 2))) = [] →
       py_str_dict (ProjectAnalytics.status_distribution a) = "{}").
Proof. apply (cli_analytics_prints (sprint 3 2)); computed. Defined.

(** ** Moving between modules, and marking done *)

(** An issue is in one module at a time, and [add_to_module] moves it: on
    a store reached by calls from a new database, putting a stored issue
    into a module raises the [total] of that module by one unless the
    issue was in it, and lowers by one that of the module the issue was in
    before; the totals of all other modules stay. *)
Theorem add_to_module_moves (cs : list call) (st st' : store)
    (issue_id module_id : string) (r : issue_row) :
  run cs init_db = Some st →
  r ∈ issues st → col_id r = issue_id →
  add_to_module issue_id module_id st = Ok (true, st') →
  ∀ m p p',
    get_module_progress m st = Ok p →
    get_module_progress m st' = Ok p' →
    ModuleProgress.total p'
    = ModuleProgress.total p + (if decide (m = module_id) then 1 else 0)
      - (if decide (col_module_id r = Some m) then 1 else 0).
Proof.
  intros Hrun Hr Hid Hadd m p p' Hp Hp'.
  pose proof (run_pk_unique cs st Hrun) as Hpk.
  apply module_progress_counts in Hp as (-> & _).
  apply module_progress_counts in Hp' as (-> & _).
  injection Hadd as <-. cbn [with_issues issues sql_update fst].
  rewrite (count_after_change (in_module m)
             (set_columns {[ "module_id" := PStr module_id ]}) issue_id
             (issues st) r Hpk Hr Hid).
  rewrite (decide_ext (in_module m (set_columns _ r)) (m = module_id)); [done|].
  unfold in_module. cbn [set_columns col_module_id].
  rewrite lookup_singleton_eq. cbn [set_opt_text].
  split; [by intros [= ->]|by intros ->].
Qed.

Lemma set_columns_status_cycle (U : gmap string pyval) (r : issue_row) (c : string) :
  U !! "status" = Some (PStr "done") → U !! "cycle_id" = None →
  col_cycle_id r = Some c →
  col_status (set_columns U r) = "done" ∧ in_cycle c (set_columns U r).
Proof.
  intros Hs Hc Hr. unfold in_cycle, set_columns. cbn [col_status col_cycle_id].
  by rewrite Hs, Hc.
Qed.

(** Marking an issue done shows in the analytics of its cycle: after
    [update_issue] with [status="done"] that leaves the cycle alone, the
    cycle of the issue has the same [total_issues], and [completed] is
    one more and [remaining] one less than before unless the issue was
    done already. *)
Theorem update_issue_marks_done (cs : list call) (st st' : store) (now : datetime)
    (issue_id : string) (kwargs : gmap string pyval) (r : issue_row) (c : string) :
  run cs init_db = Some st →
  r ∈ issues st → col_id r = issue_id → col_cycle_id r = Some c →
  kwargs !! "status" = Some (PStr "done") → kwargs !! "cycle_id" = None →
  update_issue now issue_id kwargs st = Ok (true, st') →
  ∀ a a',
    get_cycle_analytics c st = Ok a →
    get_cycle_analytics c st' = Ok a' →
    total_issues a' = total_issues a
    ∧ completed a' = completed a + (if decide (col_status r = "done") then 0 else 1)
    ∧ remaining a' = remaining a - (if decide (col_status r = "done") then 0 else 1).
Proof.
  intros Hrun Hr Hid Hc Hstatus Hcycle Hu a a' Ha Ha'.
  pose proof (run_pk_unique cs st Hrun) as Hpk.
  apply get_cycle_analytics_counts in Ha as (Ht & Hd & Hrem & _).
  apply get_cycle_analytics_counts in Ha' as (Ht' & Hd' & Hrem' & _).
  unfold update_issue in Hu. case_decide as E; [done|].
  destruct (well_typed _) eqn:Htyped; [|done]. cbn [negb] in Hu.
  destruct (bindable _); [|done]. cbn [negb sql_update] in Hu.
  injection Hu as <-. cbn [with_issues issues] in Ht', Hd'.
  remember (<["updated_at" := PDatetime now]>
              (dump_lists (keep_allowed allowed_fields kwargs))) as U eqn:HU.
  assert (HUs : U !! "status" = Some (PStr "done")).
  { rewrite HU, updates_lookup by (unfold allowed_fields; set_solver).
    by rewrite Hstatus. }
  assert (HUc : U !! "cycle_id" = None).
  { rewrite HU, updates_lookup by (unfold allowed_fields; set_solver).
    by rewrite Hcycle. }
  clear HU.
  assert (Htotal : total_issues a' = total_issues a).
  { rewrite Ht, Ht'.
    pose proof (count_after_change (in_cycle c) (set_columns U) issue_id
                  (issues st) r Hpk Hr Hid) as Hcount.
    unfold sql_count in Hcount. rewrite Hcount.
    rewrite (decide_True (P := in_cycle c r)) by done.
    rewrite decide_True; [lia|].
    by apply set_columns_status_cycle. }
  assert (Hdone : completed a'
                  = completed a + (if decide (col_status r = "done") then 0 else 1)).
  { rewrite Hd, Hd', !list_filter_filter.
    pose proof (count_after_change (λ x, col_status x = "done" ∧ in_cycle c x)
                  (set_columns U) issue_id (issues st) r Hpk Hr Hid) as Hcount.
    unfold sql_count in Hcount. rewrite Hcount.
    rewrite decide_True.
    - destruct (decide (col_status r = "done")) as [Hs|Hs].
      + rewrite decide_True by done. lia.
      + rewrite decide_False by tauto. lia.
    - by apply set_columns_status_cycle. }
  split; [done|]. split; [done|]. rewrite Hrem, Hrem', Htotal, Hdone. lia.
Qed.

Lemma add_to_module_moves_witness :
  ModuleProgress.total
    {| ModuleProgress.total := 1; ModuleProgress.by_status := {[ "backlog" := 1 ]};
       ModuleProgress.completion_pct := 0 |}
  = ModuleProgress.total
      {| ModuleProgress.total := 0; ModuleProgress.by_status := ∅;
         ModuleProgress.completion_pct := 0 |}
    + (if decide ("n" = "n") then 1 else 0)
    - (if decide (Some "m" = Some "n") then 1 else 0).
Proof.
  apply (add_to_module_moves module_work (store_after module_work)
           (store_after (module_work ++ [AddToModule "a2" "n"])) "a2" "n"
           {| col_id := "a2"; col_workspace_id := "default";
              col_project_id := "proj-1"; col_sequence_id := 2; col_title := "B";
              col_description := ""; col_type := "task"; col_status := "backlog";
              col_priority := "high"; col_assignees := "[]"; col_labels := "[]";
              col_cycle_id := None; col_module_id := Some "m"; col_created_by := None;
              col_created_at := 11; col_updated_at := 11; col_due_date := None;
              col_estimate_points := None; col_link_count := 0;
              col_attachment_count := 0; col_comment_count := 0 |});
    [computed|decided|done|computed|computed|computed].
Defined.

Lemma update_issue_marks_done_witness :
  total_issues {| total_issues := 2; completed := 1; remaining := 1;
                  progress_pct := 50; remaining_points := 1 |}
  = total_issues {| total_issues := 2; completed := 0; remaining := 2;
                    progress_pct := 0; remaining_points := 2 |}
  ∧ completed {| total_issues := 2; completed := 1; remaining := 1;
                 progress_pct := 50; remaining_points := 1 |}
    = completed {| total_issues := 2; completed := 0; remaining := 2;
                   progress_pct := 0; remaining_points := 2 |}
      + (if decide ("backlog" = "done") then 0 else 1)
  ∧ remaining {| total_issues := 2; completed := 1; remaining := 1;
                 progress_pct := 50; remaining_points := 1 |}
    = remaining {| total_issues := 2; completed := 0; remaining := 2;
                   progress_pct := 0; remaining_points := 2 |}
      - (if decide ("backlog" = "done") then 0 else 1).
Proof.
  apply (update_issue_marks_done (sprint 2 0) (store_after (sprint 2 0))
           (store_after (sprint 2 0
                         ++ [UpdateIssue 100 (issue_key 0) {[ "status" := PStr "done" ]}]))
           100 (issue_key 0) {[ "status" := PStr "done" ]}
           {| col_id := issue_key 0; col_workspace_id := "default";
              col_project_id := "p"; col_sequence_id := 1; col_title := "T";
              col_description := ""; col_type := "task"; col_status := "backlog";
              col_priority := "medium"; col_assignees := "[]"; col_labels := "[]";
              col_cycle_id := Some "c"; col_module_id := None; col_created_by := None;
              col_created_at := 0; col_updated_at := 0; col_due_date := None;
              col_estimate_points := None; col_link_count := 0;
              col_attachment_count := 0; col_comment_count := 0 |} "c");
    [computed|decided|done|done|computed|computed|computed|computed|computed].
Defined.
